(** * The address manager of Dibbler (AddrMgr/AddrMgr.cpp)

    A shallow embedding of [TAddrMgr]: the registry of clients, the
    prefix-delegation mutation API, the interface reconciliation, the timer
    aggregation, the replay-detection counter and the built-in reader and
    writer of the XML snapshot, with the properties the specification
    states about them.

    Conventions.  Integers of the C++ code are [Z]; where the code converts
    between widths the wrap-around is written out (LP64: [int] has 32 bits,
    [unsigned long] and [uint64_t] have 64).  A smart pointer [SPtr<T>] that
    may be null is an [option T].  The lists of the code ([TContainer]) are
    Rocq lists; an object reached through a pointer into such a list and
    then modified is written back at the position it was found at. *)

From Stdlib Require Import ZArith Lia Bool List Ascii String.
From stdpp Require Import base decidable option list gmap strings.

Local Open Scope Z_scope.

(** ** Constants and enumerations

    [DHCPConst.h] and [DHCPDefaults.h] are not among the sources.  The
    enumerations below list the values the specification names; the code of
    AddrMgr.cpp itself mentions [STATE_CONFIGURED], [STATE_CONFIRMME],
    [ADDRSTATUS_NO] and [IATYPE_IA]/[IATYPE_PD]. *)

Inductive EState : Type :=
| STATE_NOTCONFIGURED
| STATE_INPROCESS
| STATE_CONFIGURED
| STATE_CONFIRMME
| STATE_EXPIRED.

Inductive EAddrStatus : Type :=
| ADDRSTATUS_YES
| ADDRSTATUS_NO
| ADDRSTATUS_UNKNOWN.

Inductive TIAType : Type :=
| IATYPE_IA
| IATYPE_TA
| IATYPE_PD.

#[global] Instance EState_eq_dec : EqDecision EState.
Proof. solve_decision. Defined.
#[global] Instance EAddrStatus_eq_dec : EqDecision EAddrStatus.
Proof. solve_decision. Defined.
#[global] Instance TIAType_eq_dec : EqDecision TIAType.
Proof. solve_decision. Defined.

(** [UINT_MAX] of <limits.h>. *)
Definition UINT_MAX : Z := 4294967295.

(** ** Value types *)

(** An IPv6 address: its 16 bytes, read as one 128-bit number.
    [operator==] compares the bytes. *)
Record TIPv6Addr : Type := mkIPv6Addr { Addr : Z }.

(** A DUID: its bytes.  [operator==] compares the bytes. *)
Record TDUID : Type := mkDUID { DUID_bytes : list Z }.

#[global] Instance TIPv6Addr_eq_dec : EqDecision TIPv6Addr.
Proof. solve_decision. Defined.
#[global] Instance TDUID_eq_dec : EqDecision TDUID.
Proof. solve_decision. Defined.

Record TFQDN : Type := mkFQDN {
  fqdn_Duid : TDUID;
  fqdn_Name : string;
  fqdn_Used : bool
}.

(** ** Leases *)

(** [TAddrAddr]: one leased address. *)
Record TAddrAddr : Type := mkAddrAddr {
  addr_Addr : TIPv6Addr;
  addr_Pref : Z;
  addr_Valid : Z;
  addr_Prefix : Z;
  addr_Timestamp : Z;
  addr_Tentative : EAddrStatus
}.

(** [TAddrPrefix]: one delegated prefix. *)
Record TAddrPrefix : Type := mkAddrPrefix {
  prefix_Prefix : TIPv6Addr;
  prefix_Pref : Z;
  prefix_Valid : Z;
  prefix_Length : Z;
  prefix_Timestamp : Z;
  prefix_Tentative : EAddrStatus
}.

(** ** Assignments, clients, the manager *)

Record TAddrIA : Type := mkAddrIA {
  IAID : Z;
  T1 : Z;
  T2 : Z;
  State : EState;
  Tentative : EAddrStatus;
  Timestamp : Z;
  Ifacename : string;
  Ifindex : Z;
  Type_ : TIAType;
  DUID : option TDUID;
  Unicast : option TIPv6Addr;
  FQDNDnsServer : option TIPv6Addr;
  FQDN : option TFQDN;
  AddrLst : list TAddrAddr;
  PrefixLst : list TAddrPrefix
}.

Record TAddrClient : Type := mkAddrClient {
  clnt_DUID : TDUID;
  IAsLst : list TAddrIA;
  TALst : list TAddrIA;
  PDLst : list TAddrIA;
  SPI : Z;
  ReconfKey_ : list Z
}.

Record TAddrMgr : Type := mkAddrMgr {
  ClntsLst : list TAddrClient;
  ReplayDetectionValue_ : Z;
  IsDone : bool;
  XmlFile : string;
  DeleteEmptyClient : bool
}.

(** ** What the sources leave open

    AddrMgr.cpp uses classes whose implementation files are not among the
    sources ([TAddrIA], [TAddrClient], [TAddrAddr], [TAddrPrefix],
    [TIPv6Addr], [TDUID]), and three virtual methods of [TAddrMgr] that the
    enclosing daemon supplies.  What AddrMgr.cpp cannot determine about them
    is collected in two classes, so that every statement below holds for
    each way of filling them in. *)

(** The virtual methods of [TAddrMgr]: the two verification hooks and
    [print], which adds the daemon's own lines to the snapshot. *)
Class Daemon : Type := {
  verifyAddr : TIPv6Addr → bool;
  verifyPrefix : TIPv6Addr → bool;
  print : TAddrMgr → string
}.

(** Constants and conversions of the missing files. *)
Class Externals : Type := {
  (** the state a freshly constructed [TAddrIA] is in *)
  TAddrIA_initial_State : EState;
  (** [CLIENT_DEFAULT_PREFIX_LENGTH] of DHCPDefaults.h *)
  CLIENT_DEFAULT_PREFIX_LENGTH : Z;
  (** textual form of an address to its bytes; [None] when the text is
      not an address *)
  inet_pton6 : string → option Z;
  (** the constructor of [TDUID] from a C string: textual form to DUID *)
  TDUID_of_text : string → TDUID;
  (** [textToHex] of hex.h *)
  textToHex : string → list Z;
  (** [operator<<] of [TAddrClient]: the client's block of the snapshot *)
  print_client : TAddrClient → string
}.

(** ** The missing classes, as far as AddrMgr.cpp uses them *)

Section Classes.
Context {ext : Externals}.

(** Setters of [TAddrIA]. *)
Definition setT1 (t1 : Z) (ia : TAddrIA) : TAddrIA :=
  mkAddrIA (IAID ia) t1 (T2 ia) (State ia) (Tentative ia) (Timestamp ia)
    (Ifacename ia) (Ifindex ia) (Type_ ia) (DUID ia) (Unicast ia)
    (FQDNDnsServer ia) (FQDN ia) (AddrLst ia) (PrefixLst ia).

Definition setT2 (t2 : Z) (ia : TAddrIA) : TAddrIA :=
  mkAddrIA (IAID ia) (T1 ia) t2 (State ia) (Tentative ia) (Timestamp ia)
    (Ifacename ia) (Ifindex ia) (Type_ ia) (DUID ia) (Unicast ia)
    (FQDNDnsServer ia) (FQDN ia) (AddrLst ia) (PrefixLst ia).

Definition setState (s : EState) (ia : TAddrIA) : TAddrIA :=
  mkAddrIA (IAID ia) (T1 ia) (T2 ia) s (Tentative ia) (Timestamp ia)
    (Ifacename ia) (Ifindex ia) (Type_ ia) (DUID ia) (Unicast ia)
    (FQDNDnsServer ia) (FQDN ia) (AddrLst ia) (PrefixLst ia).

Definition IA_setTimestamp (now : Z) (ia : TAddrIA) : TAddrIA :=
  mkAddrIA (IAID ia) (T1 ia) (T2 ia) (State ia) (Tentative ia) now
    (Ifacename ia) (Ifindex ia) (Type_ ia) (DUID ia) (Unicast ia)
    (FQDNDnsServer ia) (FQDN ia) (AddrLst ia) (PrefixLst ia).

Definition setIfacename (name : string) (ia : TAddrIA) : TAddrIA :=
  mkAddrIA (IAID ia) (T1 ia) (T2 ia) (State ia) (Tentative ia) (Timestamp ia)
    name (Ifindex ia) (Type_ ia) (DUID ia) (Unicast ia)
    (FQDNDnsServer ia) (FQDN ia) (AddrLst ia) (PrefixLst ia).

Definition setIfindex (idx : Z) (ia : TAddrIA) : TAddrIA :=
  mkAddrIA (IAID ia) (T1 ia) (T2 ia) (State ia) (Tentative ia) (Timestamp ia)
    (Ifacename ia) idx (Type_ ia) (DUID ia) (Unicast ia)
    (FQDNDnsServer ia) (FQDN ia) (AddrLst ia) (PrefixLst ia).

Definition setDUID (duid : TDUID) (ia : TAddrIA) : TAddrIA :=
  mkAddrIA (IAID ia) (T1 ia) (T2 ia) (State ia) (Tentative ia) (Timestamp ia)
    (Ifacename ia) (Ifindex ia) (Type_ ia) (Some duid) (Unicast ia)
    (FQDNDnsServer ia) (FQDN ia) (AddrLst ia) (PrefixLst ia).

Definition setUnicast (u : option TIPv6Addr) (ia : TAddrIA) : TAddrIA :=
  mkAddrIA (IAID ia) (T1 ia) (T2 ia) (State ia) (Tentative ia) (Timestamp ia)
    (Ifacename ia) (Ifindex ia) (Type_ ia) (DUID ia) u
    (FQDNDnsServer ia) (FQDN ia) (AddrLst ia) (PrefixLst ia).

Definition setFQDNDnsServer (dns : TIPv6Addr) (ia : TAddrIA) : TAddrIA :=
  mkAddrIA (IAID ia) (T1 ia) (T2 ia) (State ia) (Tentative ia) (Timestamp ia)
    (Ifacename ia) (Ifindex ia) (Type_ ia) (DUID ia) (Unicast ia)
    (Some dns) (FQDN ia) (AddrLst ia) (PrefixLst ia).

Definition setFQDN (fqdn : TFQDN) (ia : TAddrIA) : TAddrIA :=
  mkAddrIA (IAID ia) (T1 ia) (T2 ia) (State ia) (Tentative ia) (Timestamp ia)
    (Ifacename ia) (Ifindex ia) (Type_ ia) (DUID ia) (Unicast ia)
    (FQDNDnsServer ia) (Some fqdn) (AddrLst ia) (PrefixLst ia).

Definition setAddrLst (l : list TAddrAddr) (ia : TAddrIA) : TAddrIA :=
  mkAddrIA (IAID ia) (T1 ia) (T2 ia) (State ia) (Tentative ia) (Timestamp ia)
    (Ifacename ia) (Ifindex ia) (Type_ ia) (DUID ia) (Unicast ia)
    (FQDNDnsServer ia) (FQDN ia) l (PrefixLst ia).

Definition setPrefixLst (l : list TAddrPrefix) (ia : TAddrIA) : TAddrIA :=
  mkAddrIA (IAID ia) (T1 ia) (T2 ia) (State ia) (Tentative ia) (Timestamp ia)
    (Ifacename ia) (Ifindex ia) (Type_ ia) (DUID ia) (Unicast ia)
    (FQDNDnsServer ia) (FQDN ia) (AddrLst ia) l.

(** Modelled from the spec: [TAddrIA::setTentative()] without argument,
    called when a block of the snapshot is closed ("mark IA tentative").
    AddrIA.cpp is missing; it is taken to set the marker of the assignment
    and to leave its state and its leases alone. *)
Definition IA_setTentative (ia : TAddrIA) : TAddrIA :=
  mkAddrIA (IAID ia) (T1 ia) (T2 ia) (State ia) ADDRSTATUS_YES (Timestamp ia)
    (Ifacename ia) (Ifindex ia) (Type_ ia) (DUID ia) (Unicast ia)
    (FQDNDnsServer ia) (FQDN ia) (AddrLst ia) (PrefixLst ia).

(** Modelled from the spec: the constructor
    [TAddrIA(ifacename, ifindex, type, addr, duid, t1, t2, iaid)], missing
    with AddrIA.cpp.  It stores its arguments ([addr] is the unicast hint),
    starts with no lease, and takes the time of construction as timestamp.
    The state it starts in is [TAddrIA_initial_State]. *)
Definition new_TAddrIA (now : Z) (ifacename : string) (ifindex : Z)
    (type : TIAType) (addr : option TIPv6Addr) (duid : TDUID)
    (t1 t2 iaid : Z) : TAddrIA :=
  mkAddrIA iaid t1 t2 TAddrIA_initial_State ADDRSTATUS_UNKNOWN now
    ifacename ifindex type (Some duid) addr None None [] [].

(** Setters of [TAddrPrefix] and [TAddrAddr]. *)
Definition prefix_setTimestamp (ts : Z) (p : TAddrPrefix) : TAddrPrefix :=
  mkAddrPrefix (prefix_Prefix p) (prefix_Pref p) (prefix_Valid p)
    (prefix_Length p) ts (prefix_Tentative p).

Definition prefix_setPref (pref : Z) (p : TAddrPrefix) : TAddrPrefix :=
  mkAddrPrefix (prefix_Prefix p) pref (prefix_Valid p)
    (prefix_Length p) (prefix_Timestamp p) (prefix_Tentative p).

Definition prefix_setValid (valid : Z) (p : TAddrPrefix) : TAddrPrefix :=
  mkAddrPrefix (prefix_Prefix p) (prefix_Pref p) valid
    (prefix_Length p) (prefix_Timestamp p) (prefix_Tentative p).

Definition prefix_setTentative (t : EAddrStatus) (p : TAddrPrefix)
    : TAddrPrefix :=
  mkAddrPrefix (prefix_Prefix p) (prefix_Pref p) (prefix_Valid p)
    (prefix_Length p) (prefix_Timestamp p) t.

Definition addr_setTimestamp (ts : Z) (a : TAddrAddr) : TAddrAddr :=
  mkAddrAddr (addr_Addr a) (addr_Pref a) (addr_Valid a) (addr_Prefix a)
    ts (addr_Tentative a).

Definition addr_setTentative (t : EAddrStatus) (a : TAddrAddr) : TAddrAddr :=
  mkAddrAddr (addr_Addr a) (addr_Pref a) (addr_Valid a) (addr_Prefix a)
    (addr_Timestamp a) t.

(** Modelled from the spec: the constructors
    [TAddrPrefix(prefix, pref, valid, length)] and
    [TAddrAddr(addr, pref, valid, prefix)], missing with AddrPrefix.cpp and
    AddrAddr.cpp.  A lease is acquired at the time it is constructed and
    starts with tentative status unknown. *)
Definition new_TAddrPrefix (now : Z) (prefix : TIPv6Addr)
    (pref valid length : Z) : TAddrPrefix :=
  mkAddrPrefix prefix pref valid length now ADDRSTATUS_UNKNOWN.

Definition new_TAddrAddr (now : Z) (addr : TIPv6Addr)
    (pref valid prefix : Z) : TAddrAddr :=
  mkAddrAddr addr pref valid prefix now ADDRSTATUS_UNKNOWN.

(** Modelled from the spec: the constructor of [TIPv6Addr] from a C string, missing with
    IPv6Addr.cpp.  The constructor has no way to fail: it yields an object
    whatever the text is.  The bytes held for a text that is no address are
    taken to be zero. *)
Definition new_TIPv6Addr (plain : string) : TIPv6Addr :=
  mkIPv6Addr (default 0 (inet_pton6 plain)).

(** Modelled from the spec: the cursor loops [firstPrefix(); while (p =
    getPrefix())] of AddrMgr.cpp leave the first prefix with the address
    sought, with its position. *)
Definition findPrefix (pd : TAddrIA) (prefix : TIPv6Addr)
    : option (nat * TAddrPrefix) :=
  list_find (λ p, prefix_Prefix p = prefix) (PrefixLst pd).

(** Modelled from the spec: [TAddrIA::addPrefix(prefix, pref, valid,
    length)] appends a new lease, [TAddrIA::addPrefix(SPtr<TAddrPrefix>)]
    and [TAddrIA::addAddr] append the lease given, [TAddrIA::delPrefix]
    removes the lease with the address given, [countPrefix] and [countAddr]
    count the leases. *)
Definition IA_addPrefix_obj (p : TAddrPrefix) (ia : TAddrIA) : TAddrIA :=
  setPrefixLst (PrefixLst ia ++ [p]) ia.

Definition IA_addPrefix (now : Z) (prefix : TIPv6Addr) (pref valid length : Z)
    (ia : TAddrIA) : TAddrIA :=
  IA_addPrefix_obj (new_TAddrPrefix now prefix pref valid length) ia.

Definition IA_addAddr (a : TAddrAddr) (ia : TAddrIA) : TAddrIA :=
  setAddrLst (AddrLst ia ++ [a]) ia.

Definition IA_delPrefix (prefix : TIPv6Addr) (ia : TAddrIA) : TAddrIA :=
  match findPrefix ia prefix with
  | Some (i, _) => setPrefixLst (delete i (PrefixLst ia)) ia
  | None => ia
  end.

Definition countPrefix (ia : TAddrIA) : nat := length (PrefixLst ia).
Definition countAddr (ia : TAddrIA) : nat := length (AddrLst ia).

(** Setters of [TAddrClient]. *)
Definition setIAsLst (l : list TAddrIA) (c : TAddrClient) : TAddrClient :=
  mkAddrClient (clnt_DUID c) l (TALst c) (PDLst c) (SPI c) (ReconfKey_ c).

Definition setTALst (l : list TAddrIA) (c : TAddrClient) : TAddrClient :=
  mkAddrClient (clnt_DUID c) (IAsLst c) l (PDLst c) (SPI c) (ReconfKey_ c).

Definition setPDLst (l : list TAddrIA) (c : TAddrClient) : TAddrClient :=
  mkAddrClient (clnt_DUID c) (IAsLst c) (TALst c) l (SPI c) (ReconfKey_ c).

Definition setReconfKey (k : list Z) (c : TAddrClient) : TAddrClient :=
  mkAddrClient (clnt_DUID c) (IAsLst c) (TALst c) (PDLst c) (SPI c) k.

(** Modelled from the spec: [TAddrClient(duid)], missing with
    AddrClient.cpp: a client with that DUID and no assignment. *)
Definition new_TAddrClient (duid : TDUID) : TAddrClient :=
  mkAddrClient duid [] [] [] 0 [].

(** Modelled from the spec: the cursor loops [firstPD(); while (pd =
    getPD())] leave the first PD with the IAID sought, with its position. *)
Definition findPD (c : TAddrClient) (iaid : Z) : option (nat * TAddrIA) :=
  list_find (λ pd, IAID pd = iaid) (PDLst c).

(** Modelled from the spec: [addIA] and [addPD] append, [delPD(IAID)]
    removes the PD with that IAID, [countIA], [countTA] and [countPD]
    count. *)
Definition addIA (ia : TAddrIA) (c : TAddrClient) : TAddrClient :=
  setIAsLst (IAsLst c ++ [ia]) c.

Definition addPD (pd : TAddrIA) (c : TAddrClient) : TAddrClient :=
  setPDLst (PDLst c ++ [pd]) c.

Definition delPD (iaid : Z) (c : TAddrClient) : TAddrClient :=
  match findPD c iaid with
  | Some (i, _) => setPDLst (delete i (PDLst c)) c
  | None => c
  end.

Definition countIA (c : TAddrClient) : nat := length (IAsLst c).
Definition countTA (c : TAddrClient) : nat := length (TALst c).
Definition countPD (c : TAddrClient) : nat := length (PDLst c).

(** A PD reached through a pointer into [PDLst] and modified: the list
    holds the modified object. *)
Definition storePD (i : nat) (pd : TAddrIA) (c : TAddrClient) : TAddrClient :=
  setPDLst (<[i := pd]> (PDLst c)) c.

Definition storePrefix (i : nat) (p : TAddrPrefix) (pd : TAddrIA) : TAddrIA :=
  setPrefixLst (<[i := p]> (PrefixLst pd)) pd.

End Classes.

(** ** The registry of clients and the mutation API *)

Section Manager.
Context {ext : Externals}.

Definition setClntsLst (l : list TAddrClient) (m : TAddrMgr) : TAddrMgr :=
  mkAddrMgr l (ReplayDetectionValue_ m) (IsDone m) (XmlFile m)
    (DeleteEmptyClient m).

Definition setReplayDetectionValue (v : Z) (m : TAddrMgr) : TAddrMgr :=
  mkAddrMgr (ClntsLst m) v (IsDone m) (XmlFile m) (DeleteEmptyClient m).

(** [TAddrMgr::TAddrMgr(xmlFile, false)]: the manager before anything is
    loaded. *)
Definition new_TAddrMgr (xmlFile : string) : TAddrMgr :=
  mkAddrMgr [] 0 false xmlFile true.

Definition addClient (x : TAddrClient) (m : TAddrMgr) : TAddrMgr :=
  setClntsLst (ClntsLst m ++ [x]) m.

Definition countClient (m : TAddrMgr) : nat := length (ClntsLst m).

(** The loop over [firstClient()] and [getClient()] that stops at a client
    whose DUID equals the one sought: the first such client, with its
    position. *)
Definition findClient (m : TAddrMgr) (duid : TDUID)
    : option (nat * TAddrClient) :=
  list_find (λ c, clnt_DUID c = duid) (ClntsLst m).

(** [getClient(SPtr<TDUID>)]. *)
Definition getClient (m : TAddrMgr) (duid : TDUID) : option TAddrClient :=
  snd <$> findClient m duid.

(** [getClient(uint32_t SPI)]. *)
Definition getClient_SPI (m : TAddrMgr) (spi : Z) : option TAddrClient :=
  snd <$> list_find (λ c, SPI c = spi) (ClntsLst m).

(** [delClient]: removes the first client with that DUID. *)
Definition delClient (duid : TDUID) (m : TAddrMgr) : bool * TAddrMgr :=
  match findClient m duid with
  | Some (i, _) => (true, setClntsLst (delete i (ClntsLst m)) m)
  | None => (false, m)
  end.

(** A client reached through a pointer into [ClntsLst] and modified. *)
Definition storeClient (i : nat) (c : TAddrClient) (m : TAddrMgr) : TAddrMgr :=
  setClntsLst (<[i := c]> (ClntsLst m)) m.

(** [addPrefix], the overload that is given the client.  The manager itself
    is not touched: the function maps the client object to the client
    object after the call.  [now] is what [time(NULL)] returns. *)
Definition addPrefix_client (now : Z) (client : option TAddrClient)
    (duid : TDUID) (addr : option TIPv6Addr) (ifname : string)
    (ifindex IAID T1 T2 : Z) (prefix : option TIPv6Addr)
    (pref valid length : Z) (quiet : bool) : bool * option TAddrClient :=
  match prefix with
  | None => (false, client)
  | Some prefix =>
    match client with
    | None => (false, None)
    | Some client =>
      (* find this PD; have we found it? *)
      let '(i, ptrPD, client) :=
        match findPD client IAID with
        | Some (i, ptrPD) => (i, ptrPD, client)
        | None =>
          let ptrPD :=
            setState STATE_CONFIGURED
              (new_TAddrIA now ifname ifindex IATYPE_PD addr duid T1 T2 IAID) in
          (List.length (PDLst client), ptrPD, addPD ptrPD client)
        end in
      let ptrPD := setT2 T2 (setT1 T1 ptrPD) in
      match findPrefix ptrPD prefix with
      | Some _ =>
        (* address already exists *)
        (false, Some (storePD i ptrPD client))
      | None =>
        let ptrPD := IA_addPrefix now prefix pref valid length ptrPD in
        let ptrPD := setDUID duid ptrPD in
        (true, Some (storePD i ptrPD client))
      end
    end
  end.

(** [addPrefix], the overload that is given the DUID. *)
Definition addPrefix (now : Z) (m : TAddrMgr) (clntDuid : TDUID)
    (clntAddr : option TIPv6Addr) (ifname : string)
    (ifindex IAID T1 T2 : Z) (prefix : option TIPv6Addr)
    (pref valid length : Z) (quiet : bool) : bool * TAddrMgr :=
  (* find this client; have we found it? *)
  let '(i, ptrClient, m) :=
    match findClient m clntDuid with
    | Some (i, ptrClient) => (i, ptrClient, m)
    | None =>
      let ptrClient := new_TAddrClient clntDuid in
      (List.length (ClntsLst m), ptrClient, addClient ptrClient m)
    end in
  match addPrefix_client now (Some ptrClient) clntDuid clntAddr ifname ifindex
          IAID T1 T2 prefix pref valid length quiet with
  | (r, Some ptrClient) => (r, storeClient i ptrClient m)
  | (r, None) => (r, m)
  end.

(** [updatePrefix], the overload that is given the client. *)
Definition updatePrefix_client (now : Z) (client : option TAddrClient)
    (duid : TDUID) (clntAddr : option TIPv6Addr) (iface IAID T1 T2 : Z)
    (prefix : option TIPv6Addr) (pref valid length : Z) (quiet : bool)
    : bool * option TAddrClient :=
  match prefix with
  | None => (false, client)
  | Some prefix =>
    match client with
    | None => (false, None)
    | Some client =>
      match findPD client IAID with
      | None => (false, Some client)
      | Some (i, pd) =>
        let pd := IA_setTimestamp now pd in
        let pd := setT1 T1 pd in
        let pd := setT2 T2 pd in
        match findPrefix pd prefix with
        | None => (false, Some (storePD i pd client))
        | Some (j, ptrPrefix) =>
          let ptrPrefix := prefix_setTimestamp now ptrPrefix in
          let ptrPrefix := prefix_setPref pref ptrPrefix in
          let ptrPrefix := prefix_setValid pref ptrPrefix in
          (true, Some (storePD i (storePrefix j ptrPrefix pd) client))
        end
      end
    end
  end.

(** [updatePrefix], the overload that is given the DUID.  The prefix is
    not null here: the message logged for an unknown client dereferences
    it. *)
Definition updatePrefix (now : Z) (m : TAddrMgr) (duid : TDUID)
    (addr : option TIPv6Addr) (ifname : string) (ifindex IAID T1 T2 : Z)
    (prefix : TIPv6Addr) (pref valid length : Z) (quiet : bool)
    : bool * TAddrMgr :=
  match findClient m duid with
  | None => (false, m)
  | Some (i, client) =>
    match updatePrefix_client now (Some client) duid addr ifindex IAID T1 T2
            (Some prefix) pref valid length quiet with
    | (r, Some client) => (r, storeClient i client m)
    | (r, None) => (r, m)
    end
  end.

(** [delPrefix].  The prefix is not null: the first statement logs it. *)
Definition delPrefix (m : TAddrMgr) (clntDuid : TDUID) (IAID : Z)
    (prefix : TIPv6Addr) (quiet : bool) : bool * TAddrMgr :=
  match findClient m clntDuid with
  | None => (false, m)
  | Some (i, ptrClient) =>
    match findPD ptrClient IAID with
    | None => (false, m)
    | Some (j, ptrPD) =>
      match findPrefix ptrPD prefix with
      | None => (false, m)
      | Some _ =>
        let ptrPD := IA_delPrefix prefix ptrPD in
        let ptrClient := storePD j ptrPD ptrClient in
        let ptrClient :=
          if bool_decide (countPrefix ptrPD = 0%nat)
          then delPD IAID ptrClient else ptrClient in
        let m := storeClient i ptrClient m in
        let m :=
          if bool_decide (countIA ptrClient = 0%nat)
             && bool_decide (countTA ptrClient = 0%nat)
             && bool_decide (countPD ptrClient = 0%nat)
             && DeleteEmptyClient m
          then snd (delClient clntDuid m) else m in
        (true, m)
      end
    end
  end.

(** [prefixIsFree]. *)
Definition prefixIsFree (m : TAddrMgr) (x : TIPv6Addr) : bool :=
  forallb (λ client,
    forallb (λ pd,
      forallb (λ prefix, negb (bool_decide (prefix_Prefix prefix = x)))
        (PrefixLst pd))
      (PDLst client))
    (ClntsLst m).

End Manager.

(** ** Interface reconciliation *)

Section Interfaces.

(** [NameToIndexMapping] is a [std::map<std::string, int>],
    [IndexToNameMapping] a [std::map<int, std::string>]. *)
Variable nameToIndex : gmap string Z.
Variable indexToName : gmap Z string.

(** [updateInterfacesInfoIA]: the verdict and the assignment after the
    call. *)
Definition updateInterfacesInfoIA (ia : TAddrIA) : bool * TAddrIA :=
  if bool_decide (String.length (Ifacename ia) = 0%nat) then
    match indexToName !! Ifindex ia with
    | None => (false, ia)
    | Some name => (true, setIfacename name ia)
    end
  else
    (* check if name is present in the system *)
    match nameToIndex !! Ifacename ia with
    | None => (false, ia)
    | Some n =>
      (* check if ifindex is valid. If it changed, update it. *)
      if bool_decide (Ifindex ia ≠ n)
      then (true, setIfindex n ia)
      else (true, ia)
    end.

(** One of the three loops over the assignments of a client: it stops at
    the first assignment that cannot be fixed; the assignments before it
    stay updated. *)
Fixpoint updateInterfacesInfo_list (l : list TAddrIA)
    : bool * list TAddrIA :=
  match l with
  | [] => (true, [])
  | ia :: rest =>
    match updateInterfacesInfoIA ia with
    | (false, ia) => (false, ia :: rest)
    | (true, ia) =>
      let '(ok, rest) := updateInterfacesInfo_list rest in (ok, ia :: rest)
    end
  end.

(** The body of the loop over the clients: IAs, then TAs, then PDs. *)
Definition updateInterfacesInfo_client (client : TAddrClient)
    : bool * TAddrClient :=
  match updateInterfacesInfo_list (IAsLst client) with
  | (false, ias) => (false, setIAsLst ias client)
  | (true, ias) =>
    let client := setIAsLst ias client in
    match updateInterfacesInfo_list (TALst client) with
    | (false, tas) => (false, setTALst tas client)
    | (true, tas) =>
      let client := setTALst tas client in
      match updateInterfacesInfo_list (PDLst client) with
      | (ok, pds) => (ok, setPDLst pds client)
      end
    end
  end.

Fixpoint updateInterfacesInfo_clients (l : list TAddrClient)
    : bool * list TAddrClient :=
  match l with
  | [] => (true, [])
  | client :: rest =>
    match updateInterfacesInfo_client client with
    | (false, client) => (false, client :: rest)
    | (true, client) =>
      let '(ok, rest) := updateInterfacesInfo_clients rest in
      (ok, client :: rest)
    end
  end.

(** [updateInterfacesInfo]. *)
Definition updateInterfacesInfo (m : TAddrMgr) : bool * TAddrMgr :=
  let '(ok, clients) := updateInterfacesInfo_clients (ClntsLst m) in
  (ok, setClntsLst clients m).

End Interfaces.

(** ** Timer aggregation *)

Section Timers.

(** The time left, at [now], of a period of [life] seconds that started at
    [ts]. *)
Definition remaining (now ts life : Z) : Z :=
  if ts + life >? now then ts + life - now else 0.

(** The loop shared by the accessors: [ts] starts at [UINT_MAX] and is
    lowered to each timeout below it. *)
Definition lowest {A : Type} (timeout : A → Z) (l : list A) : Z :=
  fold_left (λ ts x, if ts >? timeout x then timeout x else ts) l UINT_MAX.

(** Modelled from the spec: the accessors of [TAddrIA], missing with
    AddrIA.cpp.  T1 and T2 run from the timestamp of the assignment; the
    preferred and valid timeouts of an assignment are the lowest over its
    leases, each running from the timestamp of the lease. *)
Definition IA_getT1Timeout (now : Z) (ia : TAddrIA) : Z :=
  remaining now (Timestamp ia) (T1 ia).

Definition IA_getT2Timeout (now : Z) (ia : TAddrIA) : Z :=
  remaining now (Timestamp ia) (T2 ia).

Definition IA_getPrefTimeout (now : Z) (ia : TAddrIA) : Z :=
  Z.min
    (lowest (λ a, remaining now (addr_Timestamp a) (addr_Pref a)) (AddrLst ia))
    (lowest (λ p, remaining now (prefix_Timestamp p) (prefix_Pref p))
       (PrefixLst ia)).

Definition IA_getValidTimeout (now : Z) (ia : TAddrIA) : Z :=
  Z.min
    (lowest (λ a, remaining now (addr_Timestamp a) (addr_Valid a)) (AddrLst ia))
    (lowest (λ p, remaining now (prefix_Timestamp p) (prefix_Valid p))
       (PrefixLst ia)).

(** All assignments of a client: IAs, TAs, PDs. *)
Definition assignments (c : TAddrClient) : list TAddrIA :=
  IAsLst c ++ TALst c ++ PDLst c.

(** Modelled from the spec: the accessors of [TAddrClient], missing with
    AddrClient.cpp: the lowest timeout over the assignments of the client,
    the sentinel when it has none. *)
Definition clnt_getT1Timeout (now : Z) (c : TAddrClient) : Z :=
  lowest (IA_getT1Timeout now) (assignments c).

Definition clnt_getT2Timeout (now : Z) (c : TAddrClient) : Z :=
  lowest (IA_getT2Timeout now) (assignments c).

Definition clnt_getPrefTimeout (now : Z) (c : TAddrClient) : Z :=
  lowest (IA_getPrefTimeout now) (assignments c).

Definition clnt_getValidTimeout (now : Z) (c : TAddrClient) : Z :=
  lowest (IA_getValidTimeout now) (assignments c).

(** [TAddrMgr::getT1Timeout] and its three siblings. *)
Definition getT1Timeout (now : Z) (m : TAddrMgr) : Z :=
  fold_left
    (λ ts ptr,
       if ts >? clnt_getT1Timeout now ptr
       then clnt_getT1Timeout now ptr else ts)
    (ClntsLst m) UINT_MAX.

Definition getT2Timeout (now : Z) (m : TAddrMgr) : Z :=
  fold_left
    (λ ts ptr,
       if ts >? clnt_getT2Timeout now ptr
       then clnt_getT2Timeout now ptr else ts)
    (ClntsLst m) UINT_MAX.

Definition getPrefTimeout (now : Z) (m : TAddrMgr) : Z :=
  fold_left
    (λ ts ptr,
       if ts >? clnt_getPrefTimeout now ptr
       then clnt_getPrefTimeout now ptr else ts)
    (ClntsLst m) UINT_MAX.

Definition getValidTimeout (now : Z) (m : TAddrMgr) : Z :=
  fold_left
    (λ ts ptr,
       if ts >? clnt_getValidTimeout now ptr
       then clnt_getValidTimeout now ptr else ts)
    (ClntsLst m) UINT_MAX.

(** [v] is the lowest of the values [ts] and of the sentinel [UINT_MAX]. *)
Definition lowest_of (v : Z) (ts : list Z) : Prop :=
  v ≤ UINT_MAX ∧ (∀ t, t ∈ ts → v ≤ t) ∧ (v = UINT_MAX ∨ v ∈ ts).

(** The times left of all T1 timers, T2 timers, preferred lifetimes and
    valid lifetimes the manager holds. *)
Definition all_T1 (now : Z) (m : TAddrMgr) : list Z :=
  c ← ClntsLst m; IA_getT1Timeout now <$> assignments c.

Definition all_T2 (now : Z) (m : TAddrMgr) : list Z :=
  c ← ClntsLst m; IA_getT2Timeout now <$> assignments c.

Definition all_Pref (now : Z) (m : TAddrMgr) : list Z :=
  c ← ClntsLst m; ia ← assignments c;
  ((λ a, remaining now (addr_Timestamp a) (addr_Pref a)) <$> AddrLst ia)
  ++ ((λ p, remaining now (prefix_Timestamp p) (prefix_Pref p))
        <$> PrefixLst ia).

Definition all_Valid (now : Z) (m : TAddrMgr) : list Z :=
  c ← ClntsLst m; ia ← assignments c;
  ((λ a, remaining now (addr_Timestamp a) (addr_Valid a)) <$> AddrLst ia)
  ++ ((λ p, remaining now (prefix_Timestamp p) (prefix_Valid p))
        <$> PrefixLst ia).

(** What the specification says of an accessor of the manager: [v] is what
    it returns, [g] the accessor of the clients it goes through, [leaves]
    the times left that the manager holds. *)
Definition aggregates (v : Z) (g : TAddrClient → Z) (leaves : list Z)
    (m : TAddrMgr) : Prop :=
  (ClntsLst m = [] → v = UINT_MAX)
  ∧ (ClntsLst m ≠ [] →
     (∃ c, c ∈ ClntsLst m ∧ v = g c) ∧ ∀ c, c ∈ ClntsLst m → v ≤ g c)
  ∧ lowest_of v leaves.

End Timers.

(** ** The replay-detection counter *)

(** [uint64_t] arithmetic wraps at 2^64. *)
Definition UINT64_MOD : Z := 2 ^ 64.

(** [getNextReplayDetectionValue]: [return ++ReplayDetectionValue_;].  The
    value returned and the manager after the call. *)
Definition getNextReplayDetectionValue (m : TAddrMgr) : Z * TAddrMgr :=
  let v := (ReplayDetectionValue_ m + 1) mod UINT64_MOD in
  (v, setReplayDetectionValue v m).

(** [n] calls in a row: the values returned, in order, and the manager
    after the last call. *)
Fixpoint nextReplayDetectionValues (n : nat) (m : TAddrMgr)
    : list Z * TAddrMgr :=
  match n with
  | O => ([], m)
  | S n =>
    let '(v, m) := getNextReplayDetectionValue m in
    let '(vs, m) := nextReplayDetectionValues n m in
    (v :: vs, m)
  end.

(** ** The C library, as far as the reader uses it *)

Section CLibrary.
Local Open Scope string_scope.
Local Open Scope Z_scope.

(** Outcome of a piece of the reader.  [Undefined] stands for the runs on
    which C gives no meaning to the code: arithmetic on a null pointer, or a
    read past the bytes [fgets] wrote into the buffer.  [OutOfFuel] is the
    artefact of writing the loops with a bound on the number of rounds; the
    bound the reader is run with is never reached ([xmlLoadBuiltIn_total]
    below). *)
Inductive res (A : Type) : Type :=
| Ret (a : A)
| Undefined
| OutOfFuel.
Global Arguments Ret {A} a.
Global Arguments Undefined {A}.
Global Arguments OutOfFuel {A}.

Global Instance res_ret : MRet res := λ A a, Ret a.
Global Instance res_bind : MBind res := λ A B k c,
  match c with
  | Ret a => k a
  | Undefined => Undefined
  | OutOfFuel => OutOfFuel
  end.

Global Instance res_fmap : FMap res := λ A B g c,
  match c with
  | Ret a => Ret (g a)
  | Undefined => Undefined
  | OutOfFuel => OutOfFuel
  end.

Definition NUL : ascii := ascii_of_nat 0.
Definition newline : ascii := ascii_of_nat 10.
Definition dquote : ascii := ascii_of_nat 34.
Definition endl : string := String newline EmptyString.

(** A [char] buffer is the string of the bytes written into it, which may
    hold NUL bytes; a pointer into it is an offset. *)
Fixpoint sdrop (n : nat) (s : string) : string :=
  match n, s with
  | O, _ => s
  | S n, String _ s => sdrop n s
  | S _, EmptyString => EmptyString
  end.

Fixpoint stake (n : nat) (s : string) : string :=
  match n, s with
  | S n, String c s => String c (stake n s)
  | _, _ => EmptyString
  end.

(** The C string that starts a sequence of bytes: the bytes before the
    first NUL. *)
Fixpoint cstr (s : string) : string :=
  match s with
  | EmptyString => EmptyString
  | String c s => if Ascii.eqb c NUL then EmptyString else String c (cstr s)
  end.

(** The C string a pointer [buf + p] points to.  Past the bytes written the
    buffer holds whatever earlier lines left there. *)
Definition str_at (buf : string) (p : nat) : res string :=
  if (p <=? String.length buf)%nat then Ret (cstr (sdrop p buf))
  else Undefined.

(** [*x = 0] where [x] is [buf + p]. *)
Definition poke0 (buf : string) (p : nat) : string :=
  stake p buf +:+ String NUL (sdrop (S p) buf).

(** Offset of the first occurrence of [needle] in [hay]. *)
Fixpoint find (needle hay : string) : option nat :=
  if String.prefix needle hay then Some O
  else match hay with
       | EmptyString => None
       | String _ hay => S <$> find needle hay
       end.

(** [strstr(buf + p, needle)]: the offset in [buf] of the match, [None]
    for the null pointer. *)
Definition strstr_at (buf : string) (p : nat) (needle : string)
    : res (option nat) :=
  s ← str_at buf p; Ret ((λ i, (p + i)%nat) <$> find needle s).

(** [strstr(buf, needle)]. *)
Definition strstr (buf needle : string) : option nat :=
  find needle (cstr buf).

Definition found (x : option nat) : bool :=
  match x with Some _ => true | None => false end.

(** [std::string(beg, end)]: the bytes from [buf + b] up to [buf + e]. *)
Definition range (buf : string) (b e : nat) : string :=
  stake (e - b) (sdrop b buf).

Definition isspace (c : ascii) : bool :=
  let n := nat_of_ascii c in
  (n =? 32)%nat || ((9 <=? n)%nat && (n <=? 13)%nat).

Definition digit (c : ascii) : option Z :=
  let n := nat_of_ascii c in
  if ((48 <=? n)%nat && (n <=? 57)%nat)%bool
  then Some (Z.of_nat n - 48) else None.

Fixpoint skip_spaces (s : string) : string :=
  match s with
  | String c s' => if isspace c then skip_spaces s' else s
  | EmptyString => s
  end.

(** The number the leading digits of [s] denote, continuing from [acc];
    [acc] itself when [s] starts with no digit. *)
Fixpoint digits (s : string) (acc : Z) : Z :=
  match s with
  | String c s' =>
    match digit c with
    | Some d => digits s' (10 * acc + d)
    | None => acc
    end
  | EmptyString => acc
  end.

Definition starts_with_digit (s : string) : bool :=
  match s with
  | String c _ => bool_decide (is_Some (digit c))
  | EmptyString => false
  end.

Definition to_int (z : Z) : Z := (z + 2 ^ 31) mod 2 ^ 32 - 2 ^ 31.
Definition to_uint32 (z : Z) : Z := z mod 2 ^ 32.
Definition to_ulong (z : Z) : Z := z mod 2 ^ 64.

Definition LONG_MAX : Z := 2 ^ 63 - 1.
Definition LONG_MIN : Z := - 2 ^ 63.

(** [strtol(s, NULL, 10)]: blanks, a sign, digits; the value is clamped to
    the range of [long]. *)
Definition strtol (s : string) : Z :=
  let v :=
    match skip_spaces s with
    | String c s' =>
      if Ascii.eqb c "-"%char then - digits s' 0
      else if Ascii.eqb c "+"%char then digits s' 0
      else digits (String c s') 0
    | EmptyString => 0
    end in
  Z.max LONG_MIN (Z.min LONG_MAX v).

(** [atoi(s)], which is [(int) strtol(s, NULL, 10)]. *)
Definition atoi (s : string) : Z := to_int (strtol s).

(** [stream >> v] for a [uint64_t v] on a fresh stream over [s]: blanks, a
    sign, digits.  Without a digit the value is 0; a value out of range
    gives the largest value; a minus sign negates modulo 2^64. *)
Definition extract_uint64 (s : string) : Z :=
  let conv (neg : bool) (t : string) : Z :=
    if starts_with_digit t then
      let v := digits t 0 in
      if v >? UINT64_MOD - 1 then UINT64_MOD - 1
      else if neg then (- v) mod UINT64_MOD else v
    else 0 in
  match skip_spaces s with
  | String c s' =>
    if Ascii.eqb c "-"%char then conv true s'
    else if Ascii.eqb c "+"%char then conv false s'
    else conv false (String c s')
  | EmptyString => 0
  end.

(** [stream << v] for an unsigned [v]: its decimal digits. *)
Fixpoint dec_aux (fuel : nat) (n : Z) (acc : string) : string :=
  match fuel with
  | O => acc
  | S fuel =>
    let acc := String (ascii_of_nat (48 + Z.to_nat (n mod 10))) acc in
    if n / 10 =? 0 then acc else dec_aux fuel (n / 10) acc
  end.

(** 20 digits are enough for a 64-bit value. *)
Definition dec (n : Z) : string := dec_aux 20 n EmptyString.

(** Texts made of decimal digits only, texts without newline, texts without
    NUL byte. *)
Fixpoint all_digits (s : string) : bool :=
  match s with
  | EmptyString => true
  | String c s => bool_decide (is_Some (digit c)) && all_digits s
  end.

Fixpoint no_newline (s : string) : bool :=
  match s with
  | EmptyString => true
  | String c s => negb (Ascii.eqb c newline) && no_newline s
  end.

Fixpoint no_NUL (s : string) : bool :=
  match s with
  | EmptyString => true
  | String c s => negb (Ascii.eqb c NUL) && no_NUL s
  end.

(** An open file: the bytes not read yet and the end-of-file indicator. *)
Record FILE : Type := mkFILE { unread : string; eof : bool }.

(** [fopen(xmlFile, "r")] on a file with the given content. *)
Definition fopen (content : string) : FILE := mkFILE content false.

Definition feof (f : FILE) : bool := eof f.

(** The bytes one [fgets] with room for [n] of them takes from [s]: up to
    and including the first newline, at most [n]; what is left; and whether
    the end of the file was hit while reading. *)
Fixpoint fgets_chunk (n : nat) (s : string) : string * string * bool :=
  match n with
  | O => (EmptyString, s, false)
  | S n =>
    match s with
    | EmptyString => (EmptyString, EmptyString, true)
    | String c s' =>
      if Ascii.eqb c newline then (String c EmptyString, s', false)
      else
        let '(chunk, rest, hit) := fgets_chunk n s' in
        (String c chunk, rest, hit)
    end
  end.

(** [fgets(buf, 255, f)]: the new content of the buffer, [None] for the
    null pointer returned at the end of the file, and the file after the
    call. *)
Definition fgets (f : FILE) : option string * FILE :=
  match unread f with
  | EmptyString => (None, mkFILE EmptyString true)
  | _ =>
    let '(chunk, rest, hit) := fgets_chunk 254 (unread f) in
    (Some chunk, mkFILE rest (eof f || hit))
  end.

(** [f'] is [f] after some more bytes were read. *)
Definition advances (f f' : FILE) : Prop :=
  ∃ s, unread f = s +:+ unread f'.

End CLibrary.

(** ** The built-in reader of the snapshot *)

Section Reader.
Context {ext : Externals} {daemon : Daemon}.
Local Open Scope string_scope.
Local Open Scope Z_scope.

(** What [time(NULL)] returns while the snapshot is read; the constructors
    of the assignments and leases read the clock. *)
Variable now : Z.

(** [if ((x = strstr(buf, name))) v = atoi(x + off);], with the value [v]
    had before. *)
Definition attr (buf name : string) (off : nat) (v : Z) : res Z :=
  match strstr buf name with
  | Some x => s ← str_at buf (x + off); mret (atoi s)
  | None => mret v
  end.

(** The address between the first [>] of the buffer and the closing tag:
    the closing tag, when there is one, is overwritten with a NUL byte and
    the address object is built from the text behind the [>].  No address
    object is built for a buffer without [>]. *)
Definition parse_body (buf closing : string)
    : res (option TIPv6Addr * string) :=
  match strstr buf ">" with
  | Some x =>
    x ← strstr_at buf x closing;
    let buf := match x with Some x => poke0 buf x | None => buf end in
    match strstr buf ">" with
    | Some y => s ← str_at buf (y + 1); mret (Some (new_TIPv6Addr s), buf)
    | None => Undefined
    end
  | None => mret (None, buf)
  end.

(** [parseAddrAddr]: the lease, null when the line gives none, and the
    buffer after the call. *)
Definition parseAddrAddr (buf : string) (pd : bool)
    : res (option TAddrAddr * string) :=
  let prefix := CLIENT_DEFAULT_PREFIX_LENGTH in
  if found (strstr buf "<AddrAddr") || found (strstr buf "<AddrPrefix") then
    timestamp ← to_uint32 <$> attr buf "timestamp" 11 0;
    pref ← to_uint32 <$> attr buf "pref=" 6 0;
    valid ← to_uint32 <$> attr buf "valid" 7 0;
    prefix ← (if negb pd then attr buf "prefix=" 8 prefix
              else attr buf "length=" 8 prefix);
    '(addr, buf) ←
      parse_body buf (if negb pd then "</AddrAddr>" else "</AddrPrefix>");
    match addr with
    | Some addr =>
      if negb (timestamp =? 0) && negb (pref =? 0) && negb (valid =? 0)
         && negb pd
      then
        let addraddr := new_TAddrAddr now addr pref valid prefix in
        mret (Some (addr_setTimestamp timestamp addraddr), buf)
      else mret (None, buf)
    | None => mret (None, buf)
    end
  else mret (None, buf).

(** [parseAddrPrefix]. *)
Definition parseAddrPrefix (buf : string) (pd : bool)
    : res (option TAddrPrefix * string) :=
  if found (strstr buf "<AddrAddr") || found (strstr buf "<AddrPrefix") then
    timestamp ← to_ulong <$> attr buf "timestamp" 11 0;
    pref ← to_ulong <$> attr buf "pref=" 6 0;
    valid ← to_ulong <$> attr buf "valid" 7 0;
    length ← to_ulong <$> (if pd then attr buf "length=" 8 0
                           else attr buf "prefix=" 8 0);
    '(addr, buf) ←
      parse_body buf (if pd then "</AddrPrefix>" else "</AddrAddr>");
    match addr with
    | Some addr =>
      if negb (timestamp =? 0) && negb (pref =? 0) && negb (valid =? 0) && pd
      then
        let addraddr := new_TAddrPrefix now addr pref valid length in
        mret (Some (prefix_setTimestamp timestamp addraddr), buf)
      else mret (None, buf)
    | None => mret (None, buf)
    end
  else mret (None, buf).

(** The text of a [duid] line: the closing tag, when there is one, is
    overwritten with a NUL byte and the DUID is built from the text behind
    the first [>].  The code adds 1 to the pointer [strstr] returns without
    looking at it. *)
Definition parse_duid (buf : string) : res TDUID :=
  match strstr buf ">" with
  | None => Undefined
  | Some x =>
    x ← strstr_at buf (x + 1) "</duid>";
    let buf := match x with Some x => poke0 buf x | None => buf end in
    match strstr buf ">" with
    | None => Undefined
    | Some y => s ← str_at buf (y + 1); mret (TDUID_of_text s)
    end
  end.

(** The block of [parseAddrPD] for an [<AddrPrefix] line: the PD and the
    buffer after it.  The lease handed to [addPrefix] is the object
    [setTentative] is then called on. *)
Definition parseAddrPD_prefix (ptrpd : option TAddrIA) (buf : string)
    : res (option TAddrIA * string) :=
  '(pr, buf) ← parseAddrPrefix buf true;
  match ptrpd, pr with
  | Some pd, Some pr =>
    if verifyPrefix (prefix_Prefix pr)
    then
      mret (Some (IA_addPrefix_obj (prefix_setTentative ADDRSTATUS_NO pr) pd),
            buf)
    else mret (ptrpd, buf)
  | _, _ => mret (ptrpd, buf)
  end.

(** The loop of [parseAddrPD]; [ptrpd] is the PD built so far.  The
    arguments [t1], [t2] and [iaid] are [int]s, the constructor takes
    [unsigned long]s. *)
Fixpoint parseAddrPD_loop (fuel : nat) (f : FILE) (t1 t2 iaid : Z)
    (ifacename : string) (ifindex : Z) (unicast : option TIPv6Addr)
    (ptrpd : option TAddrIA) : res (option TAddrIA * FILE) :=
  match fuel with
  | O => OutOfFuel
  | S fuel =>
    if feof f then mret (IA_setTentative <$> ptrpd, f)
    else
      match fgets f with
      | (None, f) => mret (None, f)
      | (Some buf, f) =>
        if found (strstr buf "duid") then
          duid ← parse_duid buf;
          let ptrpd :=
            new_TAddrIA now ifacename ifindex IATYPE_PD None duid
              (to_ulong t1) (to_ulong t2) (to_ulong iaid) in
          let ptrpd := setState STATE_CONFIRMME ptrpd in
          parseAddrPD_loop fuel f t1 t2 iaid ifacename ifindex unicast
            (Some ptrpd)
        else
          '(ptrpd, buf) ←
            (if found (strstr buf "<AddrPrefix")
             then parseAddrPD_prefix ptrpd buf
             else mret (ptrpd, buf));
          if found (strstr buf "</AddrPD>")
          then mret (IA_setTentative <$> ptrpd, f)
          else
            parseAddrPD_loop fuel f t1 t2 iaid ifacename ifindex unicast ptrpd
      end
  end.

Definition parseAddrPD (fuel : nat) (f : FILE) (t1 t2 iaid : Z)
    (ifacename : string) (ifindex : Z) (unicast : option TIPv6Addr)
    : res (option TAddrIA * FILE) :=
  parseAddrPD_loop fuel f t1 t2 iaid ifacename ifindex unicast None.

(** The block of [parseAddrIA] for an [<AddrAddr] line. *)
Definition parseAddrIA_addr (ia : option TAddrIA) (buf : string)
    : res (option TAddrIA * string) :=
  '(addr, buf) ← parseAddrAddr buf false;
  match ia, addr with
  | Some ia', Some addr =>
    if verifyAddr (addr_Addr addr)
    then
      mret (Some (IA_addAddr (addr_setTentative ADDRSTATUS_NO addr) ia'), buf)
    else mret (ia, buf)
  | _, _ => mret (ia, buf)
  end.

(** The block of [parseAddrIA] for an [<fqdnDnsServer>] line. *)
Definition parseAddrIA_dns (ia : option TAddrIA) (buf : string)
    : res (option TAddrIA) :=
  match strstr buf ">" with
  | None => Undefined
  | Some beg =>
    let beg := (beg + 1)%nat in
    end_ ← strstr_at buf beg "</fqdnDnsServer>";
    match end_ with
    | None => mret ia
    | Some end_ =>
      let buf := poke0 buf end_ in
      s ← str_at buf beg;
      let dns := new_TIPv6Addr s in
      mret (setFQDNDnsServer dns <$> ia)
    end
  end.

(** The block of [parseAddrIA] for an [<fqdn ] line. *)
Definition parseAddrIA_fqdn (ia : option TAddrIA) (buf : string)
    : res (option TAddrIA) :=
  match strstr buf ("duid=" +:+ String dquote EmptyString) with
  | None => Undefined
  | Some beg =>
    let beg := (beg + 6)%nat in
    end_ ← strstr_at buf beg (String dquote EmptyString);
    match end_ with
    | None => Undefined
    | Some end_ =>
      let duid := TDUID_of_text (range buf beg end_) in
      match strstr buf ("used=" +:+ String dquote EmptyString) with
      | None => Undefined
      | Some beg =>
        let beg := (beg + 6)%nat in
        end_ ← strstr_at buf beg (String dquote EmptyString);
        match end_ with
        | None => Undefined
        | Some end_ =>
          let used := bool_decide (range buf beg end_ = "TRUE") in
          match strstr buf ">" with
          | None => Undefined
          | Some beg =>
            let beg := (beg + 1)%nat in
            end_ ← strstr_at buf beg "<";
            match end_ with
            | None => mret ia
            | Some end_ =>
              let fqdn := mkFQDN duid (range buf beg end_) used in
              mret (setFQDN fqdn <$> ia)
            end
          end
        end
      end
    end
  end.

(** The loop of [parseAddrIA]; [ia] is the IA built so far. *)
Fixpoint parseAddrIA_loop (fuel : nat) (f : FILE) (t1 t2 iaid : Z)
    (ifacename : string) (ifindex : Z) (ia : option TAddrIA)
    : res (option TAddrIA * FILE) :=
  match fuel with
  | O => OutOfFuel
  | S fuel =>
    if feof f then mret (IA_setTentative <$> ia, f)
    else
      match fgets f with
      | (None, f) => mret (None, f)
      | (Some buf, f) =>
        if found (strstr buf "<duid") then
          duid ← parse_duid buf;
          let ia :=
            new_TAddrIA now ifacename ifindex IATYPE_IA None duid
              (to_ulong t1) (to_ulong t2) (to_ulong iaid) in
          parseAddrIA_loop fuel f t1 t2 iaid ifacename ifindex (Some ia)
        else if found (strstr buf "<fqdnDnsServer>") then
          ia ← parseAddrIA_dns ia buf;
          parseAddrIA_loop fuel f t1 t2 iaid ifacename ifindex ia
        else if found (strstr buf "<fqdn ") then
          ia ← parseAddrIA_fqdn ia buf;
          parseAddrIA_loop fuel f t1 t2 iaid ifacename ifindex ia
        else
          '(ia, buf) ←
            (if found (strstr buf "<AddrAddr")
             then parseAddrIA_addr ia buf
             else mret (ia, buf));
          if found (strstr buf "</AddrIA>")
          then mret (IA_setTentative <$> ia, f)
          else parseAddrIA_loop fuel f t1 t2 iaid ifacename ifindex ia
      end
  end.

Definition parseAddrIA (fuel : nat) (f : FILE) (t1 t2 iaid : Z)
    (ifacename : string) (ifindex : Z) : res (option TAddrIA * FILE) :=
  parseAddrIA_loop fuel f t1 t2 iaid ifacename ifindex None.

(** [parseAddrTA]: skips the block; the result is always null. *)
Fixpoint parseAddrTA (fuel : nat) (f : FILE) : res (option TAddrIA * FILE) :=
  match fuel with
  | O => OutOfFuel
  | S fuel =>
    if feof f then mret (None, f)
    else
      match fgets f with
      | (None, f) => mret (None, f)
      | (Some buf, f) =>
        if found (strstr buf "</AddrTA>") then mret (None, f)
        else parseAddrTA fuel f
      end
  end.

(** [if ((x = strstr(buf, "ifacename"))) { end = strstr(x + 11, quote); if
    (end) ifacename = string(x + 11, end); }], with [ifacename] empty
    before. *)
Definition attr_ifacename (buf : string) : res string :=
  match strstr buf "ifacename" with
  | Some x =>
    end_ ← strstr_at buf (x + 11) (String dquote EmptyString);
    match end_ with
    | Some end_ => mret (range buf (x + 11) end_)
    | None => mret EmptyString
    end
  | None => mret EmptyString
  end.

(** The [unicast] attribute of an [<AddrIA ] line. *)
Definition attr_unicast_IA (buf : string) (unicast : option TIPv6Addr)
    : res (option TIPv6Addr) :=
  match strstr buf "unicast" with
  | Some x =>
    end_ ← strstr_at buf (x + 9) (String dquote EmptyString);
    match end_ with
    | Some end_ =>
      let uni := range buf (x + 9) end_ in
      if negb (bool_decide (String.length uni = 0%nat))
      then mret (Some (new_TIPv6Addr uni))
      else mret unicast
    | None => mret unicast
    end
  | None => mret unicast
  end.

(** The [unicast] attribute of an [<AddrPD ] line.  The text is taken
    behind the first [=] of the line, whichever attribute that belongs to,
    and the buffer is cut one byte before the first blank behind it.  The
    code subtracts 1 from the pointer [strstr] returns without looking at
    it. *)
Definition attr_unicast_PD (buf : string) (unicast : option TIPv6Addr)
    : res (string * option TIPv6Addr) :=
  if found (strstr buf "unicast") then
    match strstr buf "=" with
    | None => Undefined
    | Some x =>
      x ← strstr_at buf (x + 2) " ";
      match x with
      | None => Undefined
      | Some x =>
        let buf := poke0 buf (x - 1) in
        match strstr buf "=" with
        | None => Undefined
        | Some y =>
          s ← str_at buf (y + 2); mret (buf, Some (new_TIPv6Addr s))
        end
      end
    end
  else mret (buf, unicast).

(** The block of [parseAddrClient] for a [<ReconfigureKey] line: the buffer
    and the key after it. *)
Definition parseAddrClient_key (buf : string) : res (string * list Z) :=
  match strstr buf ">" with
  | None => Undefined
  | Some x =>
    let x := (x + 1)%nat in
    end_ ← strstr_at buf x "</ReconfigureKey>";
    let buf := match end_ with Some e => poke0 buf e | None => buf end in
    s ← str_at buf x;
    mret (buf, textToHex s)
  end.

(** The block of [parseAddrClient] for an [<AddrIA ] line.  The first
    component tells whether the block ends in [continue]; then the client,
    the pending unicast address and the file after the block. *)
Definition parseAddrClient_IA (fuel : nat) (f : FILE) (buf : string)
    (clnt : option TAddrClient) (unicast : option TIPv6Addr)
    : res (bool * option TAddrClient * option TIPv6Addr * FILE) :=
  t1 ← attr buf "T1" 4 0;
  t2 ← attr buf "T2" 4 0;
  iaid ← attr buf "IAID" 6 0;
  ifindex ← attr buf "iface=" 7 0;
  ifacename ← attr_ifacename buf;
  unicast ← attr_unicast_IA buf unicast;
  '(ia, f) ← parseAddrIA fuel f t1 t2 iaid ifacename ifindex;
  match ia, clnt with
  | Some ia, Some c =>
    if negb (bool_decide (countAddr ia = 0%nat)) then
      (* we don't want empty IAs here *)
      let ia :=
        match unicast with
        | Some u => setUnicast (Some u) ia
        | None => ia
        end in
      mret (true, Some (addIA ia c), None, f)
    else mret (true, clnt, unicast, f)
  | Some _, None => mret (true, clnt, unicast, f)
  | None, _ => mret (false, clnt, unicast, f)
  end.

(** The block of [parseAddrClient] for an [<AddrPD ] line; the buffer comes
    back as well, the block may have cut it. *)
Definition parseAddrClient_PD (fuel : nat) (f : FILE) (buf : string)
    (clnt : option TAddrClient) (unicast : option TIPv6Addr)
    : res (bool * string * option TAddrClient * option TIPv6Addr * FILE) :=
  t1 ← attr buf "T1" 4 0;
  t2 ← attr buf "T2" 4 0;
  pdid ← attr buf "IAID" 6 0;
  ifindex ← attr buf "iface=" 7 0;
  '(buf, unicast) ← attr_unicast_PD buf unicast;
  ifacename ← attr_ifacename buf;
  '(ptrpd, f) ← parseAddrPD fuel f t1 t2 pdid ifacename ifindex unicast;
  match ptrpd, clnt with
  | Some ptrpd, Some c =>
    let ptrpd' :=
      match unicast with
      | Some u => setUnicast (Some u) ptrpd
      | None => ptrpd
      end in
    let c :=
      if negb (bool_decide (countPrefix ptrpd = 0%nat))
      then addPD ptrpd' c else c in
    mret (false, buf, Some c, None, f)
  | Some _, None => mret (true, buf, clnt, unicast, f)
  | None, _ => mret (false, buf, clnt, unicast, f)
  end.

(** What [parseAddrClient] returns once its loop is left. *)
Definition parseAddrClient_end (clnt : option TAddrClient)
    (reconfKey : list Z) : option TAddrClient :=
  setReconfKey reconfKey <$> clnt.

(** The loop of [parseAddrClient]; [clnt], [unicast] and [reconfKey] are
    the variables of the function that live across the rounds. *)
Fixpoint parseAddrClient_loop (fuel : nat) (f : FILE)
    (clnt : option TAddrClient) (unicast : option TIPv6Addr)
    (reconfKey : list Z) : res (option TAddrClient * FILE) :=
  match fuel with
  | O => OutOfFuel
  | S fuel =>
    if feof f then mret (parseAddrClient_end clnt reconfKey, f)
    else
      match fgets f with
      | (None, f) => mret (None, f)
      | (Some buf, f) =>
        if found (strstr buf "<duid") then
          duid ← parse_duid buf;
          parseAddrClient_loop fuel f (Some (new_TAddrClient duid)) unicast
            reconfKey
        else
          '(buf, reconfKey) ←
            (if found (strstr buf "<ReconfigureKey")
             then parseAddrClient_key buf
             else mret (buf, reconfKey));
          '(continue, clnt, unicast, f) ←
            (if found (strstr buf "<AddrIA ")
             then parseAddrClient_IA fuel f buf clnt unicast
             else mret (false, clnt, unicast, f));
          if continue : bool
          then parseAddrClient_loop fuel f clnt unicast reconfKey
          else
            '(_, f) ←
              (if found (strstr buf "<AddrTA ")
               then parseAddrTA fuel f
               else mret (None, f));
            '(continue, buf, clnt, unicast, f) ←
              (if found (strstr buf "<AddrPD ")
               then parseAddrClient_PD fuel f buf clnt unicast
               else mret (false, buf, clnt, unicast, f));
            if continue : bool
            then parseAddrClient_loop fuel f clnt unicast reconfKey
            else if found (strstr buf "</AddrClient>")
            then mret (parseAddrClient_end clnt reconfKey, f)
            else parseAddrClient_loop fuel f clnt unicast reconfKey
      end
  end.

Definition parseAddrClient (fuel : nat) (f : FILE)
    : res (option TAddrClient * FILE) :=
  parseAddrClient_loop fuel f None None [].

(** The loop of [xmlLoadBuiltIn]: the status the function returns and the
    manager after it.  [clnt] is the client the last block gave. *)
Fixpoint xmlLoadBuiltIn_loop (fuel : nat) (f : FILE) (m : TAddrMgr)
    (AddrMgrTag : bool) (clnt : option TAddrClient)
    : res (bool * TAddrMgr) :=
  match fuel with
  | O => OutOfFuel
  | S fuel =>
    if feof f then mret (bool_decide (is_Some clnt), m)
    else
      match fgets f with
      | (None, f) => mret (false, m)
      | (Some buf, f) =>
        if found (strstr buf "<AddrMgr>") then
          xmlLoadBuiltIn_loop fuel f m true clnt
        else if found (strstr buf "<timestamp>") then
          xmlLoadBuiltIn_loop fuel f m AddrMgrTag clnt
        else
          match strstr buf "<replayDetection>" with
          | Some x =>
            s ← str_at buf (x + 17);
            xmlLoadBuiltIn_loop fuel f
              (setReplayDetectionValue (extract_uint64 s) m) AddrMgrTag clnt
          | None =>
            '(continue, m, clnt, f) ←
              (if AddrMgrTag && found (strstr buf "<AddrClient") then
                 '(clnt, f) ← parseAddrClient fuel f;
                 match clnt with
                 | Some c =>
                   if (0 <? countIA c + countTA c + countPD c)%nat
                   then mret (true, addClient c m, clnt, f)
                   else mret (true, m, clnt, f)
                 | None => mret (false, m, clnt, f)
                 end
               else mret (false, m, clnt, f));
            if continue : bool
            then xmlLoadBuiltIn_loop fuel f m AddrMgrTag clnt
            else if found (strstr buf "</AddrMgr>")
            then mret (bool_decide (is_Some clnt), m)
            else xmlLoadBuiltIn_loop fuel f m AddrMgrTag clnt
          end
      end
  end.

(** [xmlLoadBuiltIn] on a file system in which [xmlFile] has the content
    [file], or does not exist ([None]).  Every round of every loop of the
    reader takes at least one byte from the file, so the length of the file
    bounds the number of rounds. *)
Definition xmlLoadBuiltIn (file : option string) (m : TAddrMgr)
    : res (bool * TAddrMgr) :=
  match file with
  | None => mret (false, m)
  | Some content =>
    xmlLoadBuiltIn_loop (S (String.length content)) (fopen content) m false
      None
  end.

(** [dbLoad]: the status of the reader is ignored. *)
Definition dbLoad (file : option string) (m : TAddrMgr) : res TAddrMgr :=
  snd <$> xmlLoadBuiltIn file m.

(** What the reader leaves in an assignment it built: a PD is in state
    confirm-me, an IA in the state its constructor gave it, and the leases
    of both are marked not tentative. *)
Definition loaded_PD (pd : TAddrIA) : Prop :=
  State pd = STATE_CONFIRMME
  ∧ Forall (λ p, prefix_Tentative p = ADDRSTATUS_NO) (PrefixLst pd).

Definition loaded_IA (ia : TAddrIA) : Prop :=
  State ia = TAddrIA_initial_State
  ∧ Forall (λ a, addr_Tentative a = ADDRSTATUS_NO) (AddrLst ia).

Definition loaded_client (c : TAddrClient) : Prop :=
  Forall loaded_IA (IAsLst c) ∧ Forall loaded_PD (PDLst c).

End Reader.

(** ** The writer of the snapshot *)

Section Writer.
Context {ext : Externals} {daemon : Daemon}.

(** [operator<<] of [TAddrMgr]; [now] is what [time(NULL)] returns. *)
Definition operator_lshift (now : Z) (x : TAddrMgr) : string :=
  "<AddrMgr>" +:+ endl
  +:+ "  <timestamp>" +:+ dec (to_uint32 now) +:+ "</timestamp>" +:+ endl
  +:+ "  <replayDetection>" +:+ dec (ReplayDetectionValue_ x)
  +:+ "</replayDetection>" +:+ endl
  +:+ print x
  +:+ String.concat EmptyString (print_client <$> ClntsLst x)
  +:+ "</AddrMgr>" +:+ endl.

(** What [operator<<] writes after the line of the counter: the part of
    the daemon, the clients and the closing tag. *)
Definition after_counter (x : TAddrMgr) : string :=
  print x
  +:+ String.concat EmptyString (print_client <$> ClntsLst x)
  +:+ "</AddrMgr>" +:+ endl.

(** [dump]: the content of [XmlFile] after the call. *)
Definition dump (now : Z) (m : TAddrMgr) : string := operator_lshift now m.

End Writer.

(** ** A platform, a daemon and snapshots for the examples *)

Section Examples.
Local Open Scope string_scope.

(** The addresses of the examples, as a table; any other text is not an
    address. *)
Definition example_inet_pton6 (s : string) : option Z :=
  if String.eqb s "2001:db8::" then Some (536939960 * 2 ^ 96)%Z
  else if String.eqb s "2001:db8::1" then Some (536939960 * 2 ^ 96 + 1)%Z
  else None.

(** A DUID is identified with the bytes of its text. *)
Definition example_bytes (s : string) : list Z :=
  (λ c, Z.of_nat (nat_of_ascii c)) <$> list_ascii_of_string s.

Definition example_text (bytes : list Z) : string :=
  string_of_list_ascii ((λ b, ascii_of_nat (Z.to_nat b)) <$> bytes).

(** Assignments start in state not-configured; of a client only the DUID
    is written to the snapshot. *)
Definition example_platform : Externals := {|
  TAddrIA_initial_State := STATE_NOTCONFIGURED;
  CLIENT_DEFAULT_PREFIX_LENGTH := 64;
  inet_pton6 := example_inet_pton6;
  TDUID_of_text := λ s, mkDUID (example_bytes s);
  textToHex := example_bytes;
  print_client := λ c,
    "  <AddrClient>" +:+ endl
    +:+ "    <duid>" +:+ example_text (DUID_bytes (clnt_DUID c)) +:+ "</duid>"
    +:+ endl
    +:+ "  </AddrClient>" +:+ endl
|}.

(** A daemon that accepts every address and prefix and adds nothing to the
    snapshot. *)
Definition example_daemon : Daemon := {|
  verifyAddr := λ _, true;
  verifyPrefix := λ _, true;
  print := λ _, EmptyString
|}.

(** [name="value"]. *)
Definition example_attr (name value : string) : string :=
  name +:+ "=" +:+ String dquote value +:+ String dquote EmptyString.

(** An [<AddrAddr>] line whose body is not an address. *)
Definition example_bad_lease : string :=
  "      <AddrAddr " +:+ example_attr "timestamp" "900" +:+ " "
  +:+ example_attr "pref" "100" +:+ " " +:+ example_attr "valid" "200"
  +:+ " " +:+ example_attr "prefix" "64" +:+ ">not-an-address</AddrAddr>"
  +:+ endl.

(** A snapshot with one client that has one IA with one address and one PD
    with one prefix. *)
Definition example_snapshot : string :=
  "<AddrMgr>" +:+ endl
  +:+ "  <timestamp>1000</timestamp>" +:+ endl
  +:+ "  <replayDetection>77</replayDetection>" +:+ endl
  +:+ "  <AddrClient>" +:+ endl
  +:+ "    <duid>00:01:00:01</duid>" +:+ endl
  +:+ "    <AddrIA " +:+ example_attr "T1" "10" +:+ " "
  +:+ example_attr "T2" "20" +:+ " " +:+ example_attr "IAID" "5" +:+ " "
  +:+ example_attr "iface" "3" +:+ " " +:+ example_attr "ifacename" "eth0"
  +:+ ">" +:+ endl
  +:+ "      <duid>00:01:00:01</duid>" +:+ endl
  +:+ "      <AddrAddr " +:+ example_attr "timestamp" "900" +:+ " "
  +:+ example_attr "pref" "100" +:+ " " +:+ example_attr "valid" "200"
  +:+ " " +:+ example_attr "prefix" "64" +:+ ">2001:db8::1</AddrAddr>"
  +:+ endl
  +:+ "    </AddrIA>" +:+ endl
  +:+ "    <AddrPD " +:+ example_attr "T1" "10" +:+ " "
  +:+ example_attr "T2" "20" +:+ " " +:+ example_attr "IAID" "6" +:+ " "
  +:+ example_attr "iface" "3" +:+ " " +:+ example_attr "ifacename" "eth0"
  +:+ ">" +:+ endl
  +:+ "      <duid>00:01:00:01</duid>" +:+ endl
  +:+ "      <AddrPrefix " +:+ example_attr "timestamp" "900" +:+ " "
  +:+ example_attr "pref" "100" +:+ " " +:+ example_attr "valid" "200"
  +:+ " " +:+ example_attr "length" "48" +:+ ">2001:db8::</AddrPrefix>"
  +:+ endl
  +:+ "    </AddrPD>" +:+ endl
  +:+ "  </AddrClient>" +:+ endl
  +:+ "</AddrMgr>" +:+ endl.

(** A well-formed snapshot whose only client has no assignment. *)
Definition example_snapshot_empty_client : string :=
  "<AddrMgr>" +:+ endl
  +:+ "  <timestamp>1000</timestamp>" +:+ endl
  +:+ "  <replayDetection>77</replayDetection>" +:+ endl
  +:+ "  <AddrClient>" +:+ endl
  +:+ "    <duid>00:01:00:01</duid>" +:+ endl
  +:+ "  </AddrClient>" +:+ endl
  +:+ "</AddrMgr>" +:+ endl.

(** An assignment as [parseAddrIA] has it after the [<duid>] line. *)
Definition example_IA : TAddrIA :=
  new_TAddrIA (ext := example_platform) 5000 "eth0" 3 IATYPE_IA None
    (mkDUID (example_bytes "00:01:00:01")) 10 20 5.

(** The manager after the example snapshot was read into a new one, at a
    time when the clock shows 5000. *)
Definition example_loaded : TAddrMgr :=
  Eval vm_compute in
    match
      xmlLoadBuiltIn (ext := example_platform) (daemon := example_daemon) 5000
        (Some example_snapshot) (new_TAddrMgr EmptyString)
    with
    | Ret (_, m) => m
    | _ => new_TAddrMgr EmptyString
    end.

(** [example_IA] after [example_bad_lease] was read. *)
Definition example_IA_bad_lease : option TAddrIA :=
  Eval vm_compute in
    match
      parseAddrIA_addr (ext := example_platform) (daemon := example_daemon)
        5000 (Some example_IA) example_bad_lease
    with
    | Ret (ia, _) => ia
    | _ => None
    end.

(** [example_loaded] after two calls of [getNextReplayDetectionValue]. *)
Definition example_after_two_calls : TAddrMgr :=
  Eval vm_compute in (nextReplayDetectionValues 2 example_loaded).2.

(** The snapshot of [example_after_two_calls], written when the clock shows
    6000, read into a new manager when it shows 7000. *)
Definition example_reloaded : TAddrMgr :=
  Eval vm_compute in
    match
      xmlLoadBuiltIn (ext := example_platform) (daemon := example_daemon) 7000
        (Some (dump (ext := example_platform) (daemon := example_daemon) 6000
                 example_after_two_calls))
        (new_TAddrMgr EmptyString)
    with
    | Ret (_, m) => m
    | _ => new_TAddrMgr EmptyString
    end.

(** A manager whose counter has the last value of [uint64_t]. *)
Definition example_last_counter : TAddrMgr :=
  setReplayDetectionValue 18446744073709551615 (new_TAddrMgr EmptyString).

(** A new manager after a prefix was added for a client, when the clock
    shows 5000. *)
Definition example_after_addPrefix : TAddrMgr :=
  Eval vm_compute in
    (addPrefix (ext := example_platform) 5000 (new_TAddrMgr EmptyString)
       (mkDUID [0; 1; 0; 1]%Z) None "eth0" 3 6 10 20
       (Some (mkIPv6Addr (536939960 * 2 ^ 96))) 100 200 48 false).2.

End Examples.

(** ** The lookup by leased address *)

Section LeasedAddr.

(** Modelled from the spec: [TAddrIA::getAddr(addr)], missing with
    AddrIA.cpp: the first lease of the assignment with that address, null
    when there is none. *)
Definition IA_getAddr (ia : TAddrIA) (addr : TIPv6Addr) : option TAddrAddr :=
  snd <$> list_find (λ a, addr_Addr a = addr) (AddrLst ia).

(** The inner loop of [getClient(SPtr<TIPv6Addr>)]: whether an IA of the
    client (its TAs and PDs are not gone through) has a lease with the
    address. *)
Definition leased (leasedAddr : TIPv6Addr) (cli : TAddrClient) : bool :=
  existsb (λ ia, bool_decide (is_Some (IA_getAddr ia leasedAddr)))
    (IAsLst cli).

(** [getClient(SPtr<TIPv6Addr> leasedAddr)]. *)
Definition getClient_leasedAddr (m : TAddrMgr) (leasedAddr : TIPv6Addr)
    : option TAddrClient :=
  snd <$> list_find (λ cli, leased leasedAddr cli = true) (ClntsLst m).

End LeasedAddr.

(** ** Notions used by the properties of the registry and of the reader *)

Section Notions.
Context {ext : Externals} {daemon : Daemon}.
Local Open Scope Z_scope.

(** No two clients of the manager have the same DUID. *)
Definition unique_DUIDs (m : TAddrMgr) : Prop :=
  NoDup (clnt_DUID <$> ClntsLst m).

(** The prefixes delegated to a client, over its PDs, and the prefixes the
    manager holds, over its clients; both in the order of the lists. *)
Definition delegated (c : TAddrClient) : list TIPv6Addr :=
  pd ← PDLst c; prefix_Prefix <$> PrefixLst pd.

Definition used_prefixes (m : TAddrMgr) : list TIPv6Addr :=
  c ← ClntsLst m; delegated c.

(** An assignment, and a client, with the interface name and index blanked:
    what is left is what [updateInterfacesInfo] has no business with. *)
Definition forget_interface (ia : TAddrIA) : TAddrIA :=
  setIfindex 0 (setIfacename EmptyString ia).

Definition forget_interfaces (c : TAddrClient) : TAddrClient :=
  setPDLst (forget_interface <$> PDLst c)
    (setTALst (forget_interface <$> TALst c)
       (setIAsLst (forget_interface <$> IAsLst c) c)).

(** What the reconciliation of the interfaces is to bring about for one
    assignment.  [same_but_interface ia ia']: [ia'] has every field of [ia]
    but, possibly, the interface name and index.  [interface_known]: the
    index of an assignment without name has a name in [indexToName]; the
    name of an assignment with a name has an index in [nameToIndex].
    [interface_fixed ia ia']: [ia'] is [ia] with, when [ia] has no name, the
    name [indexToName] gives for its index, and, when it has one, the index
    [nameToIndex] gives for its name. *)
Definition same_but_interface (ia ia' : TAddrIA) : Prop :=
  IAID ia' = IAID ia ∧ T1 ia' = T1 ia ∧ T2 ia' = T2 ia
  ∧ State ia' = State ia ∧ Tentative ia' = Tentative ia
  ∧ Timestamp ia' = Timestamp ia ∧ Type_ ia' = Type_ ia
  ∧ DUID ia' = DUID ia ∧ Unicast ia' = Unicast ia
  ∧ FQDNDnsServer ia' = FQDNDnsServer ia ∧ FQDN ia' = FQDN ia
  ∧ AddrLst ia' = AddrLst ia ∧ PrefixLst ia' = PrefixLst ia.

Definition interface_known (nameToIndex : gmap string Z)
    (indexToName : gmap Z string) (ia : TAddrIA) : Prop :=
  if bool_decide (Ifacename ia = EmptyString)
  then is_Some (indexToName !! Ifindex ia)
  else is_Some (nameToIndex !! Ifacename ia).

Definition interface_fixed (nameToIndex : gmap string Z)
    (indexToName : gmap Z string) (ia ia' : TAddrIA) : Prop :=
  same_but_interface ia ia'
  ∧ if bool_decide (Ifacename ia = EmptyString)
    then indexToName !! Ifindex ia = Some (Ifacename ia')
         ∧ Ifindex ia' = Ifindex ia
    else nameToIndex !! Ifacename ia = Some (Ifindex ia')
         ∧ Ifacename ia' = Ifacename ia.

(** The two mappings agree: an index that has a name other than the empty
    one is the index of that name. *)
Definition mappings_agree (nameToIndex : gmap string Z)
    (indexToName : gmap Z string) : Prop :=
  ∀ (i : Z) (name : string),
    indexToName !! i = Some name → name ≠ EmptyString →
    nameToIndex !! name = Some i.

(** An assignment is reconciled with the mappings: it has a name and the
    index of that name, or it has no name and its index is one whose name
    is empty. *)
Definition reconciled (nameToIndex : gmap string Z)
    (indexToName : gmap Z string) (ia : TAddrIA) : Prop :=
  if bool_decide (Ifacename ia = EmptyString)
  then indexToName !! Ifindex ia = Some EmptyString
  else nameToIndex !! Ifacename ia = Some (Ifindex ia).

(** A lease as the reader keeps it: timestamp and lifetimes are not zero
    and fit their C types, and the hook of the daemon accepted the
    address. *)
Definition kept_addr (a : TAddrAddr) : Prop :=
  0 < addr_Timestamp a < 2 ^ 32
  ∧ 0 < addr_Pref a < 2 ^ 32
  ∧ 0 < addr_Valid a < 2 ^ 32
  ∧ verifyAddr (addr_Addr a) = true.

Definition kept_prefix (p : TAddrPrefix) : Prop :=
  0 < prefix_Timestamp p < 2 ^ 64
  ∧ 0 < prefix_Pref p < 2 ^ 64
  ∧ 0 < prefix_Valid p < 2 ^ 64
  ∧ verifyPrefix (prefix_Prefix p) = true.

(** An IA and a PD while the reader builds them. *)
Definition parsed_IA (ia : TAddrIA) : Prop :=
  Type_ ia = IATYPE_IA ∧ PrefixLst ia = [] ∧ Forall kept_addr (AddrLst ia).

Definition parsed_PD (pd : TAddrIA) : Prop :=
  Type_ pd = IATYPE_PD ∧ AddrLst pd = [] ∧ Forall kept_prefix (PrefixLst pd).

(** A client while the reader builds it: no TA, and the IAs and PDs it was
    given have leases.  A client the reader hands to the manager has an IA
    or a PD as well. *)
Definition parsed_client (c : TAddrClient) : Prop :=
  TALst c = []
  ∧ Forall (λ ia, parsed_IA ia ∧ AddrLst ia ≠ []) (IAsLst c)
  ∧ Forall (λ pd, parsed_PD pd ∧ PrefixLst pd ≠ []) (PDLst c).

Definition kept_client (c : TAddrClient) : Prop :=
  parsed_client c ∧ (IAsLst c ≠ [] ∨ PDLst c ≠ []).

End Notions.

(** ** The constructor *)

Section Constructor.
Context {ext : Externals}.

(** [TAddrMgr::TAddrMgr(xmlFile, loadfile)].  [file] is the content of the
    file named [xmlFile], if there is one; [now] is what the clock shows.
    [DeleteEmptyClient] is set last: while the file is loaded it holds
    [uninitialized].  The file is loaded while the object under
    construction is a [TAddrMgr] and not yet an object of the class a
    daemon derives from it: the calls of [verifyAddr] and [verifyPrefix]
    the reader makes reach the methods of [TAddrMgr] itself, [base], and
    not the ones a daemon overrides them with. *)
Definition TAddrMgr_ctor (base : Daemon) (now : Z) (file : option string)
    (xmlFile : string) (loadfile : bool) (uninitialized : bool)
    : res TAddrMgr :=
  let this := mkAddrMgr [] 0 false xmlFile uninitialized in
  this ← (if loadfile then dbLoad (daemon := base) now file this
          else mret this);
  mret (mkAddrMgr (ClntsLst this) (ReplayDetectionValue_ this) (IsDone this)
          (XmlFile this) true).

End Constructor.

(** ** More examples *)

Section MoreExamples.
Local Open Scope string_scope.

(** The DUID and the prefix of [example_after_addPrefix], and another
    DUID. *)
Definition example_DUID : TDUID := mkDUID [0; 1; 0; 1]%Z.
Definition example_other_DUID : TDUID := mkDUID [0; 2]%Z.
Definition example_prefix : TIPv6Addr := mkIPv6Addr (536939960 * 2 ^ 96).
Definition example_other_prefix : TIPv6Addr :=
  mkIPv6Addr (536939960 * 2 ^ 96 + 2 ^ 80).

(** A client block in a file that has no [<AddrMgr>] line. *)
Definition example_snapshot_no_tag : string :=
  "  <AddrClient>" +:+ endl
  +:+ "    <duid>00:01:00:01</duid>" +:+ endl
  +:+ "    <AddrIA " +:+ example_attr "T1" "10" +:+ " "
  +:+ example_attr "T2" "20" +:+ " " +:+ example_attr "IAID" "5" +:+ " "
  +:+ example_attr "iface" "3" +:+ " " +:+ example_attr "ifacename" "eth0"
  +:+ ">" +:+ endl
  +:+ "      <duid>00:01:00:01</duid>" +:+ endl
  +:+ "      <AddrAddr " +:+ example_attr "timestamp" "900" +:+ " "
  +:+ example_attr "pref" "100" +:+ " " +:+ example_attr "valid" "200"
  +:+ " " +:+ example_attr "prefix" "64" +:+ ">2001:db8::1</AddrAddr>"
  +:+ endl
  +:+ "    </AddrIA>" +:+ endl
  +:+ "  </AddrClient>" +:+ endl.

(** A snapshot whose client block has no [<duid>] line. *)
Definition example_snapshot_no_duid : string :=
  "<AddrMgr>" +:+ endl
  +:+ "  <timestamp>1000</timestamp>" +:+ endl
  +:+ "  <replayDetection>77</replayDetection>" +:+ endl
  +:+ "  <AddrClient>" +:+ endl
  +:+ "    <AddrPD " +:+ example_attr "T1" "10" +:+ " "
  +:+ example_attr "T2" "20" +:+ " " +:+ example_attr "IAID" "6" +:+ " "
  +:+ example_attr "iface" "3" +:+ " " +:+ example_attr "ifacename" "eth0"
  +:+ ">" +:+ endl
  +:+ "      <AddrPrefix " +:+ example_attr "timestamp" "900" +:+ " "
  +:+ example_attr "pref" "100" +:+ " " +:+ example_attr "valid" "200"
  +:+ " " +:+ example_attr "length" "48" +:+ ">2001:db8::</AddrPrefix>"
  +:+ endl
  +:+ "    </AddrPD>" +:+ endl
  +:+ "  </AddrClient>" +:+ endl
  +:+ "</AddrMgr>" +:+ endl.

(** A daemon that accepts no address and no prefix. *)
Definition example_strict_daemon : Daemon := {|
  verifyAddr := λ _, false;
  verifyPrefix := λ _, false;
  print := λ _, EmptyString
|}.

(** The mappings of a system with one interface, and a manager with one
    client whose IA is a record of old: index 7 and no name. *)
Definition example_nameToIndex : gmap string Z := {[ "eth0" := 7%Z ]}.
Definition example_indexToName : gmap Z string := {[ 7%Z := "eth0" ]}.

Definition example_old_record : TAddrMgr :=
  addClient
    (addIA (new_TAddrIA (ext := example_platform) 5000 EmptyString 7 IATYPE_IA
              None example_DUID 10 20 5)
       (new_TAddrClient example_DUID))
    (new_TAddrMgr EmptyString).

Definition example_named_record : TAddrMgr :=
  addClient
    (addIA (new_TAddrIA (ext := example_platform) 5000 "eth0" 7 IATYPE_IA
              None example_DUID 10 20 5)
       (new_TAddrClient example_DUID))
    (new_TAddrMgr EmptyString).

End MoreExamples.

(** * Properties *)

(** ** Searching and updating lists *)

Section ListFacts.
Context {A : Type} (P : A → Prop) `{!∀ x, Decision (P x)}.

Lemma list_find_store (l : list A) i x y :
  list_find P l = Some (i, x) → P y →
  list_find P (<[i:=y]> l) = Some (i, y).
Proof.
  intros (Hl & HP & Hleast)%list_find_Some Hy.
  apply list_find_insert_Some. right; left.
  split_and!; eauto using lookup_lt_Some.
Qed.

Lemma list_find_snoc (l : list A) y :
  list_find P l = None → P y →
  list_find P (l ++ [y]) = Some (length l, y).
Proof.
  intros Hl Hy. rewrite list_find_app_r by done.
  simpl. by rewrite decide_True.
Qed.

Lemma list_find_store_snoc (l : list A) y z :
  list_find P l = None → P z →
  list_find P (<[length l := z]> (l ++ [y])) = Some (length l, z).
Proof.
  intros Hl Hz.
  replace (<[length l := z]> (l ++ [y])) with (l ++ [z]).
  - by apply list_find_snoc.
  - rewrite insert_app_r_alt by lia. by rewrite Nat.sub_diag.
Qed.

Lemma list_find_same (l : list A) i x :
  list_find P l = Some (i, x) → <[i:=x]> l = l.
Proof. intros (Hl & _)%list_find_Some. by apply list_insert_id. Qed.

Lemma delete_store (l : list A) i x : delete i (<[i:=x]> l) = delete i l.
Proof.
  revert i. induction l as [|y l IH]; intros [|i]; simpl; [done..|].
  by rewrite IH.
Qed.

Lemma length_zero_nil (l : list A) : length l = 0%nat ↔ l = [].
Proof. split; [apply nil_length_inv|by intros ->]. Qed.

End ListFacts.

Section ManagerFacts.
Context {ext : Externals}.

Lemma findPD_IAID (c : TAddrClient) (iaid : Z) j pd :
  findPD c iaid = Some (j, pd) → IAID pd = iaid.
Proof. by intros (_ & ? & _)%list_find_Some. Qed.

Lemma findClient_DUID (m : TAddrMgr) (duid : TDUID) i c :
  findClient m duid = Some (i, c) → clnt_DUID c = duid.
Proof. by intros (_ & ? & _)%list_find_Some. Qed.

Lemma findPrefix_Prefix (pd : TAddrIA) (p : TIPv6Addr) k l :
  findPrefix pd p = Some (k, l) → prefix_Prefix l = p.
Proof. by intros (_ & ? & _)%list_find_Some. Qed.

(** [addPrefix] on the client object, for a prefix that is not null. *)
Lemma addPrefix_client_spec (now : Z) (c : TAddrClient) (duid : TDUID)
    (addr : option TIPv6Addr) (ifname : string) (ifindex iaid t1 t2 : Z)
    (p : TIPv6Addr) (pref valid len : Z) (quiet : bool) :
  ∃ r c',
    addPrefix_client now (Some c) duid addr ifname ifindex iaid t1 t2
      (Some p) pref valid len quiet = (r, Some c')
    ∧ clnt_DUID c' = clnt_DUID c
    ∧ ∃ j pd', findPD c' iaid = Some (j, pd')
        ∧ T1 pd' = t1 ∧ T2 pd' = t2
        ∧ match snd <$> findPD c iaid with
          | None =>
            State pd' = STATE_CONFIGURED ∧ r = true
            ∧ PrefixLst pd' = [new_TAddrPrefix now p pref valid len]
          | Some pd =>
            match findPrefix pd p with
            | Some _ => r = false ∧ PrefixLst pd' = PrefixLst pd
            | None =>
              r = true
              ∧ PrefixLst pd'
                = PrefixLst pd ++ [new_TAddrPrefix now p pref valid len]
            end
          end.
Proof.
  unfold addPrefix_client.
  destruct (findPD c iaid) as [[j pd]|] eqn:Hpd; simpl.
  - pose proof (findPD_IAID _ _ _ _ Hpd) as Hid.
    unfold findPrefix; simpl.
    destruct (list_find _ (PrefixLst pd)) as [[k l]|] eqn:Hl;
      (eexists _, _; split; [reflexivity|]; split; [reflexivity|]);
      eexists j, _; (split; [by eapply list_find_store|]); by simpl.
  - unfold findPrefix; simpl.
    eexists _, _; split; [reflexivity|]; split; [reflexivity|].
    eexists (length (PDLst c)), _.
    split; [by eapply list_find_store_snoc|]. by simpl.
Qed.

(** [addPrefix], the overload that is given the DUID: the client it leaves
    in the manager, and the PD and the leases of that client, by what was
    there before the call. *)
Lemma addPrefix_cases (now : Z) (m : TAddrMgr) (duid : TDUID)
    (addr : option TIPv6Addr) (ifname : string) (ifindex iaid t1 t2 : Z)
    (prefix : option TIPv6Addr) (pref valid len : Z) (quiet : bool) :
  let r := addPrefix now m duid addr ifname ifindex iaid t1 t2 prefix
             pref valid len quiet in
  (prefix = None → r.1 = false)
  ∧ ∃ c', getClient r.2 duid = Some c'
      ∧ (getClient m duid = None → ClntsLst r.2 = ClntsLst m ++ [c'])
      ∧ ∀ p, prefix = Some p →
          ∃ j pd', findPD c' iaid = Some (j, pd')
            ∧ T1 pd' = t1 ∧ T2 pd' = t2
            ∧ match getClient m duid ≫= λ c, snd <$> findPD c iaid with
              | None =>
                State pd' = STATE_CONFIGURED ∧ r.1 = true
                ∧ PrefixLst pd' = [new_TAddrPrefix now p pref valid len]
              | Some pd =>
                match findPrefix pd p with
                | Some _ => r.1 = false ∧ PrefixLst pd' = PrefixLst pd
                | None =>
                  r.1 = true
                  ∧ PrefixLst pd'
                    = PrefixLst pd ++ [new_TAddrPrefix now p pref valid len]
                end
              end.
Proof.
  intros r. subst r.
  split; [intros ->; unfold addPrefix; by destruct (findClient m duid) as [[??]|]|].
  unfold addPrefix, getClient.
  destruct (findClient m duid) as [[i c]|] eqn:Hc.
  - pose proof (findClient_DUID _ _ _ _ Hc) as Hd.
    destruct prefix as [p|].
    + destruct (addPrefix_client_spec now c duid addr ifname ifindex iaid t1 t2
                  p pref valid len quiet) as (r & c' & -> & Hd' & Hpd).
      exists c'; simpl. split.
      { unfold findClient, storeClient; simpl.
        erewrite list_find_store; [done..|]. congruence. }
      split; [done|]. by intros ? [= <-].
    + exists c; simpl. split.
      { unfold findClient, storeClient; simpl.
        erewrite list_find_store; done. }
      done.
  - destruct prefix as [p|].
    + destruct (addPrefix_client_spec now (new_TAddrClient duid) duid addr
                  ifname ifindex iaid t1 t2 p pref valid len quiet)
        as (r & c' & -> & Hd' & Hpd).
      exists c'; simpl. split.
      { unfold findClient, storeClient, addClient; simpl.
        erewrite list_find_store_snoc; done. }
      split.
      { intros _. rewrite insert_app_r_alt by lia.
        by rewrite Nat.sub_diag. }
      by intros ? [= <-].
    + exists (new_TAddrClient duid); simpl. split.
      { unfold findClient, storeClient, addClient; simpl.
        erewrite list_find_store_snoc; done. }
      split; [|done].
      intros _. rewrite insert_app_r_alt by lia.
      by rewrite Nat.sub_diag.
Qed.

(** C1.  [addPrefix]: if no client with the DUID exists one is created (at
    the end of the list); for a prefix that is not null, if that client has
    no PD with the IAID one is created in state configured; T1 and T2 of
    the PD are the arguments of the call, also for a PD that existed; the
    lease is appended to the PD and the call returns true, unless a lease
    with the same address is already in that PD, in which case the call
    returns false and the leases are as they were.  With a null prefix the
    call returns false, and so does the overload that takes the client when
    the client is null. *)
Theorem addPrefix_spec (now : Z) (m : TAddrMgr) (duid : TDUID)
    (addr : option TIPv6Addr) (ifname : string) (ifindex iaid t1 t2 : Z)
    (prefix : option TIPv6Addr) (pref valid len : Z) (quiet : bool) :
  let r := addPrefix now m duid addr ifname ifindex iaid t1 t2 prefix
             pref valid len quiet in
  addPrefix_client now None duid addr ifname ifindex iaid t1 t2 prefix
    pref valid len quiet = (false, None)
  ∧ (prefix = None → r.1 = false)
  ∧ ∃ c', getClient r.2 duid = Some c'
      ∧ (getClient m duid = None → ClntsLst r.2 = ClntsLst m ++ [c'])
      ∧ ∀ p, prefix = Some p →
          ∃ j pd', findPD c' iaid = Some (j, pd')
            ∧ T1 pd' = t1 ∧ T2 pd' = t2
            ∧ match getClient m duid ≫= λ c, snd <$> findPD c iaid with
              | None =>
                State pd' = STATE_CONFIGURED ∧ r.1 = true
                ∧ PrefixLst pd' = [new_TAddrPrefix now p pref valid len]
              | Some pd =>
                match findPrefix pd p with
                | Some _ => r.1 = false ∧ PrefixLst pd' = PrefixLst pd
                | None =>
                  r.1 = true
                  ∧ PrefixLst pd'
                    = PrefixLst pd ++ [new_TAddrPrefix now p pref valid len]
                end
              end.
Proof.
  intros r. split; [by destruct prefix|]. apply addPrefix_cases.
Qed.

Lemma setT1_same (pd : TAddrIA) : setT1 (T1 pd) pd = pd.
Proof. by destruct pd. Qed.

Lemma setT2_same (pd : TAddrIA) : setT2 (T2 pd) pd = pd.
Proof. by destruct pd. Qed.

Lemma storePD_same (c : TAddrClient) (iaid : Z) j pd :
  findPD c iaid = Some (j, pd) → storePD j pd c = c.
Proof.
  intros Hpd. unfold storePD. rewrite (list_find_same _ _ _ _ Hpd).
  by destruct c.
Qed.

Lemma storeClient_same (m : TAddrMgr) (duid : TDUID) i c :
  findClient m duid = Some (i, c) → storeClient i c m = m.
Proof.
  intros Hc. unfold storeClient. rewrite (list_find_same _ _ _ _ Hc).
  by destruct m.
Qed.

(** C9.  After a call of [addPrefix] that returned true, the same call
    again (whatever the clock shows by then) returns false and leaves the
    manager as it was. *)
Theorem addPrefix_again (now : Z) (m : TAddrMgr) (duid : TDUID)
    (addr : option TIPv6Addr) (ifname : string) (ifindex iaid t1 t2 : Z)
    (prefix : option TIPv6Addr) (pref valid len : Z) (quiet : bool)
    (m' : TAddrMgr) :
  addPrefix now m duid addr ifname ifindex iaid t1 t2 prefix pref valid len
    quiet = (true, m') →
  ∀ now' : Z,
    addPrefix now' m' duid addr ifname ifindex iaid t1 t2 prefix pref valid
      len quiet = (false, m').
Proof.
  intros Hfirst now'.
  pose proof (addPrefix_cases now m duid addr ifname ifindex iaid t1 t2 prefix
                pref valid len quiet) as (Hnull & c' & Hc' & _ & Hpd).
  rewrite Hfirst in Hnull, Hc', Hpd; simpl in Hnull, Hc', Hpd.
  destruct prefix as [p|]; [clear Hnull|by specialize (Hnull eq_refl)].
  destruct (Hpd p eq_refl) as (j & pd' & Hfind & Ht1 & Ht2 & Hcase).
  assert (is_Some (findPrefix pd' p)) as [[k l] Hl].
  { destruct (getClient m duid ≫= _) as [pd|].
    - destruct (findPrefix pd p) as [?|] eqn:Hold; [by destruct Hcase|].
      destruct Hcase as [_ Heq]. unfold findPrefix in *. rewrite Heq.
      erewrite list_find_snoc; by eauto.
    - destruct Hcase as (_ & _ & Heq). unfold findPrefix. rewrite Heq.
      simpl. by rewrite decide_True. }
  unfold getClient in Hc'.
  destruct (findClient m' duid) as [[i c'']|] eqn:Hi; simplify_eq/=.
  unfold addPrefix. rewrite Hi. unfold addPrefix_client. rewrite Hfind.
  rewrite setT1_same, setT2_same, Hl.
  by rewrite (storePD_same _ _ _ _ Hfind), (storeClient_same _ _ _ _ Hi).
Qed.

(** [delPrefix] when the client, the PD and the lease are there, with the
    lookups that [delPrefix], [delPD] and [delClient] repeat resolved. *)
Lemma delPrefix_found (m : TAddrMgr) (duid : TDUID) (iaid : Z)
    (p : TIPv6Addr) (quiet : bool) i c j pd k l :
  findClient m duid = Some (i, c) →
  findPD c iaid = Some (j, pd) →
  findPrefix pd p = Some (k, l) →
  delPrefix m duid iaid p quiet
  = (true,
     let pd' := setPrefixLst (delete k (PrefixLst pd)) pd in
     let c' :=
       if bool_decide (delete k (PrefixLst pd) = [])
       then setPDLst (delete j (PDLst c)) c else storePD j pd' c in
     setClntsLst
       (if bool_decide (IAsLst c' = []) && bool_decide (TALst c' = [])
           && bool_decide (PDLst c' = []) && DeleteEmptyClient m
        then delete i (ClntsLst m) else <[i := c']> (ClntsLst m))
       m).
Proof.
  intros Hc Hpd Hl. unfold delPrefix. rewrite Hc, Hpd, Hl.
  unfold IA_delPrefix. rewrite Hl. f_equal.
  set (pd' := setPrefixLst (delete k (PrefixLst pd)) pd).
  assert (findPD (storePD j pd' c) iaid = Some (j, pd')) as Hpd'.
  { unfold findPD, storePD; simpl. eapply list_find_store; [done|].
    simpl. by eapply findPD_IAID. }
  set (c' := if bool_decide (delete k (PrefixLst pd) = [])
             then setPDLst (delete j (PDLst c)) c else storePD j pd' c).
  assert ((if bool_decide (countPrefix pd' = 0%nat)
           then delPD iaid (storePD j pd' c) else storePD j pd' c) = c')
    as ->.
  { unfold c', countPrefix; simpl.
    rewrite (bool_decide_ext _ _ (length_zero_nil _)).
    case_bool_decide; [|done].
    unfold delPD. rewrite Hpd'. unfold storePD; simpl.
    by rewrite delete_store. }
  assert (clnt_DUID c' = duid) as Hd.
  { unfold c'. case_bool_decide; simpl; by eapply findClient_DUID. }
  assert (findClient (storeClient i c' m) duid = Some (i, c')) as Hc'.
  { unfold findClient, storeClient; simpl. by eapply list_find_store. }
  unfold countIA, countTA, countPD.
  rewrite !(bool_decide_ext _ _ (length_zero_nil _)).
  change (DeleteEmptyClient (storeClient i c' m)) with (DeleteEmptyClient m).
  destruct (_ && _ && _ && _); [|done].
  unfold delClient. rewrite Hc'. unfold storeClient; simpl.
  by rewrite delete_store.
Qed.


(** [updatePrefix] on the client object returns true exactly when the
    client and the prefix are not null, the client has a PD with the IAID
    and that PD a lease with the prefix. *)
Lemma updatePrefix_client_true (now : Z) (client : option TAddrClient)
    (duid : TDUID) (addr : option TIPv6Addr) (iface iaid t1 t2 : Z)
    (prefix : option TIPv6Addr) (pref valid len : Z) (quiet : bool) :
  (updatePrefix_client now client duid addr iface iaid t1 t2 prefix pref
     valid len quiet).1 = true
  ↔ ∃ c p pd l, client = Some c ∧ prefix = Some p
                ∧ snd <$> findPD c iaid = Some pd
                ∧ snd <$> findPrefix pd p = Some l.
Proof.
  unfold updatePrefix_client.
  destruct prefix as [p|];
    [|split; [by destruct client|by intros (?&?&?&?&?&?&_)]].
  destruct client as [c|]; [|split; [done|by intros (?&?&?&?&?&_)]].
  destruct (findPD c iaid) as [[j pd]|] eqn:Hpd;
    [|split; [done|intros (?&?&?&?&?&?&?&?); simplify_eq/=;
                    by rewrite Hpd in *]].
  unfold findPrefix at 1; simpl. fold (findPrefix pd p).
  destruct (findPrefix pd p) as [[k l]|] eqn:Hl; simpl.
  - split; [|done]. intros _. exists c, p, pd, l. by rewrite Hpd, Hl.
  - split; [done|]. intros (?&?&?&?&?&?&Hpd'&Hl'). simplify_eq/=.
    rewrite Hpd in Hpd'. simplify_eq/=. by rewrite Hl in Hl'.
Qed.

(** [updatePrefix] on the client object, for a PD and a lease that are
    there: the client after the call, its PD and the lease. *)
Lemma updatePrefix_client_found (now : Z) (c : TAddrClient) (duid : TDUID)
    (addr : option TIPv6Addr) (iface iaid t1 t2 : Z) (p : TIPv6Addr)
    (pref valid len : Z) (quiet : bool) (j k : nat) (pd : TAddrIA)
    (l : TAddrPrefix) :
  findPD c iaid = Some (j, pd) → findPrefix pd p = Some (k, l) →
  ∃ c' pd' l',
    updatePrefix_client now (Some c) duid addr iface iaid t1 t2 (Some p)
      pref valid len quiet = (true, Some c')
    ∧ clnt_DUID c' = clnt_DUID c
    ∧ findPD c' iaid = Some (j, pd')
    ∧ findPrefix pd' p = Some (k, l')
    ∧ prefix_Timestamp l' = now
    ∧ prefix_Pref l' = pref
    ∧ prefix_Valid l' = pref
    ∧ prefix_Prefix l' = prefix_Prefix l
    ∧ prefix_Length l' = prefix_Length l
    ∧ ∀ k', k' ≠ k → PrefixLst pd' !! k' = PrefixLst pd !! k'.
Proof.
  intros Hpd Hl.
  unfold updatePrefix_client. rewrite Hpd.
  unfold findPrefix at 1; simpl. fold (findPrefix pd p). rewrite Hl.
  pose proof (findPD_IAID _ _ _ _ Hpd) as Hid.
  pose proof (findPrefix_Prefix _ _ _ _ Hl) as Hp.
  eexists _, _, _. split; [reflexivity|]. split; [reflexivity|].
  split; [unfold findPD, storePD; simpl; by eapply list_find_store|].
  split; [unfold findPrefix; simpl; by eapply list_find_store|].
  split_and!; try done.
  intros k' Hk'. simpl. by rewrite list_lookup_insert_ne.
Qed.

(** C5.  [updatePrefix], the overload that takes the DUID, returns true
    exactly when a client has the DUID, that client a PD with the IAID and
    that PD a lease with the prefix.  The manager then holds, at the same
    places, the client, the PD and the lease, and the lease has the current
    time as timestamp, the argument [pref] as preferred lifetime and the
    same [pref], not [valid], as valid lifetime; its address and length and
    the other leases of the PD stay.  When no client has the DUID, or the
    client has no PD with the IAID, the call returns false and the manager
    is as it was.  The overload that takes the client returns true exactly
    when, besides, neither the client nor the prefix is null, and leaves
    the same lease in the client it is given. *)
Theorem updatePrefix_spec (now : Z) (m : TAddrMgr)
    (client : option TAddrClient) (duid : TDUID) (addr : option TIPv6Addr)
    (ifname : string) (iface iaid t1 t2 : Z) (prefix : option TIPv6Addr)
    (p : TIPv6Addr) (pref valid len : Z) (quiet : bool) :
  let r := updatePrefix now m duid addr ifname iface iaid t1 t2 p pref valid
             len quiet in
  let rc := updatePrefix_client now client duid addr iface iaid t1 t2 prefix
              pref valid len quiet in
  (r.1 = true ↔
     ∃ c pd l, getClient m duid = Some c
               ∧ snd <$> findPD c iaid = Some pd
               ∧ snd <$> findPrefix pd p = Some l)
  ∧ (∀ c j pd k l,
       getClient m duid = Some c →
       findPD c iaid = Some (j, pd) → findPrefix pd p = Some (k, l) →
       ∃ c' pd' l',
         r.1 = true
         ∧ getClient r.2 duid = Some c'
         ∧ length (ClntsLst r.2) = length (ClntsLst m)
         ∧ findPD c' iaid = Some (j, pd')
         ∧ findPrefix pd' p = Some (k, l')
         ∧ prefix_Timestamp l' = now
         ∧ prefix_Pref l' = pref
         ∧ prefix_Valid l' = pref
         ∧ prefix_Prefix l' = prefix_Prefix l
         ∧ prefix_Length l' = prefix_Length l
         ∧ ∀ k', k' ≠ k → PrefixLst pd' !! k' = PrefixLst pd !! k')
  ∧ (getClient m duid = None → r = (false, m))
  ∧ (∀ c, getClient m duid = Some c → findPD c iaid = None → r = (false, m))
  ∧ (rc.1 = true ↔
       ∃ c p pd l, client = Some c ∧ prefix = Some p
                   ∧ snd <$> findPD c iaid = Some pd
                   ∧ snd <$> findPrefix pd p = Some l)
  ∧ ∀ c p j pd k l,
      client = Some c → prefix = Some p →
      findPD c iaid = Some (j, pd) → findPrefix pd p = Some (k, l) →
      ∃ c' pd' l',
        rc = (true, Some c')
        ∧ findPD c' iaid = Some (j, pd')
        ∧ findPrefix pd' p = Some (k, l')
        ∧ prefix_Timestamp l' = now
        ∧ prefix_Pref l' = pref
        ∧ prefix_Valid l' = pref
        ∧ prefix_Prefix l' = prefix_Prefix l
        ∧ prefix_Length l' = prefix_Length l
        ∧ ∀ k', k' ≠ k → PrefixLst pd' !! k' = PrefixLst pd !! k'.
Proof.
  intros r rc. subst r rc.
  split_and!; [..|apply updatePrefix_client_true|].
  - unfold updatePrefix, getClient.
    destruct (findClient m duid) as [[i c]|] eqn:Hc;
      [|split; [done|by intros (?&?&?&?&_)]].
    pose proof (updatePrefix_client_true now (Some c) duid addr iface iaid
                  t1 t2 (Some p) pref valid len quiet) as Htrue.
    destruct (updatePrefix_client _ _ _ _ _ _ _ _ _ _ _ _ _) as [b [c'|]];
      simpl in *.
    + rewrite Htrue. split.
      * intros (? & ? & pd & l & [= <-] & [= <-] & ? & ?). by exists c, pd, l.
      * intros (? & pd & l & [= <-] & ? & ?). by exists c, p, pd, l.
    + rewrite Htrue. split.
      * intros (? & ? & pd & l & [= <-] & [= <-] & ? & ?). by exists c, pd, l.
      * intros (? & pd & l & [= <-] & ? & ?). by exists c, p, pd, l.
  - intros c j pd k l Hget Hpd Hl. unfold getClient in Hget.
    destruct (findClient m duid) as [[i c0]|] eqn:Hc; [|done].
    injection Hget as ->.
    destruct (updatePrefix_client_found now c duid addr iface iaid t1 t2 p
                pref valid len quiet j k pd l Hpd Hl)
      as (c' & pd' & l' & Hcall & Hduid & Hrest).
    unfold updatePrefix. rewrite Hc, Hcall. simpl.
    exists c', pd', l'. split; [done|]. split.
    + unfold getClient, findClient, storeClient. simpl.
      erewrite list_find_store; [done|exact Hc|].
      rewrite Hduid. by eapply findClient_DUID.
    + split; [|exact Hrest]. unfold storeClient. simpl.
      by rewrite length_insert.
  - intros Hnone. unfold updatePrefix. unfold getClient in Hnone.
    by destruct (findClient m duid).
  - intros c Hget Hpd. unfold updatePrefix. unfold getClient in Hget.
    destruct (findClient m duid) as [[i c0]|] eqn:Hc; [|done].
    injection Hget as ->. unfold updatePrefix_client. rewrite Hpd.
    unfold storeClient. rewrite (list_find_same _ _ _ _ Hc).
    by destruct m.
  - intros c p0 j pd k l -> -> Hpd Hl.
    destruct (updatePrefix_client_found now c duid addr iface iaid t1 t2 p0
                pref valid len quiet j k pd l Hpd Hl)
      as (c' & pd' & l' & Hcall & _ & Hrest).
    by exists c', pd', l'.
Qed.

End ManagerFacts.

Section InterfacesFacts.
Variable nameToIndex : gmap string Z.
Variable indexToName : gmap Z string.

Local Abbreviation fixIA := (updateInterfacesInfoIA nameToIndex indexToName).
Local Abbreviation fixList := (updateInterfacesInfo_list nameToIndex indexToName).
Local Abbreviation fixClient := (updateInterfacesInfo_client nameToIndex indexToName).
Local Abbreviation fixClients := (updateInterfacesInfo_clients nameToIndex indexToName).

Lemma updateInterfacesInfoIA_cases (ia : TAddrIA) :
  (Ifacename ia = EmptyString →
     match indexToName !! Ifindex ia with
     | None => fixIA ia = (false, ia)
     | Some name => fixIA ia = (true, setIfacename name ia)
     end)
  ∧ (Ifacename ia ≠ EmptyString →
     match nameToIndex !! Ifacename ia with
     | None => fixIA ia = (false, ia)
     | Some n =>
       fixIA ia = (true, if bool_decide (Ifindex ia = n) then ia
                         else setIfindex n ia)
     end).
Proof.
  unfold updateInterfacesInfoIA. split; intros Hname.
  - rewrite Hname. simpl. by destruct (indexToName !! Ifindex ia).
  - rewrite bool_decide_eq_false_2
      by (by destruct (Ifacename ia)).
    destruct (nameToIndex !! Ifacename ia) as [n|]; [|done].
    by repeat case_bool_decide.
Qed.

Lemma updateInterfacesInfo_list_spec (l : list TAddrIA) :
  ((fixList l).1 = true ↔ Forall (λ ia, (fixIA ia).1 = true) l)
  ∧ ((fixList l).1 = true → (fixList l).2 = (λ ia, (fixIA ia).2) <$> l).
Proof.
  induction l as [|ia l [IH1 IH2]]; simpl; [by split|].
  destruct (fixIA ia) as [[] ia'] eqn:Hia; simpl.
  - destruct (fixList l) as [ok l'] eqn:Hl; simpl in *. split.
    + rewrite IH1. split; [intros ?; constructor; by rewrite ?Hia|].
      by inversion 1.
    + intros Hok. by rewrite (IH2 Hok).
  - split; [|done]. split; [done|]. inversion 1 as [|?? Hhd]; subst.
    by rewrite Hia in Hhd.
Qed.

Lemma updateInterfacesInfo_client_spec (c : TAddrClient) :
  ((fixClient c).1 = true ↔
     Forall (λ ia, (fixIA ia).1 = true) (assignments c))
  ∧ ((fixClient c).1 = true →
     (fixClient c).2
     = setPDLst ((λ ia, (fixIA ia).2) <$> PDLst c)
         (setTALst ((λ ia, (fixIA ia).2) <$> TALst c)
            (setIAsLst ((λ ia, (fixIA ia).2) <$> IAsLst c) c))).
Proof.
  unfold updateInterfacesInfo_client, assignments. rewrite !Forall_app.
  destruct (updateInterfacesInfo_list_spec (IAsLst c)) as [Ha1 Ha2].
  destruct (updateInterfacesInfo_list_spec (TALst c)) as [Hb1 Hb2].
  destruct (updateInterfacesInfo_list_spec (PDLst c)) as [Hc1 Hc2].
  destruct (fixList (IAsLst c)) as [[] ias]; simpl in *;
    [|split; [split; [done|]; intros (? & _); by apply Ha1|done]].
  destruct (fixList (TALst c)) as [[] tas]; simpl in *;
    [|split; [split; [done|]; intros (_ & ? & _); by apply Hb1|done]].
  destruct (fixList (PDLst c)) as [ok pds]; simpl in *.
  split.
  - rewrite Hc1. split; [intros ?; split_and!; [by apply Ha1|by apply Hb1|done]|].
    by intros (_ & _ & ?).
  - intros Hok. by rewrite Ha2, Hb2, Hc2.
Qed.

Lemma updateInterfacesInfo_clients_spec (l : list TAddrClient) :
  ((fixClients l).1 = true ↔ Forall (λ c, (fixClient c).1 = true) l)
  ∧ ((fixClients l).1 = true → (fixClients l).2 = (λ c, (fixClient c).2) <$> l).
Proof.
  induction l as [|c l [IH1 IH2]]; simpl; [by split|].
  destruct (fixClient c) as [[] c'] eqn:Hc; simpl.
  - destruct (fixClients l) as [ok l'] eqn:Hl; simpl in *. split.
    + rewrite IH1. split; [intros ?; constructor; by rewrite ?Hc|].
      by inversion 1.
    + intros Hok. by rewrite (IH2 Hok).
  - split; [|done]. split; [done|]. inversion 1 as [|?? Hhd]; subst.
    by rewrite Hc in Hhd.
Qed.

(** One assignment, by its fields. *)
Lemma updateInterfacesInfoIA_known (ia : TAddrIA) :
  (fixIA ia).1 = true ↔ interface_known nameToIndex indexToName ia.
Proof.
  unfold interface_known. destruct (updateInterfacesInfoIA_cases ia) as [H1 H2].
  case_bool_decide as Hname.
  - specialize (H1 Hname).
    destruct (indexToName !! Ifindex ia); rewrite H1; simpl;
      [by split|]. split; [done|]. by intros [? ?].
  - specialize (H2 Hname).
    destruct (nameToIndex !! Ifacename ia); rewrite H2; simpl;
      [by split|]. split; [done|]. by intros [? ?].
Qed.

Lemma updateInterfacesInfoIA_fixed (ia : TAddrIA) :
  (fixIA ia).1 = true →
  interface_fixed nameToIndex indexToName ia (fixIA ia).2.
Proof.
  unfold interface_fixed, same_but_interface.
  destruct (updateInterfacesInfoIA_cases ia) as [H1 H2].
  case_bool_decide as Hname.
  - specialize (H1 Hname).
    destruct (indexToName !! Ifindex ia); rewrite H1; [done|].
    by intros [=].
  - specialize (H2 Hname).
    destruct (nameToIndex !! Ifacename ia) as [n|]; rewrite H2;
      [|by intros [=]].
    intros _. simpl. case_bool_decide as Hn; simpl; [by rewrite Hn|done].
Qed.

Lemma updateInterfacesInfo_list_fixed_all (l : list TAddrIA) :
  (fixList l).1 = true →
  Forall2 (interface_fixed nameToIndex indexToName) l (fixList l).2.
Proof.
  intros Hok. destruct (updateInterfacesInfo_list_spec l) as [H1 H2].
  rewrite (H2 Hok). apply Forall2_fmap_r, Forall_Forall2_diag.
  eapply Forall_impl; [by apply H1|].
  intros ia. apply updateInterfacesInfoIA_fixed.
Qed.

Lemma updateInterfacesInfo_client_fixed_all (c : TAddrClient) :
  (fixClient c).1 = true →
  let c' := (fixClient c).2 in
  clnt_DUID c' = clnt_DUID c ∧ SPI c' = SPI c
  ∧ ReconfKey_ c' = ReconfKey_ c
  ∧ Forall2 (interface_fixed nameToIndex indexToName) (IAsLst c) (IAsLst c')
  ∧ Forall2 (interface_fixed nameToIndex indexToName) (TALst c) (TALst c')
  ∧ Forall2 (interface_fixed nameToIndex indexToName) (PDLst c) (PDLst c').
Proof.
  intros Hok.
  pose proof (updateInterfacesInfo_list_fixed_all (IAsLst c)) as Ha.
  pose proof (updateInterfacesInfo_list_fixed_all (TALst c)) as Hb.
  pose proof (updateInterfacesInfo_list_fixed_all (PDLst c)) as Hc.
  unfold updateInterfacesInfo_client in *.
  destruct (fixList (IAsLst c)) as [[] ias]; simpl in *; [|done].
  destruct (fixList (TALst c)) as [[] tas]; simpl in *; [|done].
  destruct (fixList (PDLst c)) as [[] pds]; simpl in *; [|done].
  split_and!; auto.
Qed.

(** C7.  [updateInterfacesInfoIA] on one assignment.  With an empty
    interface name the stored index is looked up in [indexToName]: the call
    fails, and leaves the assignment, when the index is absent; otherwise
    it succeeds and the assignment has the mapped name, with the index it
    had.  With a name the name is looked up in [nameToIndex]: the call
    fails, and leaves the assignment, when the name is absent; otherwise it
    succeeds and the assignment has the mapped index, with the name it
    had.  No other field changes.  [updateInterfacesInfo] returns true
    exactly when the lookup succeeds for every IA, TA and PD of every
    client, and then the manager holds the same clients with the same
    assignments at the same places, each with the name or the index so
    set. *)
Theorem updateInterfacesInfo_spec (m : TAddrMgr) :
  let r := updateInterfacesInfo nameToIndex indexToName m in
  (∀ ia : TAddrIA,
     let ia' := (fixIA ia).2 in
     (Ifacename ia = EmptyString →
        match indexToName !! Ifindex ia with
        | None => fixIA ia = (false, ia)
        | Some name =>
          (fixIA ia).1 = true
          ∧ Ifacename ia' = name ∧ Ifindex ia' = Ifindex ia
          ∧ same_but_interface ia ia'
        end)
     ∧ (Ifacename ia ≠ EmptyString →
        match nameToIndex !! Ifacename ia with
        | None => fixIA ia = (false, ia)
        | Some n =>
          (fixIA ia).1 = true
          ∧ Ifindex ia' = n ∧ Ifacename ia' = Ifacename ia
          ∧ same_but_interface ia ia'
        end))
  ∧ (r.1 = true ↔
       ∀ c ia, c ∈ ClntsLst m → ia ∈ assignments c →
               interface_known nameToIndex indexToName ia)
  ∧ (r.1 = true →
     Forall2 (λ c c',
        clnt_DUID c' = clnt_DUID c ∧ SPI c' = SPI c
        ∧ ReconfKey_ c' = ReconfKey_ c
        ∧ Forall2 (interface_fixed nameToIndex indexToName)
            (IAsLst c) (IAsLst c')
        ∧ Forall2 (interface_fixed nameToIndex indexToName)
            (TALst c) (TALst c')
        ∧ Forall2 (interface_fixed nameToIndex indexToName)
            (PDLst c) (PDLst c'))
       (ClntsLst m) (ClntsLst r.2)).
Proof.
  intros r. subst r. split.
  { intros ia ia'. subst ia'.
    destruct (updateInterfacesInfoIA_cases ia) as [H1 H2].
    split; intros Hname.
    - specialize (H1 Hname).
      destruct (indexToName !! Ifindex ia); [|done]. by rewrite H1.
    - specialize (H2 Hname).
      destruct (nameToIndex !! Ifacename ia) as [n|]; [|done].
      rewrite H2. simpl. unfold same_but_interface.
      case_bool_decide as Hn; simpl; [by rewrite Hn|done]. }
  unfold updateInterfacesInfo.
  destruct (updateInterfacesInfo_clients_spec (ClntsLst m)) as [H1 H2].
  destruct (fixClients (ClntsLst m)) as [ok clients]; simpl in *. split.
  - rewrite H1, Forall_forall. split.
    + intros Hall c ia Hc Hia. apply updateInterfacesInfoIA_known.
      pose proof (proj1 (proj1 (updateInterfacesInfo_client_spec c))
                    (Hall c Hc)) as Hc'.
      rewrite Forall_forall in Hc'. by apply Hc'.
    + intros Hall c Hc. apply updateInterfacesInfo_client_spec.
      apply Forall_forall. intros ia Hia.
      apply updateInterfacesInfoIA_known. by eapply Hall.
  - intros Hok. rewrite (H2 Hok).
    apply Forall2_fmap_r, Forall_Forall2_diag.
    eapply Forall_impl; [by apply H1|].
    intros c. apply updateInterfacesInfo_client_fixed_all.
Qed.

End InterfacesFacts.

Section TimerFacts.

Lemma fold_lowest {A : Type} (t : A → Z) (l : list A) (a : Z) :
  let v := fold_left (λ ts x, if ts >? t x then t x else ts) l a in
  v ≤ a ∧ (∀ x, x ∈ l → v ≤ t x) ∧ (v = a ∨ ∃ x, x ∈ l ∧ v = t x).
Proof.
  revert a. induction l as [|y l IH]; intros a; simpl.
  - split; [lia|]. split; [by intros ? ?%elem_of_nil|by left].
  - destruct (IH (if a >? t y then t y else a)) as (H1 & H2 & H3).
    destruct (Z.gtb_spec a (t y)) as [Hlt|Hge].
    + split; [lia|]. split.
      * intros x [->|Hx]%elem_of_cons; [lia|by apply H2].
      * right. destruct H3 as [->|(x & Hx & ->)].
        -- exists y. split; [by left|done].
        -- exists x. split; [by right|done].
    + split; [lia|]. split.
      * intros x [->|Hx]%elem_of_cons; [lia|by apply H2].
      * destruct H3 as [->|(x & Hx & ->)]; [by left|].
        right. exists x. split; [by right|done].
Qed.

Lemma lowest_lowest_of {A : Type} (t : A → Z) (l : list A) :
  lowest_of (lowest t l) (t <$> l).
Proof.
  destruct (fold_lowest t l UINT_MAX) as (H1 & H2 & H3).
  split; [done|]. split.
  - intros ? (x & -> & Hx)%list_elem_of_fmap. by apply H2.
  - destruct H3 as [?|(x & Hx & ?)]; [by left|].
    right. apply list_elem_of_fmap. by exists x.
Qed.

(** The lowest value over a non-empty list of values that do not exceed the
    sentinel is their minimum. *)
Lemma lowest_min {A : Type} (t : A → Z) (l : list A) :
  (∀ x, x ∈ l → t x ≤ UINT_MAX) → l ≠ [] →
  (∃ x, x ∈ l ∧ lowest t l = t x) ∧ ∀ x, x ∈ l → lowest t l ≤ t x.
Proof.
  intros Hle Hne. destruct (fold_lowest t l UINT_MAX) as (H1 & H2 & H3).
  split; [|done]. destruct H3 as [Hmax|?]; [|done].
  destruct l as [|x l]; [done|]. exists x. split; [by left|].
  pose proof (H2 x (list_elem_of_here _ _)).
  pose proof (Hle x (list_elem_of_here _ _)).
  unfold lowest. lia.
Qed.

Lemma lowest_of_bind {A : Type} (g : A → Z) (h : A → list Z) (l : list A) :
  (∀ x, x ∈ l → lowest_of (g x) (h x)) →
  lowest_of (lowest g l) (l ≫= h).
Proof.
  intros Hg. destruct (fold_lowest g l UINT_MAX) as (H1 & H2 & H3).
  split; [done|]. split.
  - intros t (x & Ht & Hx)%list_elem_of_bind.
    destruct (Hg x Hx) as (_ & Hall & _).
    specialize (H2 x Hx). specialize (Hall t Ht). unfold lowest. lia.
  - destruct H3 as [?|(x & Hx & Hv)]; [by left|].
    destruct (Hg x Hx) as (_ & _ & [Hmax|Hin]).
    + left. unfold lowest. lia.
    + right. apply list_elem_of_bind. exists x. unfold lowest.
      by rewrite Hv.
Qed.

Lemma lowest_of_min (a b : Z) (ts1 ts2 : list Z) :
  lowest_of a ts1 → lowest_of b ts2 → lowest_of (Z.min a b) (ts1 ++ ts2).
Proof.
  intros (A1 & A2 & A3) (B1 & B2 & B3). split; [lia|]. split.
  - intros t [Ht|Ht]%elem_of_app; [specialize (A2 t Ht)|specialize (B2 t Ht)];
      lia.
  - destruct (Z.min_spec a b) as [[? ->]|[? ->]].
    + destruct A3 as [?|?]; [left; lia|right; apply elem_of_app; by left].
    + destruct B3 as [?|?]; [left; lia|right; apply elem_of_app; by right].
Qed.

(** C8.  Each of [getT1Timeout], [getT2Timeout], [getPrefTimeout] and
    [getValidTimeout] returns [UINT_MAX], the largest 32-bit value, for a
    manager without clients, and otherwise the minimum of the corresponding
    timeout over the clients; that value is the lowest of the times left of
    all assignments (for T1 and T2) or of all leases (for the preferred and
    valid lifetimes) of all clients, and of [UINT_MAX]. *)
Theorem getTimeout_spec (now : Z) (m : TAddrMgr) :
  aggregates (getT1Timeout now m) (clnt_getT1Timeout now) (all_T1 now m) m
  ∧ aggregates (getT2Timeout now m) (clnt_getT2Timeout now) (all_T2 now m) m
  ∧ aggregates (getPrefTimeout now m) (clnt_getPrefTimeout now)
      (all_Pref now m) m
  ∧ aggregates (getValidTimeout now m) (clnt_getValidTimeout now)
      (all_Valid now m) m.
Proof.
  assert (∀ (g : TAddrClient → Z) (h : TAddrClient → list Z),
            (∀ c, lowest_of (g c) (h c)) →
            aggregates (lowest g (ClntsLst m)) g (ClntsLst m ≫= h) m)
    as Hgen.
  { intros g h Hg. split_and!.
    - by intros ->.
    - apply lowest_min. intros c _. by destruct (Hg c).
    - apply lowest_of_bind. auto. }
  split_and!.
  - apply (Hgen (clnt_getT1Timeout now)). intros c.
    apply lowest_lowest_of.
  - apply (Hgen (clnt_getT2Timeout now)). intros c.
    apply lowest_lowest_of.
  - apply (Hgen (clnt_getPrefTimeout now)). intros c.
    apply lowest_of_bind. intros ia _.
    apply lowest_of_min; apply lowest_lowest_of.
  - apply (Hgen (clnt_getValidTimeout now)). intros c.
    apply lowest_of_bind. intros ia _.
    apply lowest_of_min; apply lowest_lowest_of.
Qed.

End TimerFacts.

(** ** Facts about the C library *)

Section CLibraryFacts.
Local Open Scope string_scope.

Lemma sapp_nil (s : string) : EmptyString +:+ s = s.
Proof. done. Qed.

Lemma sapp_cons (c : ascii) (s t : string) :
  String c s +:+ t = String c (s +:+ t).
Proof. done. Qed.

Lemma sapp_nil_r (s : string) : s +:+ EmptyString = s.
Proof. induction s as [|c s IH]; [done|]. by rewrite sapp_cons, IH. Qed.

Lemma sapp_assoc (s t u : string) : (s +:+ t) +:+ u = s +:+ (t +:+ u).
Proof. induction s as [|c s IH]; [done|]. by rewrite !sapp_cons, IH. Qed.

Lemma slength_app (s t : string) :
  String.length (s +:+ t) = (String.length s + String.length t)%nat.
Proof. induction s as [|c s IH]; [done|]. rewrite sapp_cons. simpl. lia. Qed.

Lemma prefix_app (p a b : string) :
  String.prefix p a = true → String.prefix p (a +:+ b) = true.
Proof.
  revert a. induction p as [|c p IH]; intros a Hp.
  - by destruct (a +:+ b).
  - destruct a as [|d a]; [done|]. rewrite sapp_cons. simpl in *.
    destruct (ascii_dec c d); [by apply IH|done].
Qed.

Lemma find_cons (p : string) (c : ascii) (s : string) :
  find p (String c s)
  = if String.prefix p (String c s) then Some O else S <$> find p s.
Proof. done. Qed.

Lemma find_nil (p : string) :
  find p EmptyString
  = if String.prefix p EmptyString then Some O else None.
Proof. done. Qed.

(** A needle found in a text is found in any text that starts with it or
    ends with it. *)
Lemma find_app_l (p a b : string) :
  find p (a +:+ b) = None → find p a = None.
Proof.
  induction a as [|c a IH].
  - rewrite sapp_nil, find_nil. destruct p; [|done].
    by destruct b.
  - rewrite sapp_cons, !find_cons.
    destruct (String.prefix p (String c a)) eqn:Hp.
    + pose proof (prefix_app p (String c a) b Hp) as Hp'.
      rewrite sapp_cons in Hp'. by rewrite Hp'.
    + destruct (String.prefix p (String c (a +:+ b))); [done|].
      destruct (find p (a +:+ b)); [done|]. intros _. by rewrite IH.
Qed.

Lemma find_app_r (p a b : string) :
  find p (a +:+ b) = None → find p b = None.
Proof.
  induction a as [|c a IH]; [done|]. rewrite sapp_cons, find_cons.
  destruct (String.prefix p (String c (a +:+ b))); [done|].
  destruct (find p (a +:+ b)); [done|]. intros _. by apply IH.
Qed.

Lemma cstr_prefix (s : string) : ∃ r, s = cstr s +:+ r.
Proof.
  induction s as [|c s [r IH]]; [by exists EmptyString|]. simpl.
  destruct (Ascii.eqb c NUL).
  - by exists (String c s).
  - exists r. by rewrite sapp_cons, <- IH.
Qed.

(** [strstr] finds nothing in a buffer that does not hold the needle. *)
Lemma strstr_None (buf p : string) : find p buf = None → strstr buf p = None.
Proof.
  intros Hbuf. unfold strstr. destruct (cstr_prefix buf) as [r Hr].
  rewrite Hr in Hbuf. by apply find_app_l in Hbuf.
Qed.

Lemma fgets_chunk_split (n : nat) (s chunk rest : string) (hit : bool) :
  fgets_chunk n s = (chunk, rest, hit) → s = chunk +:+ rest.
Proof.
  revert s chunk rest hit. induction n as [|n IH]; intros s chunk rest hit.
  - simpl. by intros [= <- <- <-].
  - simpl. destruct s as [|c s]; [by intros [= <- <- <-]|].
    destruct (Ascii.eqb c newline); [by intros [= <- <- <-]|].
    destruct (fgets_chunk n s) as [[chunk' rest'] hit'] eqn:Hs.
    intros [= <- <- <-]. rewrite sapp_cons. f_equal. by eapply IH.
Qed.

Lemma fgets_chunk_nonempty (n : nat) (c : ascii) (s chunk rest : string)
    (hit : bool) :
  fgets_chunk (S n) (String c s) = (chunk, rest, hit) → chunk ≠ EmptyString.
Proof.
  simpl. destruct (Ascii.eqb c newline); [by intros [= <- <- <-]|].
  destruct (fgets_chunk n s) as [[chunk' rest'] hit'].
  by intros [= <- <- <-].
Qed.

(** What [fgets] hands out is the start of what was unread, and is not
    empty. *)
Lemma fgets_Some (f f' : FILE) (buf : string) :
  fgets f = (Some buf, f') →
  unread f = buf +:+ unread f' ∧ buf ≠ EmptyString.
Proof.
  unfold fgets. destruct (unread f) as [|c s] eqn:Hf; [done|].
  destruct (fgets_chunk 254 (String c s)) as [[chunk rest] hit] eqn:Hs.
  intros [= <- <-]. simpl. split.
  - by eapply fgets_chunk_split.
  - by eapply fgets_chunk_nonempty.
Qed.

Lemma fgets_None (f f' : FILE) :
  fgets f = (None, f') → unread f = EmptyString ∧ unread f' = EmptyString.
Proof.
  unfold fgets. destruct (unread f) as [|c s] eqn:Hf.
  - by intros [= <-].
  - by destruct (fgets_chunk 254 (String c s)) as [[chunk rest] hit].
Qed.

Lemma advances_refl (f : FILE) : advances f f.
Proof. by exists EmptyString. Qed.

Lemma advances_trans (f g h : FILE) :
  advances f g → advances g h → advances f h.
Proof.
  intros [s Hs] [t Ht]. exists (s +:+ t). by rewrite Hs, Ht, sapp_assoc.
Qed.

Lemma fgets_advances (f f' : FILE) (buf : option string) :
  fgets f = (buf, f') → advances f f'.
Proof.
  destruct buf as [buf|].
  - intros [? _]%fgets_Some. by exists buf.
  - intros [Heq Heq']%fgets_None. exists EmptyString.
    by rewrite Heq, Heq'.
Qed.

Lemma advances_length (f f' : FILE) :
  advances f f' →
  (String.length (unread f') ≤ String.length (unread f))%nat.
Proof. intros [s Hs]. rewrite Hs, slength_app. lia. Qed.

Lemma fgets_shorter (f f' : FILE) (buf : string) :
  fgets f = (Some buf, f') →
  (String.length (unread f') < String.length (unread f))%nat.
Proof.
  intros [Heq Hne]%fgets_Some. rewrite Heq, slength_app.
  destruct buf; [done|]. simpl. lia.
Qed.

Lemma advances_find (p : string) (f f' : FILE) :
  advances f f' → find p (unread f) = None → find p (unread f') = None.
Proof. intros [s Hs]. rewrite Hs. apply find_app_r. Qed.

Lemma fgets_find (p : string) (f f' : FILE) (buf : string) :
  fgets f = (Some buf, f') → find p (unread f) = None →
  strstr buf p = None.
Proof.
  intros [Heq _]%fgets_Some Hf. apply strstr_None.
  rewrite Heq in Hf. by apply find_app_l in Hf.
Qed.

Lemma prefix_length (p s : string) :
  String.prefix p s = true → (String.length p ≤ String.length s)%nat.
Proof.
  revert s. induction p as [|c p IH]; intros s Hp; simpl; [lia|].
  destruct s as [|d s]; [done|]. simpl in *.
  destruct (ascii_dec c d); [|done]. specialize (IH s Hp). lia.
Qed.

Lemma find_Some_bound (p s : string) (x : nat) :
  find p s = Some x → (x + String.length p ≤ String.length s)%nat.
Proof.
  revert x. induction s as [|c s IH]; intros x.
  - rewrite find_nil. case_match eqn:Hp; [|done]. intros [= <-].
    by apply prefix_length in Hp.
  - rewrite find_cons. case_match eqn:Hp.
    + intros [= <-]. by apply prefix_length in Hp.
    + destruct (find p s) as [y|]; [|done]. intros [= <-].
      specialize (IH y eq_refl). simpl. lia.
Qed.

Lemma cstr_length (s : string) :
  (String.length (cstr s) ≤ String.length s)%nat.
Proof.
  induction s as [|c s IH]; simpl; [lia|].
  destruct (Ascii.eqb c NUL); simpl; lia.
Qed.

(** A pointer just behind a needle that [strstr] found is inside the
    buffer. *)
Lemma strstr_str_at (buf p : string) (x : nat) :
  strstr buf p = Some x →
  str_at buf (x + String.length p)
  = Ret (cstr (sdrop (x + String.length p) buf)).
Proof.
  unfold strstr, str_at. intros Hx%find_Some_bound.
  pose proof (cstr_length buf).
  destruct (Nat.leb_spec (x + String.length p) (String.length buf));
    [done|lia].
Qed.

End CLibraryFacts.

(** ** The loops of the reader *)

Section ReaderFacts.
Context {ext : Externals} {daemon : Daemon}.
Variable now : Z.
Local Open Scope string_scope.

Local Arguments fgets : simpl never.
Local Arguments strstr : simpl never.
Local Arguments found : simpl never.
Local Arguments attr : simpl never.
Local Arguments attr_ifacename : simpl never.
Local Arguments attr_unicast_IA : simpl never.
Local Arguments attr_unicast_PD : simpl never.
Local Arguments parse_duid : simpl never.
Local Arguments parseAddrPD_prefix : simpl never.
Local Arguments parseAddrIA_addr : simpl never.
Local Arguments parseAddrIA_dns : simpl never.
Local Arguments parseAddrIA_fqdn : simpl never.
Local Arguments parseAddrClient_key : simpl never.
Local Arguments parseAddrClient_IA : simpl never.
Local Arguments parseAddrClient_PD : simpl never.
Local Arguments parseAddrIA : simpl never.
Local Arguments parseAddrPD : simpl never.
Local Arguments parseAddrClient : simpl never.
Local Arguments str_at : simpl never.
Local Arguments extract_uint64 : simpl never.

(** Takes a computation in [res] apart, along the matches it is made of. *)
Ltac res_cases H :=
  unfold mbind, res_bind, mret, res_ret in H;
  repeat (case_match; simplify_eq).

(** Closes a goal [advances f f'] from what the hypotheses say of the
    calls made in between. *)
Ltac advances_tac :=
  simplify_eq;
  repeat match goal with
         | H : fgets _ = _ |- _ => apply fgets_advances in H
         end;
  eauto 6 using advances_refl, advances_trans.

Lemma parseAddrTA_advances (fuel : nat) (f f' : FILE) (r : option TAddrIA) :
  parseAddrTA fuel f = Ret (r, f') → advances f f'.
Proof.
  revert f. induction fuel as [|fuel IH]; intros f H; [done|].
  simpl in H. res_cases H; try apply IH in H; advances_tac.
Qed.

Lemma parseAddrPD_loop_advances (fuel : nat) (f f' : FILE) (t1 t2 iaid : Z)
    (ifacename : string) (ifindex : Z) (unicast : option TIPv6Addr)
    (ptrpd r : option TAddrIA) :
  parseAddrPD_loop now fuel f t1 t2 iaid ifacename ifindex unicast ptrpd
  = Ret (r, f') →
  advances f f'.
Proof.
  revert f ptrpd. induction fuel as [|fuel IH]; intros f ptrpd H; [done|].
  simpl in H. res_cases H; try apply IH in H; advances_tac.
Qed.

Lemma parseAddrIA_loop_advances (fuel : nat) (f f' : FILE) (t1 t2 iaid : Z)
    (ifacename : string) (ifindex : Z) (ia r : option TAddrIA) :
  parseAddrIA_loop now fuel f t1 t2 iaid ifacename ifindex ia = Ret (r, f') →
  advances f f'.
Proof.
  revert f ia. induction fuel as [|fuel IH]; intros f ia H; [done|].
  simpl in H. res_cases H; try apply IH in H; advances_tac.
Qed.

Lemma parseAddrClient_IA_advances (fuel : nat) (f f' : FILE) (buf : string)
    (clnt clnt' : option TAddrClient) (unicast unicast' : option TIPv6Addr)
    (continue : bool) :
  parseAddrClient_IA now fuel f buf clnt unicast
  = Ret (continue, clnt', unicast', f') →
  advances f f'.
Proof.
  intros H. unfold parseAddrClient_IA, parseAddrIA in H. res_cases H;
    match goal with
    | H' : parseAddrIA_loop _ _ _ _ _ _ _ _ _ = _ |- _ =>
      apply parseAddrIA_loop_advances in H'
    end; advances_tac.
Qed.

Lemma parseAddrClient_PD_advances (fuel : nat) (f f' : FILE)
    (buf buf' : string) (clnt clnt' : option TAddrClient)
    (unicast unicast' : option TIPv6Addr) (continue : bool) :
  parseAddrClient_PD now fuel f buf clnt unicast
  = Ret (continue, buf', clnt', unicast', f') →
  advances f f'.
Proof.
  intros H. unfold parseAddrClient_PD, parseAddrPD in H. res_cases H;
    match goal with
    | H' : parseAddrPD_loop _ _ _ _ _ _ _ _ _ _ = _ |- _ =>
      apply parseAddrPD_loop_advances in H'
    end; advances_tac.
Qed.

Lemma parseAddrClient_loop_advances (fuel : nat) (f f' : FILE)
    (clnt r : option TAddrClient) (unicast : option TIPv6Addr)
    (reconfKey : list Z) :
  parseAddrClient_loop now fuel f clnt unicast reconfKey = Ret (r, f') →
  advances f f'.
Proof.
  revert f clnt unicast reconfKey.
  induction fuel as [|fuel IH]; intros f clnt unicast reconfKey H; [done|].
  simpl in H. res_cases H; try apply IH in H;
    repeat match goal with
           | H' : parseAddrClient_IA _ _ _ _ _ _ = _ |- _ =>
             apply parseAddrClient_IA_advances in H'
           | H' : parseAddrClient_PD _ _ _ _ _ _ = _ |- _ =>
             apply parseAddrClient_PD_advances in H'
           | H' : parseAddrTA _ _ = _ |- _ =>
             apply parseAddrTA_advances in H'
           end; advances_tac.
Qed.

(** *** The bound on the rounds is never reached *)

Lemma str_at_fuel (buf : string) (p : nat) : str_at buf p = OutOfFuel → False.
Proof. unfold str_at. by case_match. Qed.

Lemma strstr_at_fuel (buf : string) (p : nat) (needle : string) :
  strstr_at buf p needle = OutOfFuel → False.
Proof.
  unfold strstr_at. intros H. res_cases H. by eapply str_at_fuel.
Qed.

Create HintDb nofuel.
Hint Resolve str_at_fuel strstr_at_fuel : nofuel.

(** Splits a helper of the reader into its cases and closes those in which
    a part of it would have run out of fuel. *)
Ltac fuel_cases H :=
  res_cases H; try done; exfalso; eauto with nofuel.

Lemma attr_fuel (buf name : string) (off : nat) (v : Z) :
  attr buf name off v = OutOfFuel → False.
Proof. unfold attr. intros H. fuel_cases H. Qed.
Hint Resolve attr_fuel : nofuel.

Lemma parse_body_fuel (buf closing : string) :
  parse_body buf closing = OutOfFuel → False.
Proof. unfold parse_body. intros H. fuel_cases H. Qed.
Hint Resolve parse_body_fuel : nofuel.

Lemma parseAddrAddr_fuel (buf : string) (pd : bool) :
  parseAddrAddr now buf pd = OutOfFuel → False.
Proof.
  unfold parseAddrAddr. intros H. unfold fmap, res_fmap in H.
  fuel_cases H.
Qed.
Hint Resolve parseAddrAddr_fuel : nofuel.

Lemma parseAddrPrefix_fuel (buf : string) (pd : bool) :
  parseAddrPrefix now buf pd = OutOfFuel → False.
Proof.
  unfold parseAddrPrefix. intros H. unfold fmap, res_fmap in H.
  fuel_cases H.
Qed.
Hint Resolve parseAddrPrefix_fuel : nofuel.

Lemma parse_duid_fuel (buf : string) : parse_duid buf = OutOfFuel → False.
Proof. unfold parse_duid. intros H. fuel_cases H. Qed.
Hint Resolve parse_duid_fuel : nofuel.

Lemma parseAddrPD_prefix_fuel (ptrpd : option TAddrIA) (buf : string) :
  parseAddrPD_prefix now ptrpd buf = OutOfFuel → False.
Proof. unfold parseAddrPD_prefix. intros H. fuel_cases H. Qed.
Hint Resolve parseAddrPD_prefix_fuel : nofuel.

Lemma parseAddrIA_addr_fuel (ia : option TAddrIA) (buf : string) :
  parseAddrIA_addr now ia buf = OutOfFuel → False.
Proof. unfold parseAddrIA_addr. intros H. fuel_cases H. Qed.
Hint Resolve parseAddrIA_addr_fuel : nofuel.

Lemma parseAddrIA_dns_fuel (ia : option TAddrIA) (buf : string) :
  parseAddrIA_dns ia buf = OutOfFuel → False.
Proof. unfold parseAddrIA_dns. intros H. fuel_cases H. Qed.
Hint Resolve parseAddrIA_dns_fuel : nofuel.

Lemma parseAddrIA_fqdn_fuel (ia : option TAddrIA) (buf : string) :
  parseAddrIA_fqdn ia buf = OutOfFuel → False.
Proof. unfold parseAddrIA_fqdn. intros H. fuel_cases H. Qed.
Hint Resolve parseAddrIA_fqdn_fuel : nofuel.

Lemma attr_ifacename_fuel (buf : string) :
  attr_ifacename buf = OutOfFuel → False.
Proof. unfold attr_ifacename. intros H. fuel_cases H. Qed.
Hint Resolve attr_ifacename_fuel : nofuel.

Lemma attr_unicast_IA_fuel (buf : string) (unicast : option TIPv6Addr) :
  attr_unicast_IA buf unicast = OutOfFuel → False.
Proof. unfold attr_unicast_IA. intros H. fuel_cases H. Qed.
Hint Resolve attr_unicast_IA_fuel : nofuel.

Lemma attr_unicast_PD_fuel (buf : string) (unicast : option TIPv6Addr) :
  attr_unicast_PD buf unicast = OutOfFuel → False.
Proof. unfold attr_unicast_PD. intros H. fuel_cases H. Qed.
Hint Resolve attr_unicast_PD_fuel : nofuel.

Lemma parseAddrClient_key_fuel (buf : string) :
  parseAddrClient_key buf = OutOfFuel → False.
Proof. unfold parseAddrClient_key. intros H. fuel_cases H. Qed.
Hint Resolve parseAddrClient_key_fuel : nofuel.

(** In the hypotheses: what is unread gets no longer along the calls. *)
Ltac lengths :=
  repeat match goal with
         | H : fgets _ = (Some _, _) |- _ => apply fgets_shorter in H
         | H : fgets _ = (None, _) |- _ => clear H
         | H : parseAddrTA _ _ = Ret _ |- _ =>
           apply parseAddrTA_advances, advances_length in H
         | H : parseAddrIA_loop _ _ _ _ _ _ _ _ _ = Ret _ |- _ =>
           apply parseAddrIA_loop_advances, advances_length in H
         | H : parseAddrPD_loop _ _ _ _ _ _ _ _ _ _ = Ret _ |- _ =>
           apply parseAddrPD_loop_advances, advances_length in H
         | H : parseAddrClient_IA _ _ _ _ _ _ = Ret _ |- _ =>
           apply parseAddrClient_IA_advances, advances_length in H
         | H : parseAddrClient_PD _ _ _ _ _ _ = Ret _ |- _ =>
           apply parseAddrClient_PD_advances, advances_length in H
         | H : parseAddrClient_loop _ _ _ _ _ _ = Ret _ |- _ =>
           apply parseAddrClient_loop_advances, advances_length in H
         end.

Lemma parseAddrTA_fuel (fuel : nat) (f : FILE) :
  (String.length (unread f) < fuel)%nat → parseAddrTA fuel f = OutOfFuel →
  False.
Proof.
  revert f. induction fuel as [|fuel IH]; intros f Hf H; [lia|].
  simpl in H. res_cases H; try done.
  eapply IH; [|done]. lengths. lia.
Qed.

Lemma parseAddrPD_loop_fuel (fuel : nat) (f : FILE) (t1 t2 iaid : Z)
    (ifacename : string) (ifindex : Z) (unicast : option TIPv6Addr)
    (ptrpd : option TAddrIA) :
  (String.length (unread f) < fuel)%nat →
  parseAddrPD_loop now fuel f t1 t2 iaid ifacename ifindex unicast ptrpd
  = OutOfFuel →
  False.
Proof.
  revert f ptrpd. induction fuel as [|fuel IH]; intros f ptrpd Hf H; [lia|].
  simpl in H. res_cases H; try done;
    try (eapply IH; [|done]; lengths; lia); exfalso; eauto with nofuel.
Qed.

Lemma parseAddrIA_loop_fuel (fuel : nat) (f : FILE) (t1 t2 iaid : Z)
    (ifacename : string) (ifindex : Z) (ia : option TAddrIA) :
  (String.length (unread f) < fuel)%nat →
  parseAddrIA_loop now fuel f t1 t2 iaid ifacename ifindex ia = OutOfFuel →
  False.
Proof.
  revert f ia. induction fuel as [|fuel IH]; intros f ia Hf H; [lia|].
  simpl in H. res_cases H; try done;
    try (eapply IH; [|done]; lengths; lia); exfalso; eauto with nofuel.
Qed.

Lemma parseAddrClient_IA_fuel (fuel : nat) (f : FILE) (buf : string)
    (clnt : option TAddrClient) (unicast : option TIPv6Addr) :
  (String.length (unread f) < fuel)%nat →
  parseAddrClient_IA now fuel f buf clnt unicast = OutOfFuel → False.
Proof.
  intros Hf H. unfold parseAddrClient_IA, parseAddrIA in H.
  res_cases H; try done;
    try (by eapply parseAddrIA_loop_fuel); exfalso; eauto with nofuel.
Qed.

Lemma parseAddrClient_PD_fuel (fuel : nat) (f : FILE) (buf : string)
    (clnt : option TAddrClient) (unicast : option TIPv6Addr) :
  (String.length (unread f) < fuel)%nat →
  parseAddrClient_PD now fuel f buf clnt unicast = OutOfFuel → False.
Proof.
  intros Hf H. unfold parseAddrClient_PD, parseAddrPD in H.
  res_cases H; try done;
    try (by eapply parseAddrPD_loop_fuel); exfalso; eauto with nofuel.
Qed.

Lemma parseAddrClient_loop_fuel (fuel : nat) (f : FILE)
    (clnt : option TAddrClient) (unicast : option TIPv6Addr)
    (reconfKey : list Z) :
  (String.length (unread f) < fuel)%nat →
  parseAddrClient_loop now fuel f clnt unicast reconfKey = OutOfFuel → False.
Proof.
  revert f clnt unicast reconfKey.
  induction fuel as [|fuel IH]; intros f clnt unicast reconfKey Hf H; [lia|].
  simpl in H. res_cases H; try done;
    try (eapply IH; [|done]; lengths; lia);
    try (eapply parseAddrClient_IA_fuel; [|done]; lengths; lia);
    try (eapply parseAddrClient_PD_fuel; [|done]; lengths; lia);
    try (eapply parseAddrTA_fuel; [|done]; lengths; lia);
    exfalso; eauto with nofuel.
Qed.

Lemma xmlLoadBuiltIn_loop_fuel (fuel : nat) (f : FILE) (m : TAddrMgr)
    (AddrMgrTag : bool) (clnt : option TAddrClient) :
  (String.length (unread f) < fuel)%nat →
  xmlLoadBuiltIn_loop now fuel f m AddrMgrTag clnt = OutOfFuel → False.
Proof.
  revert f m AddrMgrTag clnt.
  induction fuel as [|fuel IH]; intros f m tag clnt Hf H; [lia|].
  simpl in H. unfold parseAddrClient in H. res_cases H; try done;
    try (eapply IH; [|done]; lengths; lia);
    try (eapply parseAddrClient_loop_fuel; [|done]; lengths; lia);
    exfalso; eauto with nofuel.
Qed.

(** The reader always comes to an end: the bound it is run with is enough,
    whatever the file holds. *)
Lemma xmlLoadBuiltIn_total (file : option string) (m : TAddrMgr) :
  xmlLoadBuiltIn now file m ≠ OutOfFuel.
Proof.
  destruct file as [content|]; [|done]. unfold xmlLoadBuiltIn.
  intros H. eapply xmlLoadBuiltIn_loop_fuel; [|done]. simpl. lia.
Qed.

(** *** A snapshot without client block *)

Lemma xmlLoadBuiltIn_loop_no_client (fuel : nat) (f : FILE) (m : TAddrMgr)
    (AddrMgrTag : bool) :
  (String.length (unread f) < fuel)%nat →
  find "<AddrClient" (unread f) = None →
  ∃ m', xmlLoadBuiltIn_loop now fuel f m AddrMgrTag None = Ret (false, m')
        ∧ ClntsLst m' = ClntsLst m.
Proof.
  revert f m AddrMgrTag.
  induction fuel as [|fuel IH]; intros f m tag Hlen Hf; [lia|].
  simpl. destruct (feof f); [by exists m|].
  destruct (fgets f) as [[buf|] f0] eqn:Hgets; [|by exists m].
  pose proof (fgets_find _ _ _ _ Hgets Hf) as Hbuf.
  pose proof (advances_find _ _ _ (fgets_advances _ _ _ Hgets) Hf) as Hf0.
  apply fgets_shorter in Hgets.
  destruct (found (strstr buf "<AddrMgr>")); [apply IH; [lia|done]|].
  destruct (found (strstr buf "<timestamp>")); [apply IH; [lia|done]|].
  destruct (strstr buf "<replayDetection>") as [x|] eqn:Hx.
  - change 17%nat with (String.length "<replayDetection>").
    rewrite (strstr_str_at _ _ _ Hx).
    unfold mbind, res_bind.
    edestruct IH as (m' & -> & Hm'); [|done|]; [lia|].
    by exists m'.
  - rewrite Hbuf. change (found None) with false. rewrite andb_false_r.
    unfold mbind, res_bind, mret, res_ret.
    destruct (found (strstr buf "</AddrMgr>")); [by exists m|].
    apply IH; [lia|done].
Qed.

(** *** State and tentative marks of what the reader builds *)

Lemma parseAddrPD_prefix_loaded (ptrpd r : option TAddrIA)
    (buf buf' : string) :
  from_option loaded_PD True ptrpd →
  parseAddrPD_prefix now ptrpd buf = Ret (r, buf') →
  from_option loaded_PD True r.
Proof.
  intros Hpd H. unfold parseAddrPD_prefix in H. res_cases H; try done.
  destruct Hpd as [Hst Hall]. split; [done|]. simpl.
  apply Forall_app. split; [done|]. by constructor.
Qed.

Lemma parseAddrPD_loop_loaded (fuel : nat) (f f' : FILE) (t1 t2 iaid : Z)
    (ifacename : string) (ifindex : Z) (unicast : option TIPv6Addr)
    (ptrpd r : option TAddrIA) :
  from_option loaded_PD True ptrpd →
  parseAddrPD_loop now fuel f t1 t2 iaid ifacename ifindex unicast ptrpd
  = Ret (r, f') →
  from_option loaded_PD True r.
Proof.
  revert f ptrpd. induction fuel as [|fuel IH]; intros f ptrpd Hpd H; [done|].
  simpl in H. res_cases H;
    repeat match goal with
           | Hx : parseAddrPD_prefix _ _ _ = Ret _ |- _ =>
             apply parseAddrPD_prefix_loaded in Hx; [|done]
           end;
    try (eapply IH; [|done]); try done;
    try (by destruct ptrpd); try (by destruct o).
Qed.

Lemma parseAddrIA_addr_loaded (ia r : option TAddrIA) (buf buf' : string) :
  from_option loaded_IA True ia →
  parseAddrIA_addr now ia buf = Ret (r, buf') →
  from_option loaded_IA True r.
Proof.
  intros Hia H. unfold parseAddrIA_addr in H. res_cases H; try done.
  destruct Hia as [Hst Hall]. split; [done|]. simpl.
  apply Forall_app. split; [done|]. by constructor.
Qed.

Lemma parseAddrIA_dns_loaded (ia r : option TAddrIA) (buf : string) :
  from_option loaded_IA True ia →
  parseAddrIA_dns ia buf = Ret r →
  from_option loaded_IA True r.
Proof.
  intros Hia H. unfold parseAddrIA_dns in H. res_cases H; try done.
  by destruct ia.
Qed.

Lemma parseAddrIA_fqdn_loaded (ia r : option TAddrIA) (buf : string) :
  from_option loaded_IA True ia →
  parseAddrIA_fqdn ia buf = Ret r →
  from_option loaded_IA True r.
Proof.
  intros Hia H. unfold parseAddrIA_fqdn in H. res_cases H; try done.
  by destruct ia.
Qed.

Lemma parseAddrIA_loop_loaded (fuel : nat) (f f' : FILE) (t1 t2 iaid : Z)
    (ifacename : string) (ifindex : Z) (ia r : option TAddrIA) :
  from_option loaded_IA True ia →
  parseAddrIA_loop now fuel f t1 t2 iaid ifacename ifindex ia = Ret (r, f') →
  from_option loaded_IA True r.
Proof.
  revert f ia. induction fuel as [|fuel IH]; intros f ia Hia H; [done|].
  simpl in H. res_cases H;
    repeat match goal with
           | Hx : parseAddrIA_addr _ _ _ = Ret _ |- _ =>
             apply parseAddrIA_addr_loaded in Hx; [|done]
           | Hx : parseAddrIA_dns _ _ = Ret _ |- _ =>
             apply parseAddrIA_dns_loaded in Hx; [|done]
           | Hx : parseAddrIA_fqdn _ _ = Ret _ |- _ =>
             apply parseAddrIA_fqdn_loaded in Hx; [|done]
           end;
    try (eapply IH; [|done]); try done;
    try (by destruct ia); try (by destruct o).
Qed.

Lemma parseAddrClient_IA_loaded (fuel : nat) (f f' : FILE) (buf : string)
    (clnt clnt' : option TAddrClient) (unicast unicast' : option TIPv6Addr)
    (continue : bool) :
  from_option loaded_client True clnt →
  parseAddrClient_IA now fuel f buf clnt unicast
  = Ret (continue, clnt', unicast', f') →
  from_option loaded_client True clnt'.
Proof.
  intros Hc H. unfold parseAddrClient_IA, parseAddrIA in H.
  res_cases H; try done;
    match goal with
    | Hx : parseAddrIA_loop _ _ _ _ _ _ _ _ _ = Ret _ |- _ =>
      apply parseAddrIA_loop_loaded in Hx; [|done]
    end;
    destruct Hc as [Hias Hpds]; (split; [|done]); simpl;
    (apply Forall_app; split; [done|]); by constructor.
Qed.

Lemma parseAddrClient_PD_loaded (fuel : nat) (f f' : FILE)
    (buf buf' : string) (clnt clnt' : option TAddrClient)
    (unicast unicast' : option TIPv6Addr) (continue : bool) :
  from_option loaded_client True clnt →
  parseAddrClient_PD now fuel f buf clnt unicast
  = Ret (continue, buf', clnt', unicast', f') →
  from_option loaded_client True clnt'.
Proof.
  intros Hc H. unfold parseAddrClient_PD, parseAddrPD in H.
  res_cases H; try done;
    match goal with
    | Hx : parseAddrPD_loop _ _ _ _ _ _ _ _ _ _ = Ret _ |- _ =>
      apply parseAddrPD_loop_loaded in Hx; [|done]
    end;
    destruct Hc as [Hias Hpds]; (split; [done|]); simpl;
    (apply Forall_app; split; [done|]); by constructor.
Qed.

Lemma parseAddrClient_end_loaded (clnt : option TAddrClient)
    (reconfKey : list Z) :
  from_option loaded_client True clnt →
  from_option loaded_client True (parseAddrClient_end clnt reconfKey).
Proof. by destruct clnt. Qed.

Lemma parseAddrClient_loop_loaded (fuel : nat) (f f' : FILE)
    (clnt r : option TAddrClient) (unicast : option TIPv6Addr)
    (reconfKey : list Z) :
  from_option loaded_client True clnt →
  parseAddrClient_loop now fuel f clnt unicast reconfKey = Ret (r, f') →
  from_option loaded_client True r.
Proof.
  revert f clnt unicast reconfKey.
  induction fuel as [|fuel IH]; intros f clnt unicast reconfKey Hc H; [done|].
  simpl in H. res_cases H;
    repeat match goal with
           | Hx : parseAddrClient_IA _ _ _ _ _ _ = Ret _ |- _ =>
             apply parseAddrClient_IA_loaded in Hx; [|done]
           | Hx : parseAddrClient_PD _ _ _ _ _ _ = Ret _ |- _ =>
             apply parseAddrClient_PD_loaded in Hx; [|done]
           end;
    try (eapply IH; [|done]); try done;
    by apply parseAddrClient_end_loaded.
Qed.

Lemma xmlLoadBuiltIn_loop_loaded (fuel : nat) (f : FILE) (m m' : TAddrMgr)
    (AddrMgrTag r : bool) (clnt : option TAddrClient) :
  xmlLoadBuiltIn_loop now fuel f m AddrMgrTag clnt = Ret (r, m') →
  ∃ new, ClntsLst m' = (ClntsLst m ++ new)%list ∧ Forall loaded_client new.
Proof.
  revert f m AddrMgrTag clnt.
  induction fuel as [|fuel IH]; intros f m tag clnt H; [done|].
  simpl in H. unfold parseAddrClient in H. res_cases H;
    try (by exists []; rewrite app_nil_r);
    try (apply IH in H as (new & Hnew & Hall); by exists new).
  apply IH in H as (new & Hnew & Hall).
  match goal with
  | Hx : parseAddrClient_loop _ _ _ _ _ _ = Ret _ |- _ =>
    apply parseAddrClient_loop_loaded in Hx; [|done]
  end.
  eexists (_ :: new). split.
  - rewrite Hnew. simpl. by rewrite <- app_assoc.
  - by constructor.
Qed.

(** *** The counter is set by [<replayDetection>] lines only *)

Lemma xmlLoadBuiltIn_loop_counter (fuel : nat) (f : FILE) (m m' : TAddrMgr)
    (AddrMgrTag r : bool) (clnt : option TAddrClient) :
  find "<replayDetection>" (unread f) = None →
  xmlLoadBuiltIn_loop now fuel f m AddrMgrTag clnt = Ret (r, m') →
  ReplayDetectionValue_ m' = ReplayDetectionValue_ m.
Proof.
  revert f m AddrMgrTag clnt.
  induction fuel as [|fuel IH]; intros f m tag clnt Hf H; [done|].
  simpl in H. unfold parseAddrClient in H. res_cases H; try done;
    match goal with
    | Hg : fgets f = (Some ?buf, ?f0) |- _ =>
      pose proof (fgets_find _ _ _ _ Hg Hf) as Hbuf;
      pose proof (advances_find _ _ _ (fgets_advances _ _ _ Hg) Hf) as Hf0
    end;
    try congruence;
    try (apply IH in H; [done|done]).
  all: match goal with
       | Hc : parseAddrClient_loop _ _ _ _ _ _ = Ret (_, ?f1) |- _ =>
         pose proof (advances_find _ _ _
                       (parseAddrClient_loop_advances _ _ _ _ _ _ _ Hc) Hf0)
           as Hf1
       end.
  all: by apply IH in H.
Qed.

(** *** A snapshot without the [<AddrMgr>] line *)

Lemma xmlLoadBuiltIn_loop_no_tag (fuel : nat) (f : FILE) (m : TAddrMgr) :
  (String.length (unread f) < fuel)%nat →
  find "<AddrMgr>" (unread f) = None →
  ∃ m', xmlLoadBuiltIn_loop now fuel f m false None = Ret (false, m')
        ∧ ClntsLst m' = ClntsLst m.
Proof.
  revert f m. induction fuel as [|fuel IH]; intros f m Hlen Hf; [lia|].
  simpl. destruct (feof f); [by exists m|].
  destruct (fgets f) as [[buf|] f0] eqn:Hgets; [|by exists m].
  pose proof (fgets_find _ _ _ _ Hgets Hf) as Hbuf.
  pose proof (advances_find _ _ _ (fgets_advances _ _ _ Hgets) Hf) as Hf0.
  apply fgets_shorter in Hgets.
  rewrite Hbuf. change (found None) with false. cbv iota.
  destruct (found (strstr buf "<timestamp>")); [apply IH; [lia|done]|].
  destruct (strstr buf "<replayDetection>") as [x|] eqn:Hx.
  - change 17%nat with (String.length "<replayDetection>").
    rewrite (strstr_str_at _ _ _ Hx).
    unfold mbind, res_bind.
    edestruct IH as (m' & -> & Hm'); [|done|]; [lia|].
    by exists m'.
  - simpl. unfold mbind, res_bind, mret, res_ret.
    destruct (found (strstr buf "</AddrMgr>")); [by exists m|].
    apply IH; [lia|done].
Qed.

(** Client blocks count only behind a line with [<AddrMgr>]: from a file
    without such a line no client is loaded, whatever else it holds, and
    the reader returns false. *)
Theorem xmlLoadBuiltIn_outside_AddrMgr (content : string) (m : TAddrMgr) :
  find "<AddrMgr>" content = None →
  ∃ m', xmlLoadBuiltIn now (Some content) m = Ret (false, m')
        ∧ ClntsLst m' = ClntsLst m.
Proof.
  intros Hfind. unfold xmlLoadBuiltIn.
  apply (xmlLoadBuiltIn_loop_no_tag (S (String.length content))
           (fopen content) m); [|done].
  unfold fopen, unread. lia.
Qed.

(** *** A snapshot without a [<duid] line *)

Lemma parseAddrClient_IA_None (fuel : nat) (f f' : FILE) (buf : string)
    (clnt' : option TAddrClient) (unicast unicast' : option TIPv6Addr)
    (continue : bool) :
  parseAddrClient_IA now fuel f buf None unicast
  = Ret (continue, clnt', unicast', f') →
  clnt' = None.
Proof.
  intros H. unfold parseAddrClient_IA in H. by res_cases H.
Qed.

Lemma parseAddrClient_PD_None (fuel : nat) (f f' : FILE) (buf buf' : string)
    (clnt' : option TAddrClient) (unicast unicast' : option TIPv6Addr)
    (continue : bool) :
  parseAddrClient_PD now fuel f buf None unicast
  = Ret (continue, buf', clnt', unicast', f') →
  clnt' = None.
Proof.
  intros H. unfold parseAddrClient_PD in H. by res_cases H.
Qed.

(** In the hypotheses: a needle that is not in what is unread is not in
    what is unread later. *)
Ltac not_found p :=
  repeat match goal with
         | Hf : find p (unread ?f) = None,
           Hg : fgets ?f = (Some ?buf, ?f0) |- _ =>
           pose proof (fgets_find _ _ _ _ Hg Hf);
           pose proof (advances_find _ _ _ (fgets_advances _ _ _ Hg) Hf);
           clear Hg
         | Hf : find p (unread ?f) = None,
           Hx : parseAddrClient_IA _ _ ?f _ _ _ = Ret _ |- _ =>
           pose proof (advances_find _ _ _
                         (parseAddrClient_IA_advances _ _ _ _ _ _ _ _ _ Hx)
                         Hf);
           first [apply parseAddrClient_IA_None in Hx; simplify_eq|clear Hx]
         | Hf : find p (unread ?f) = None,
           Hx : parseAddrClient_PD _ _ ?f _ _ _ = Ret _ |- _ =>
           pose proof (advances_find _ _ _
                         (parseAddrClient_PD_advances _ _ _ _ _ _ _ _ _ _ Hx)
                         Hf);
           first [apply parseAddrClient_PD_None in Hx; simplify_eq|clear Hx]
         | Hf : find p (unread ?f) = None,
           Hx : parseAddrTA _ ?f = Ret _ |- _ =>
           pose proof (advances_find _ _ _
                         (parseAddrTA_advances _ _ _ _ Hx) Hf);
           clear Hx
         | Hf : find p (unread ?f) = None,
           Hx : parseAddrClient_loop _ _ ?f _ _ _ = Ret _ |- _ =>
           pose proof (advances_find _ _ _
                         (parseAddrClient_loop_advances _ _ _ _ _ _ _ Hx)
                         Hf);
           revert Hx
         end;
  intros.

Lemma parseAddrClient_loop_no_duid (fuel : nat) (f f' : FILE)
    (unicast : option TIPv6Addr) (reconfKey : list Z)
    (r : option TAddrClient) :
  find "<duid" (unread f) = None →
  parseAddrClient_loop now fuel f None unicast reconfKey = Ret (r, f') →
  r = None.
Proof.
  revert f unicast reconfKey.
  induction fuel as [|fuel IH]; intros f unicast reconfKey Hf H; [done|].
  simpl in H. res_cases H; try done; not_found "<duid"; try done;
    try match goal with
        | Hs : strstr ?s ?p = None, Ht : found (strstr ?s ?p) = true |- _ =>
          by rewrite Hs in Ht
        end;
    (eapply IH; [|eassumption]; assumption).
Qed.

Lemma xmlLoadBuiltIn_loop_no_duid (fuel : nat) (f : FILE) (m m' : TAddrMgr)
    (AddrMgrTag r : bool) :
  find "<duid" (unread f) = None →
  xmlLoadBuiltIn_loop now fuel f m AddrMgrTag None = Ret (r, m') →
  r = false ∧ ClntsLst m' = ClntsLst m.
Proof.
  revert f m AddrMgrTag.
  induction fuel as [|fuel IH]; intros f m tag Hf H; [done|].
  simpl in H. unfold parseAddrClient in H. res_cases H; try done;
    match goal with
    | Hg : fgets f = (Some ?buf, ?f0) |- _ =>
      pose proof (advances_find _ _ _ (fgets_advances _ _ _ Hg) Hf) as Hf0
    end;
    try match goal with
        | Hx : parseAddrClient_loop _ _ _ _ _ _ = Ret _ |- _ =>
          pose proof (advances_find _ _ _
                        (parseAddrClient_loop_advances _ _ _ _ _ _ _ Hx) Hf0);
          apply parseAddrClient_loop_no_duid in Hx; [|done]
        end;
    try done; (apply IH in H; [|assumption]; exact H).
Qed.

(** A client is made by the [<duid] line of its block: from a file without
    such a line no client is loaded, and the reader returns false. *)
Theorem xmlLoadBuiltIn_no_duid (content : string) (m : TAddrMgr) :
  find "<duid" content = None →
  xmlLoadBuiltIn now (Some content) m ≠ OutOfFuel
  ∧ ∀ (r : bool) (m' : TAddrMgr),
      xmlLoadBuiltIn now (Some content) m = Ret (r, m') →
      r = false ∧ ClntsLst m' = ClntsLst m.
Proof.
  intros Hfind. split; [apply xmlLoadBuiltIn_total|].
  intros r m' H. unfold xmlLoadBuiltIn in H.
  exact (xmlLoadBuiltIn_loop_no_duid _ (fopen content) _ _ _ _ Hfind H).
Qed.

(** *** The leases, assignments and clients the reader keeps *)

Lemma to_uint32_nonzero (z : Z) :
  negb (to_uint32 z =? 0)%Z = true → (0 < to_uint32 z < 2 ^ 32)%Z.
Proof.
  intros Hz%negb_true_iff%Z.eqb_neq. unfold to_uint32 in *.
  pose proof (Z.mod_pos_bound z (2 ^ 32)%Z). lia.
Qed.

Lemma to_ulong_nonzero (z : Z) :
  negb (to_ulong z =? 0)%Z = true → (0 < to_ulong z < 2 ^ 64)%Z.
Proof.
  intros Hz%negb_true_iff%Z.eqb_neq. unfold to_ulong in *.
  pose proof (Z.mod_pos_bound z (2 ^ 64)%Z). lia.
Qed.

Lemma parseAddrAddr_kept (buf buf' : string) (pd : bool) (a : TAddrAddr) :
  parseAddrAddr now buf pd = Ret (Some a, buf') →
  (0 < addr_Timestamp a < 2 ^ 32 ∧ 0 < addr_Pref a < 2 ^ 32
   ∧ 0 < addr_Valid a < 2 ^ 32)%Z.
Proof.
  intros H. unfold parseAddrAddr in H.
  unfold fmap, res_fmap in H. res_cases H; simpl;
    repeat match goal with
           | Hc : _ && _ = true |- _ => apply andb_prop in Hc as [??]
           end;
    auto using to_uint32_nonzero.
Qed.

Lemma parseAddrPrefix_kept (buf buf' : string) (pd : bool)
    (p : TAddrPrefix) :
  parseAddrPrefix now buf pd = Ret (Some p, buf') →
  (0 < prefix_Timestamp p < 2 ^ 64 ∧ 0 < prefix_Pref p < 2 ^ 64
   ∧ 0 < prefix_Valid p < 2 ^ 64)%Z.
Proof.
  intros H. unfold parseAddrPrefix in H.
  unfold fmap, res_fmap in H. res_cases H; simpl;
    repeat match goal with
           | Hc : _ && _ = true |- _ => apply andb_prop in Hc as [??]
           end;
    auto using to_ulong_nonzero.
Qed.

Lemma parseAddrIA_addr_parsed (ia r : option TAddrIA) (buf buf' : string) :
  from_option parsed_IA True ia →
  parseAddrIA_addr now ia buf = Ret (r, buf') →
  from_option parsed_IA True r.
Proof.
  intros Hia H. unfold parseAddrIA_addr in H. res_cases H; try done.
  destruct Hia as (Hty & Hpl & Hall). split_and!; [done..|]. simpl.
  apply Forall_app. split; [done|]. constructor; [|done].
  match goal with
  | Hx : parseAddrAddr _ _ _ = Ret _ |- _ =>
    apply parseAddrAddr_kept in Hx as (? & ? & ?)
  end.
  unfold kept_addr. simpl. tauto.
Qed.

Lemma parseAddrPD_prefix_parsed (ptrpd r : option TAddrIA)
    (buf buf' : string) :
  from_option parsed_PD True ptrpd →
  parseAddrPD_prefix now ptrpd buf = Ret (r, buf') →
  from_option parsed_PD True r.
Proof.
  intros Hpd H. unfold parseAddrPD_prefix in H. res_cases H; try done.
  destruct Hpd as (Hty & Hal & Hall). split_and!; [done..|]. simpl.
  apply Forall_app. split; [done|]. constructor; [|done].
  match goal with
  | Hx : parseAddrPrefix _ _ _ = Ret _ |- _ =>
    apply parseAddrPrefix_kept in Hx as (? & ? & ?)
  end.
  unfold kept_prefix. simpl. tauto.
Qed.

Lemma parseAddrIA_dns_parsed (ia r : option TAddrIA) (buf : string) :
  from_option parsed_IA True ia →
  parseAddrIA_dns ia buf = Ret r →
  from_option parsed_IA True r.
Proof.
  intros Hia H. unfold parseAddrIA_dns in H. res_cases H; try done.
  by destruct ia.
Qed.

Lemma parseAddrIA_fqdn_parsed (ia r : option TAddrIA) (buf : string) :
  from_option parsed_IA True ia →
  parseAddrIA_fqdn ia buf = Ret r →
  from_option parsed_IA True r.
Proof.
  intros Hia H. unfold parseAddrIA_fqdn in H. res_cases H; try done.
  by destruct ia.
Qed.

Lemma parseAddrIA_loop_parsed (fuel : nat) (f f' : FILE) (t1 t2 iaid : Z)
    (ifacename : string) (ifindex : Z) (ia r : option TAddrIA) :
  from_option parsed_IA True ia →
  parseAddrIA_loop now fuel f t1 t2 iaid ifacename ifindex ia = Ret (r, f') →
  from_option parsed_IA True r.
Proof.
  revert f ia. induction fuel as [|fuel IH]; intros f ia Hia H; [done|].
  simpl in H. res_cases H;
    repeat match goal with
           | Hx : parseAddrIA_addr _ _ _ = Ret _ |- _ =>
             apply parseAddrIA_addr_parsed in Hx; [|done]
           | Hx : parseAddrIA_dns _ _ = Ret _ |- _ =>
             apply parseAddrIA_dns_parsed in Hx; [|done]
           | Hx : parseAddrIA_fqdn _ _ = Ret _ |- _ =>
             apply parseAddrIA_fqdn_parsed in Hx; [|done]
           end;
    try (eapply IH; [|done]); try done;
    try (by destruct ia); try (by destruct o).
Qed.

Lemma parseAddrPD_loop_parsed (fuel : nat) (f f' : FILE) (t1 t2 iaid : Z)
    (ifacename : string) (ifindex : Z) (unicast : option TIPv6Addr)
    (ptrpd r : option TAddrIA) :
  from_option parsed_PD True ptrpd →
  parseAddrPD_loop now fuel f t1 t2 iaid ifacename ifindex unicast ptrpd
  = Ret (r, f') →
  from_option parsed_PD True r.
Proof.
  revert f ptrpd. induction fuel as [|fuel IH]; intros f ptrpd Hpd H; [done|].
  simpl in H. res_cases H;
    repeat match goal with
           | Hx : parseAddrPD_prefix _ _ _ = Ret _ |- _ =>
             apply parseAddrPD_prefix_parsed in Hx; [|done]
           end;
    try (eapply IH; [|done]); try done;
    try (by destruct ptrpd); try (by destruct o).
Qed.

Lemma parseAddrClient_IA_parsed (fuel : nat) (f f' : FILE) (buf : string)
    (clnt clnt' : option TAddrClient) (unicast unicast' : option TIPv6Addr)
    (continue : bool) :
  from_option parsed_client True clnt →
  parseAddrClient_IA now fuel f buf clnt unicast
  = Ret (continue, clnt', unicast', f') →
  from_option parsed_client True clnt'.
Proof.
  intros Hc H. unfold parseAddrClient_IA, parseAddrIA in H.
  res_cases H; try done;
    match goal with
    | Hx : parseAddrIA_loop _ _ _ _ _ _ _ _ _ = Ret _ |- _ =>
      apply parseAddrIA_loop_parsed in Hx; [|done]
    end;
    match goal with
    | Hn : negb (bool_decide (countAddr _ = 0%nat)) = true |- _ =>
      apply negb_true_iff, bool_decide_eq_false in Hn;
      unfold countAddr in Hn; rewrite length_zero_nil in Hn
    end;
    destruct Hc as (Hta & Hias & Hpds); (split_and!; [done| |done]); simpl;
    (apply Forall_app; split; [done|]); by constructor.
Qed.

Lemma parseAddrClient_PD_parsed (fuel : nat) (f f' : FILE)
    (buf buf' : string) (clnt clnt' : option TAddrClient)
    (unicast unicast' : option TIPv6Addr) (continue : bool) :
  from_option parsed_client True clnt →
  parseAddrClient_PD now fuel f buf clnt unicast
  = Ret (continue, buf', clnt', unicast', f') →
  from_option parsed_client True clnt'.
Proof.
  intros Hc H. unfold parseAddrClient_PD, parseAddrPD in H.
  res_cases H; try done;
    match goal with
    | Hx : parseAddrPD_loop _ _ _ _ _ _ _ _ _ _ = Ret _ |- _ =>
      apply parseAddrPD_loop_parsed in Hx; [|done]
    end;
    match goal with
    | Hn : negb (bool_decide (countPrefix _ = 0%nat)) = true |- _ =>
      apply negb_true_iff, bool_decide_eq_false in Hn;
      unfold countPrefix in Hn; rewrite length_zero_nil in Hn
    end;
    destruct Hc as (Hta & Hias & Hpds); (split_and!; [done|done|]); simpl;
    (apply Forall_app; split; [done|]); by constructor.
Qed.

Lemma parseAddrClient_loop_parsed (fuel : nat) (f f' : FILE)
    (clnt r : option TAddrClient) (unicast : option TIPv6Addr)
    (reconfKey : list Z) :
  from_option parsed_client True clnt →
  parseAddrClient_loop now fuel f clnt unicast reconfKey = Ret (r, f') →
  from_option parsed_client True r.
Proof.
  revert f clnt unicast reconfKey.
  induction fuel as [|fuel IH]; intros f clnt unicast reconfKey Hc H; [done|].
  simpl in H. res_cases H;
    repeat match goal with
           | Hx : parseAddrClient_IA _ _ _ _ _ _ = Ret _ |- _ =>
             apply parseAddrClient_IA_parsed in Hx; [|done]
           | Hx : parseAddrClient_PD _ _ _ _ _ _ = Ret _ |- _ =>
             apply parseAddrClient_PD_parsed in Hx; [|done]
           end;
    try (eapply IH; [|done]); try done;
    match goal with
    | |- from_option _ _ (parseAddrClient_end ?c _) => by destruct c
    end.
Qed.

Lemma xmlLoadBuiltIn_loop_kept (fuel : nat) (f : FILE) (m m' : TAddrMgr)
    (AddrMgrTag r : bool) (clnt : option TAddrClient) :
  xmlLoadBuiltIn_loop now fuel f m AddrMgrTag clnt = Ret (r, m') →
  ∃ new, ClntsLst m' = (ClntsLst m ++ new)%list ∧ Forall kept_client new.
Proof.
  revert f m AddrMgrTag clnt.
  induction fuel as [|fuel IH]; intros f m tag clnt H; [done|].
  simpl in H. unfold parseAddrClient in H. res_cases H;
    try (by exists []; rewrite app_nil_r);
    try (apply IH in H as (new & Hnew & Hall); by exists new).
  apply IH in H as (new & Hnew & Hall).
  match goal with
  | Hx : parseAddrClient_loop _ _ _ _ _ _ = Ret _ |- _ =>
    apply parseAddrClient_loop_parsed in Hx as Hp; [|done]
  end.
  eexists (_ :: new). split.
  - rewrite Hnew. simpl. by rewrite <- app_assoc.
  - constructor; [|done]. split; [done|]. simpl in Hp.
    destruct Hp as (Hta & _).
    match goal with
    | Hn : (0 <? _)%nat = true |- _ =>
      apply Nat.ltb_lt in Hn; unfold countIA, countTA, countPD in Hn;
      rewrite Hta in Hn; simpl in Hn
    end.
    match goal with
    | |- IAsLst ?c ≠ [] ∨ _ =>
      destruct (IAsLst c); [right; destruct (PDLst c); [simpl in *; lia|done]
                           |by left]
    end.
Qed.

(** What [xmlLoadBuiltIn] adds to the manager when it runs to its return:
    clients without TAs (those blocks are skipped) that have an IA or a
    PD; IAs that hold addresses and PDs that hold prefixes, none of them
    empty; and only leases with a timestamp and lifetimes other than zero
    that the hook of the daemon accepted. *)
Theorem xmlLoadBuiltIn_kept (file : option string) (m : TAddrMgr) :
  xmlLoadBuiltIn now file m ≠ OutOfFuel
  ∧ ∀ (r : bool) (m' : TAddrMgr),
      xmlLoadBuiltIn now file m = Ret (r, m') →
      ∃ new, ClntsLst m' = (ClntsLst m ++ new)%list
             ∧ Forall kept_client new.
Proof.
  split; [apply xmlLoadBuiltIn_total|].
  intros r m' H. destruct file as [content|].
  - unfold xmlLoadBuiltIn in H.
    exact (xmlLoadBuiltIn_loop_kept _ _ _ _ _ _ _ H).
  - injection H as <- <-. exists []. by rewrite app_nil_r.
Qed.

(** With a daemon whose hooks accept no address and no prefix, a reader
    that runs to its return has added no client, whatever the file holds:
    every assignment ends up without lease and is dropped, and so is every
    client. *)
Theorem xmlLoadBuiltIn_all_rejected (file : option string) (m m' : TAddrMgr)
    (r : bool) :
  (∀ a, verifyAddr a = false) → (∀ p, verifyPrefix p = false) →
  xmlLoadBuiltIn now file m = Ret (r, m') →
  ClntsLst m' = ClntsLst m.
Proof.
  intros Haddr Hprefix H.
  assert (∃ new, ClntsLst m' = (ClntsLst m ++ new)%list
                 ∧ Forall kept_client new) as (new & -> & Hkept).
  { destruct file as [content|].
    - unfold xmlLoadBuiltIn in H.
      exact (xmlLoadBuiltIn_loop_kept _ _ _ _ _ _ _ H).
    - injection H as <- <-. exists []. by rewrite app_nil_r. }
  destruct new as [|c new]; [by rewrite app_nil_r|]. exfalso.
  apply Forall_cons in Hkept as [[(_ & Hias & Hpds) Hsome] _].
  destruct Hsome as [Hsome|Hsome].
  - destruct (IAsLst c) as [|ia ias]; [done|].
    apply Forall_cons in Hias as [[(_ & _ & Hall) Hne] _].
    destruct (AddrLst ia) as [|a l]; [done|].
    apply Forall_cons in Hall as [(_ & _ & _ & Hok) _].
    by rewrite Haddr in Hok.
  - destruct (PDLst c) as [|pd pds]; [done|].
    apply Forall_cons in Hpds as [[(_ & _ & Hall) Hne] _].
    destruct (PrefixLst pd) as [|p l]; [done|].
    apply Forall_cons in Hall as [(_ & _ & _ & Hok) _].
    by rewrite Hprefix in Hok.
Qed.

(** *** What the reader leaves alone *)

Lemma xmlLoadBuiltIn_loop_flags (fuel : nat) (f : FILE) (m m' : TAddrMgr)
    (AddrMgrTag r : bool) (clnt : option TAddrClient) :
  xmlLoadBuiltIn_loop now fuel f m AddrMgrTag clnt = Ret (r, m') →
  IsDone m' = IsDone m ∧ XmlFile m' = XmlFile m
  ∧ DeleteEmptyClient m' = DeleteEmptyClient m.
Proof.
  revert f m AddrMgrTag clnt.
  induction fuel as [|fuel IH]; intros f m tag clnt H; [done|].
  simpl in H. unfold parseAddrClient in H.
  res_cases H; try done; by apply IH in H.
Qed.

End ReaderFacts.

(** ** The constructor *)

Section ConstructorFacts.
Context {ext : Externals}.
Variable base : Daemon.
Variable now : Z.

(** The constructor with the file it may load, for whatever the hooks of
    [TAddrMgr] itself are.  It comes to an end.  The manager it builds has
    the file name given, is not done, and deletes empty clients, whatever
    the file held.  Without loading, and with loading when there is no
    file, it is the empty manager with counter 0. *)
Theorem TAddrMgr_ctor_spec (file : option string) (xmlFile : string)
    (loadfile uninitialized : bool) :
  TAddrMgr_ctor base now file xmlFile loadfile uninitialized ≠ OutOfFuel
  ∧ (∀ m, TAddrMgr_ctor base now file xmlFile loadfile uninitialized = Ret m →
          XmlFile m = xmlFile ∧ IsDone m = false
          ∧ DeleteEmptyClient m = true)
  ∧ TAddrMgr_ctor base now file xmlFile false uninitialized
    = Ret (new_TAddrMgr xmlFile)
  ∧ TAddrMgr_ctor base now None xmlFile loadfile uninitialized
    = Ret (new_TAddrMgr xmlFile).
Proof.
  unfold TAddrMgr_ctor, dbLoad. split_and!.
  - destruct loadfile; [|done]. intros H.
    pose proof (xmlLoadBuiltIn_total (daemon := base) now file
                  (mkAddrMgr [] 0 false xmlFile uninitialized)) as Hend.
    unfold fmap, res_fmap, mbind, res_bind in H.
    by destruct (xmlLoadBuiltIn now file _).
  - intros m H. destruct loadfile;
      [|unfold mbind, res_bind, mret, res_ret in H; by simplify_eq/=].
    unfold fmap, res_fmap, mbind, res_bind, mret, res_ret in H.
    destruct (xmlLoadBuiltIn now file _) as [[r m']| |] eqn:Hload;
      [|done..].
    simplify_eq/=.
    destruct file as [content|];
      [|unfold xmlLoadBuiltIn, mret, res_ret in Hload; by simplify_eq/=].
    unfold xmlLoadBuiltIn in Hload.
    by apply xmlLoadBuiltIn_loop_flags in Hload as (-> & -> & _).
  - done.
  - by destruct loadfile.
Qed.

End ConstructorFacts.

(** ** What the reader does with a lease line, and what it returns *)

Section ReaderProperties.
Context {ext : Externals} {daemon : Daemon}.
Variable now : Z.
Local Open Scope string_scope.

Lemma parse_body_Some (buf closing : string) (body : option TIPv6Addr)
    (buf' : string) :
  parse_body buf closing = Ret (body, buf') →
  (is_Some body ↔ is_Some (strstr buf ">")).
Proof.
  unfold parse_body. intros H.
  unfold mbind, res_bind, mret, res_ret in H.
  repeat (case_match; simplify_eq); split; intros [? ?]; by eauto.
Qed.

(** Closes the cases of the theorem below in which the lease is dropped. *)
Ltac discarded H :=
  simpl in H; repeat (case_match; simplify_eq/=); simplify_eq/=;
  split_and!; try done; right; (split; [done|]); eauto 10.

(** C6.  A line with [<AddrAddr] read inside an IA block: the lease is
    added to the assignment exactly when an assignment is open (the [duid]
    line of the block was read), the line holds a [>] (behind which the
    address object is built, whether or not the text there is an address),
    the attributes [timestamp], [pref] and [valid] all convert to a value
    other than zero, and [verifyAddr] accepts the address object; it is
    added with tentative status no.  In every other case the assignment is
    left as it was.  The same holds for a line with [<AddrPrefix] inside a
    PD block, with [verifyPrefix]. *)
Theorem lease_line_spec :
  (∀ (ia r : option TAddrIA) (buf buf' : string),
     found (strstr buf "<AddrAddr") = true →
     parseAddrIA_addr now ia buf = Ret (r, buf') →
     ∃ (ts pref valid prefix : Z) (body : option TIPv6Addr),
       attr buf "timestamp" 11 0 = Ret ts
       ∧ attr buf "pref=" 6 0 = Ret pref
       ∧ attr buf "valid" 7 0 = Ret valid
       ∧ attr buf "prefix=" 8 CLIENT_DEFAULT_PREFIX_LENGTH = Ret prefix
       ∧ parse_body buf "</AddrAddr>" = Ret (body, buf')
       ∧ (is_Some body ↔ is_Some (strstr buf ">"))
       ∧ ((∃ a addr,
             ia = Some a ∧ body = Some addr
             ∧ to_uint32 ts ≠ 0 ∧ to_uint32 pref ≠ 0 ∧ to_uint32 valid ≠ 0
             ∧ verifyAddr addr = true
             ∧ r = Some (IA_addAddr
                           (mkAddrAddr addr (to_uint32 pref) (to_uint32 valid)
                              prefix (to_uint32 ts) ADDRSTATUS_NO) a))
          ∨ (r = ia
             ∧ (ia = None ∨ body = None
                ∨ to_uint32 ts = 0 ∨ to_uint32 pref = 0 ∨ to_uint32 valid = 0
                ∨ ∃ addr, body = Some addr ∧ verifyAddr addr = false))))
  ∧ (∀ (ptrpd r : option TAddrIA) (buf buf' : string),
       found (strstr buf "<AddrPrefix") = true →
       parseAddrPD_prefix now ptrpd buf = Ret (r, buf') →
       ∃ (ts pref valid length : Z) (body : option TIPv6Addr),
         attr buf "timestamp" 11 0 = Ret ts
         ∧ attr buf "pref=" 6 0 = Ret pref
         ∧ attr buf "valid" 7 0 = Ret valid
         ∧ attr buf "length=" 8 0 = Ret length
         ∧ parse_body buf "</AddrPrefix>" = Ret (body, buf')
         ∧ (is_Some body ↔ is_Some (strstr buf ">"))
         ∧ ((∃ pd addr,
               ptrpd = Some pd ∧ body = Some addr
               ∧ to_ulong ts ≠ 0 ∧ to_ulong pref ≠ 0 ∧ to_ulong valid ≠ 0
               ∧ verifyPrefix addr = true
               ∧ r = Some (IA_addPrefix_obj
                             (mkAddrPrefix addr (to_ulong pref)
                                (to_ulong valid) (to_ulong length)
                                (to_ulong ts) ADDRSTATUS_NO) pd))
            ∨ (r = ptrpd
               ∧ (ptrpd = None ∨ body = None
                  ∨ to_ulong ts = 0 ∨ to_ulong pref = 0 ∨ to_ulong valid = 0
                  ∨ ∃ addr, body = Some addr ∧ verifyPrefix addr = false)))).
Proof.
  split.
  - intros ia r buf buf' Hline H.
    unfold parseAddrIA_addr, parseAddrAddr in H. rewrite Hline in H.
    simpl in H. unfold fmap, res_fmap, mbind, res_bind, mret, res_ret in H.
    destruct (attr buf "timestamp" 11 0) as [ts| |]; try done.
    destruct (attr buf "pref=" 6 0) as [pref| |]; try done.
    destruct (attr buf "valid" 7 0) as [valid| |]; try done.
    destruct (attr buf "prefix=" 8 CLIENT_DEFAULT_PREFIX_LENGTH)
      as [prefix| |]; try done.
    destruct (parse_body buf "</AddrAddr>") as [[body buf'']| |] eqn:Hbody;
      try done.
    pose proof (parse_body_Some _ _ _ _ Hbody) as Hgt.
    exists ts, pref, valid, prefix, body.
    destruct body as [addr|].
    + destruct (Z.eqb_spec (to_uint32 ts) 0) as [Hts|Hts]; [discarded H|].
      destruct (Z.eqb_spec (to_uint32 pref) 0) as [Hpref|Hpref];
        [discarded H|].
      destruct (Z.eqb_spec (to_uint32 valid) 0) as [Hvalid|Hvalid];
        [discarded H|].
      destruct ia as [a|]; [|discarded H].
      simpl in H. destruct (verifyAddr addr) eqn:Hv; simplify_eq/=;
        split_and!; try done.
      * left. exists a, addr. by split_and!.
      * right. split; [done|]. do 5 right. by exists addr.
    + discarded H.
  - intros ptrpd r buf buf' Hline H.
    unfold parseAddrPD_prefix, parseAddrPrefix in H. rewrite Hline in H.
    rewrite orb_true_r in H.
    simpl in H. unfold fmap, res_fmap, mbind, res_bind, mret, res_ret in H.
    destruct (attr buf "timestamp" 11 0) as [ts| |]; try done.
    destruct (attr buf "pref=" 6 0) as [pref| |]; try done.
    destruct (attr buf "valid" 7 0) as [valid| |]; try done.
    destruct (attr buf "length=" 8 0) as [length| |]; try done.
    destruct (parse_body buf "</AddrPrefix>") as [[body buf'']| |] eqn:Hbody;
      try done.
    pose proof (parse_body_Some _ _ _ _ Hbody) as Hgt.
    exists ts, pref, valid, length, body.
    destruct body as [addr|].
    + destruct (Z.eqb_spec (to_ulong ts) 0) as [Hts|Hts]; [discarded H|].
      destruct (Z.eqb_spec (to_ulong pref) 0) as [Hpref|Hpref];
        [discarded H|].
      destruct (Z.eqb_spec (to_ulong valid) 0) as [Hvalid|Hvalid];
        [discarded H|].
      destruct ptrpd as [pd|]; [|discarded H].
      simpl in H. destruct (verifyPrefix addr) eqn:Hv; simplify_eq/=;
        split_and!; try done.
      * left. exists pd, addr. by split_and!.
      * right. split; [done|]. do 5 right. by exists addr.
    + discarded H.
Qed.

(** C4.  [xmlLoadBuiltIn] comes to an end, and whatever it adds to the
    manager when it runs to its return: every PD is in state confirm-me;
    every IA is in the state its constructor gave it, since [parseAddrIA],
    unlike [parseAddrPD], sets no state; every lease kept in an IA or PD is
    marked not tentative.  A lease as [parseAddrAddr] or [parseAddrPrefix]
    builds it, before it is accepted, has tentative status unknown. *)
Theorem loaded_assignments_spec (file : option string) (m : TAddrMgr) :
  xmlLoadBuiltIn now file m ≠ OutOfFuel
  ∧ (∀ (r : bool) (m' : TAddrMgr),
       xmlLoadBuiltIn now file m = Ret (r, m') →
       ∃ new, ClntsLst m' = (ClntsLst m ++ new)%list
              ∧ Forall loaded_client new)
  ∧ (∀ buf pd a buf',
       parseAddrAddr now buf pd = Ret (Some a, buf') →
       addr_Tentative a = ADDRSTATUS_UNKNOWN)
  ∧ (∀ buf pd p buf',
       parseAddrPrefix now buf pd = Ret (Some p, buf') →
       prefix_Tentative p = ADDRSTATUS_UNKNOWN).
Proof.
  split_and!.
  - exact (xmlLoadBuiltIn_total now file m).
  - intros r m' H. destruct file as [content|].
    + unfold xmlLoadBuiltIn in H.
      exact (xmlLoadBuiltIn_loop_loaded now _ _ _ _ _ _ _ H).
    + injection H as <- <-. exists []. by rewrite app_nil_r.
  - intros buf pd a buf' Ha. unfold parseAddrAddr in Ha.
    unfold fmap, res_fmap, mbind, res_bind, mret, res_ret in Ha.
    by repeat (case_match; simplify_eq).
  - intros buf pd p buf' Hp. unfold parseAddrPrefix in Hp.
    unfold fmap, res_fmap, mbind, res_bind, mret, res_ret in Hp.
    by repeat (case_match; simplify_eq).
Qed.

(** C10.  [xmlLoadBuiltIn] returns false for a file that cannot be opened,
    and for every file that holds no client block: such a load leaves the
    clients of the manager as they were.  So it returns true only for a
    file with a client block. *)
Theorem xmlLoadBuiltIn_status (content : string) (m : TAddrMgr) :
  xmlLoadBuiltIn now None m = Ret (false, m)
  ∧ (find "<AddrClient" content = None →
     ∃ m', xmlLoadBuiltIn now (Some content) m = Ret (false, m')
           ∧ ClntsLst m' = ClntsLst m)
  ∧ (∀ m', xmlLoadBuiltIn now (Some content) m = Ret (true, m') →
           is_Some (find "<AddrClient" content)).
Proof.
  assert (find "<AddrClient" content = None →
          ∃ m', xmlLoadBuiltIn now (Some content) m = Ret (false, m')
                ∧ ClntsLst m' = ClntsLst m) as Hnone.
  { intros Hfind. unfold xmlLoadBuiltIn.
    apply (xmlLoadBuiltIn_loop_no_client now (S (String.length content))
             (fopen content) m false); [|done].
    unfold fopen, unread. lia. }
  split_and!; [done|done|].
  intros m' Htrue. destruct (find "<AddrClient" content) eqn:Hfind; [done|].
  destruct (Hnone eq_refl) as (m'' & Hfalse & _). congruence.
Qed.

End ReaderProperties.

(** ** The examples, evaluated *)

Section Evaluated.
Local Open Scope string_scope.

(** The theorem on loaded assignments at the example snapshot. *)
Lemma loaded_assignments_witness :
  xmlLoadBuiltIn (ext := example_platform) (daemon := example_daemon) 5000
    (Some example_snapshot) (new_TAddrMgr EmptyString)
  = Ret (true, example_loaded)
  ∧ (∃ new,
       ClntsLst example_loaded
       = (ClntsLst (new_TAddrMgr EmptyString) ++ new)%list
       ∧ Forall (loaded_client (ext := example_platform)) new).
Proof.
  assert (xmlLoadBuiltIn (ext := example_platform) (daemon := example_daemon)
            5000 (Some example_snapshot) (new_TAddrMgr EmptyString)
          = Ret (true, example_loaded)) as H by (vm_compute; reflexivity).
  split; [exact H|].
  exact (proj1 (proj2 (loaded_assignments_spec (ext := example_platform)
                         (daemon := example_daemon) 5000
                         (Some example_snapshot) (new_TAddrMgr EmptyString)))
           true example_loaded H).
Defined.

(** The IA of the example snapshot is loaded in the state its constructor
    gave it, which here is not confirm-me. *)
Lemma loaded_IA_not_confirmme :
  xmlLoadBuiltIn (ext := example_platform) (daemon := example_daemon) 5000
    (Some example_snapshot) (new_TAddrMgr EmptyString)
  = Ret (true, example_loaded)
  ∧ ∃ c ia,
      ClntsLst example_loaded = [c] ∧ IAsLst c = [ia]
      ∧ State ia = STATE_NOTCONFIGURED ∧ State ia ≠ STATE_CONFIRMME.
Proof.
  split; [vm_compute; reflexivity|].
  eexists _, _. split; [reflexivity|]. split; [reflexivity|]. by split.
Qed.

(** A lease line whose body is not an address is added all the same. *)
Lemma bad_lease_is_added :
  inet_pton6 (Externals := example_platform) "not-an-address" = None
  ∧ AddrLst example_IA = []
  ∧ ∃ ia' buf',
      parseAddrIA_addr (ext := example_platform) (daemon := example_daemon)
        5000 (Some example_IA) example_bad_lease = Ret (Some ia', buf')
      ∧ example_IA_bad_lease = Some ia'
      ∧ length (AddrLst ia') = 1%nat.
Proof.
  split; [reflexivity|]. split; [reflexivity|].
  destruct (parseAddrIA_addr (ext := example_platform)
              (daemon := example_daemon) 5000 (Some example_IA)
              example_bad_lease) as [[ia buf]| |] eqn:H;
    vm_compute in H; [|discriminate..].
  injection H as <- <-. eexists _, _. by split_and!.
Qed.

(** A well-formed snapshot whose only client ends up empty: nothing is
    added to the manager, and the reader returns true. *)
Lemma empty_client_returns_true :
  xmlLoadBuiltIn (ext := example_platform) (daemon := example_daemon) 5000
    (Some example_snapshot_empty_client) (new_TAddrMgr EmptyString)
  = Ret (true, setReplayDetectionValue 77 (new_TAddrMgr EmptyString))
  ∧ ClntsLst (setReplayDetectionValue 77 (new_TAddrMgr EmptyString)) = [].
Proof. split; [vm_compute; reflexivity|reflexivity]. Qed.

(** The theorem on the repeated call at a new manager: the second call,
    made when the clock shows 6000, adds nothing. *)
Lemma addPrefix_again_witness :
  addPrefix (ext := example_platform) 5000 (new_TAddrMgr EmptyString)
    (mkDUID [0; 1; 0; 1]%Z) None "eth0" 3 6 10 20
    (Some (mkIPv6Addr (536939960 * 2 ^ 96))) 100 200 48 false
  = (true, example_after_addPrefix)
  ∧ addPrefix (ext := example_platform) 6000 example_after_addPrefix
      (mkDUID [0; 1; 0; 1]%Z) None "eth0" 3 6 10 20
      (Some (mkIPv6Addr (536939960 * 2 ^ 96))) 100 200 48 false
    = (false, example_after_addPrefix).
Proof.
  assert (addPrefix (ext := example_platform) 5000 (new_TAddrMgr EmptyString)
            (mkDUID [0; 1; 0; 1]%Z) None "eth0" 3 6 10 20
            (Some (mkIPv6Addr (536939960 * 2 ^ 96))) 100 200 48 false
          = (true, example_after_addPrefix)) as H by (vm_compute; reflexivity).
  split; [exact H|].
  exact (addPrefix_again (ext := example_platform) 5000 _ _ _ _ _ _ _ _ _ _
           _ _ _ _ H 6000).
Defined.

(** The theorem on [updatePrefix] at the manager of the example, when the
    clock shows 6000: the lease of the prefix gets that time and the
    preferred lifetime 111 in both lifetimes; the valid lifetime 222 of the
    call is not used. *)
Lemma updatePrefix_spec_witness :
  ∃ c' pd' l',
    (updatePrefix 6000 example_after_addPrefix example_DUID None "eth0" 3 6
       11 21 example_prefix 111 222 48 false).1 = true
    ∧ getClient
        (updatePrefix 6000 example_after_addPrefix example_DUID None "eth0" 3
           6 11 21 example_prefix 111 222 48 false).2 example_DUID
      = Some c'
    ∧ findPD c' 6 = Some (0%nat, pd')
    ∧ findPrefix pd' example_prefix = Some (0%nat, l')
    ∧ prefix_Timestamp l' = 6000
    ∧ prefix_Pref l' = 111
    ∧ prefix_Valid l' = 111.
Proof.
  destruct (getClient example_after_addPrefix example_DUID) as [c|] eqn:Hc;
    [|discriminate Hc].
  destruct (findPD c 6) as [[j pd]|] eqn:Hpd;
    [|vm_compute in Hc; injection Hc as <-; discriminate Hpd].
  assert (j = 0%nat) as ->
    by (vm_compute in Hc; injection Hc as <-; by injection Hpd as <- _).
  destruct (findPrefix pd example_prefix) as [[k l]|] eqn:Hl;
    [|vm_compute in Hc; injection Hc as <-; injection Hpd as <-;
      discriminate Hl].
  assert (k = 0%nat) as ->
    by (vm_compute in Hc; injection Hc as <-; injection Hpd as <-;
        by injection Hl as <- _).
  destruct (proj1 (proj2
              (updatePrefix_spec 6000 example_after_addPrefix None
                 example_DUID None "eth0" 3 6 11 21 None example_prefix 111
                 222 48 false)) c 0%nat pd 0%nat l Hc Hpd Hl)
    as (c' & pd' & l' & Hok & Hc' & _ & Hpd' & Hl' & Ht & Hp & Hv & _).
  exists c', pd', l'. split_and!; assumption.
Defined.

(** The theorem on [updateInterfacesInfo] at the record of old: index 7
    and no name.  With the mappings of the example the call succeeds and
    the IA has the name eth0 and the index 7; with empty mappings it
    fails. *)
Lemma updateInterfacesInfo_spec_witness :
  (updateInterfacesInfo example_nameToIndex example_indexToName
     example_old_record).1 = true
  ∧ Forall2 (λ c c',
       clnt_DUID c' = clnt_DUID c ∧ SPI c' = SPI c
       ∧ ReconfKey_ c' = ReconfKey_ c
       ∧ Forall2 (interface_fixed example_nameToIndex example_indexToName)
           (IAsLst c) (IAsLst c')
       ∧ Forall2 (interface_fixed example_nameToIndex example_indexToName)
           (TALst c) (TALst c')
       ∧ Forall2 (interface_fixed example_nameToIndex example_indexToName)
           (PDLst c) (PDLst c'))
      (ClntsLst example_old_record)
      (ClntsLst (updateInterfacesInfo example_nameToIndex example_indexToName
                   example_old_record).2)
  ∧ Ifacename
      (updateInterfacesInfoIA example_nameToIndex example_indexToName
         (new_TAddrIA (ext := example_platform) 5000 EmptyString 7 IATYPE_IA
            None example_DUID 10 20 5)).2 = "eth0"
  ∧ Ifindex
      (updateInterfacesInfoIA example_nameToIndex example_indexToName
         (new_TAddrIA (ext := example_platform) 5000 EmptyString 7 IATYPE_IA
            None example_DUID 10 20 5)).2 = 7
  ∧ (updateInterfacesInfo ∅ ∅ example_old_record).1 = false.
Proof.
  assert ((updateInterfacesInfo example_nameToIndex example_indexToName
             example_old_record).1 = true) as Hok by reflexivity.
  pose proof (updateInterfacesInfo_spec example_nameToIndex
                example_indexToName example_old_record) as (Hia & _ & Hall).
  pose proof (proj1 (Hia (new_TAddrIA (ext := example_platform) 5000
                            EmptyString 7 IATYPE_IA None example_DUID 10 20
                            5)) eq_refl) as (_ & Hname & Hindex & _).
  split; [exact Hok|]. split; [exact (Hall Hok)|].
  split; [exact Hname|]. split; [exact Hindex|]. reflexivity.
Defined.

End Evaluated.

(** ** Decimal numbers in the snapshot *)

Section DecimalFacts.
Local Open Scope string_scope.
Local Open Scope Z_scope.

Lemma digit_of_nat (k : nat) :
  (k < 10)%nat → digit (ascii_of_nat (48 + k)) = Some (Z.of_nat k).
Proof.
  intros Hk. unfold digit. rewrite nat_ascii_embedding by lia.
  destruct (Nat.leb_spec 48 (48 + k)); [|lia].
  destruct (Nat.leb_spec (48 + k) 57); [|lia].
  simpl. f_equal. lia.
Qed.

Lemma digit_range (c : ascii) (d : Z) :
  digit c = Some d → (48 ≤ nat_of_ascii c ≤ 57)%nat.
Proof.
  unfold digit.
  destruct (Nat.leb_spec 48 (nat_of_ascii c));
    destruct (Nat.leb_spec (nat_of_ascii c) 57); by simpl.
Qed.

(** A digit is none of the characters the reader gives a meaning to. *)
Lemma digit_other (c : ascii) (d : Z) (k : nat) :
  digit c = Some d → (k < 48 ∨ 57 < k < 256)%nat →
  Ascii.eqb c (ascii_of_nat k) = false.
Proof.
  intros Hd%digit_range Hk. apply Ascii.eqb_neq. intros ->.
  rewrite nat_ascii_embedding in Hd by lia. lia.
Qed.

Lemma digit_not_space (c : ascii) (d : Z) :
  digit c = Some d → isspace c = false.
Proof.
  intros Hd%digit_range. unfold isspace.
  destruct (Nat.eqb_spec (nat_of_ascii c) 32); [lia|].
  destruct (Nat.leb_spec 9 (nat_of_ascii c));
    destruct (Nat.leb_spec (nat_of_ascii c) 13); simpl; try done. lia.
Qed.

Lemma all_digits_app (s t : string) :
  all_digits (s +:+ t) = all_digits s && all_digits t.
Proof.
  induction s as [|c s IH]; [done|]. rewrite sapp_cons. simpl.
  by rewrite IH, andb_assoc.
Qed.

Lemma no_newline_app (s t : string) :
  no_newline (s +:+ t) = no_newline s && no_newline t.
Proof.
  induction s as [|c s IH]; [done|]. rewrite sapp_cons. simpl.
  by rewrite IH, andb_assoc.
Qed.

Lemma no_NUL_app (s t : string) :
  no_NUL (s +:+ t) = no_NUL s && no_NUL t.
Proof.
  induction s as [|c s IH]; [done|]. rewrite sapp_cons. simpl.
  by rewrite IH, andb_assoc.
Qed.

Lemma all_digits_no_newline (s : string) :
  all_digits s = true → no_newline s = true.
Proof.
  induction s as [|c s IH]; [done|]. simpl.
  intros [Hc Hs]%andb_prop. apply bool_decide_eq_true in Hc as [d Hd].
  change newline with (ascii_of_nat 10).
  rewrite (digit_other c d 10 Hd) by lia. simpl. by apply IH.
Qed.

Lemma all_digits_no_NUL (s : string) :
  all_digits s = true → no_NUL s = true.
Proof.
  induction s as [|c s IH]; [done|]. simpl.
  intros [Hc Hs]%andb_prop. apply bool_decide_eq_true in Hc as [d Hd].
  change NUL with (ascii_of_nat 0).
  rewrite (digit_other c d 0 Hd) by lia. simpl. by apply IH.
Qed.

Lemma cstr_no_NUL (s : string) : no_NUL s = true → cstr s = s.
Proof.
  induction s as [|c s IH]; [done|]. simpl.
  intros [Hc Hs]%andb_prop. apply negb_true_iff in Hc. rewrite Hc.
  by rewrite IH.
Qed.

(** [dec_aux] puts digits, at most [fuel] and at least one, before what it
    is given. *)
Lemma dec_aux_digits (fuel : nat) (n : Z) (acc : string) :
  ∃ pre, dec_aux fuel n acc = pre +:+ acc
         ∧ all_digits pre = true
         ∧ (String.length pre ≤ fuel)%nat
         ∧ (0 < fuel → pre ≠ EmptyString)%nat.
Proof.
  revert n acc. induction fuel as [|fuel IH]; intros n acc.
  - exists EmptyString. split_and!; [reflexivity|reflexivity|reflexivity|lia].
  - cbn [dec_aux]. set (c := ascii_of_nat (48 + Z.to_nat (n `mod` 10))).
    assert (is_Some (digit c)) as Hc.
    { unfold c. rewrite digit_of_nat; [by eexists|].
      pose proof (Z.mod_pos_bound n 10). lia. }
    destruct (n `div` 10 =? 0).
    + exists (String c EmptyString).
      split_and!; [reflexivity| |cbn [String.length]; lia|discriminate].
      cbn [all_digits]. by rewrite bool_decide_eq_true_2.
    + destruct (IH (n `div` 10) (String c acc)) as (pre & -> & Hd & Hl & _).
      exists (pre +:+ String c EmptyString). split_and!.
      * by rewrite sapp_assoc.
      * rewrite all_digits_app, Hd. cbn [all_digits].
        by rewrite bool_decide_eq_true_2.
      * rewrite slength_app. cbn [String.length]. lia.
      * intros _. by destruct pre.
Qed.

Lemma dec_aux_app (fuel : nat) (n : Z) (acc rest : string) :
  dec_aux fuel n acc +:+ rest = dec_aux fuel n (acc +:+ rest).
Proof.
  revert n acc. induction fuel as [|fuel IH]; intros n acc; [reflexivity|].
  cbn [dec_aux]. destruct (n `div` 10 =? 0); [reflexivity|]. by rewrite IH.
Qed.

(** Reading back what [dec_aux] wrote. *)
Lemma digits_dec_aux (fuel : nat) (n : Z) (acc : string) :
  (0 < fuel)%nat → 0 ≤ n < 10 ^ Z.of_nat fuel →
  digits (dec_aux fuel n acc) 0 = digits acc n.
Proof.
  revert n acc. induction fuel as [|fuel IH]; intros n acc Hf Hn; [lia|].
  cbn [dec_aux]. pose proof (Z.mod_pos_bound n 10 ltac:(lia)) as Hmod.
  assert (digit (ascii_of_nat (48 + Z.to_nat (n `mod` 10)))
          = Some (n `mod` 10)) as Hd.
  { rewrite digit_of_nat by lia. f_equal. lia. }
  pose proof (Z.div_mod n 10 ltac:(lia)) as Hdm.
  destruct (Z.eqb_spec (n `div` 10) 0) as [Hz|Hnz].
  - cbn [digits]. rewrite Hd. f_equal. lia.
  - destruct fuel as [|fuel].
    { change (10 ^ Z.of_nat 1) with 10 in Hn.
      assert (n `div` 10 = 0) by (apply Z.div_small; lia). lia. }
    rewrite IH; [|lia|].
    + cbn [digits]. rewrite Hd. f_equal. lia.
    + split; [apply Z.div_pos; lia|].
      apply Z.div_lt_upper_bound; [lia|].
      rewrite Nat2Z.inj_succ, Z.pow_succ_r in Hn by lia. lia.
Qed.

Lemma digits_no_digit (s : string) (n : Z) :
  starts_with_digit s = false → digits s n = n.
Proof.
  destruct s as [|c s]; [done|]. simpl.
  destruct (digit c); [|done].
  by rewrite bool_decide_eq_true_2.
Qed.

(** [stream >> v] reads back what [stream << v] wrote, for a 64-bit [v]
    followed by something that is no digit. *)
Lemma extract_dec (v : Z) (rest : string) :
  0 ≤ v < UINT64_MOD → starts_with_digit rest = false →
  extract_uint64 (dec v +:+ rest) = v.
Proof.
  intros Hv Hrest. unfold dec. rewrite dec_aux_app, sapp_nil.
  pose proof (digits_dec_aux 20 v rest ltac:(lia)) as Hdigits.
  rewrite (digits_no_digit rest v Hrest) in Hdigits.
  destruct (dec_aux_digits 20 v rest) as (pre & Hpre & Hd & _ & Hne).
  rewrite Hpre in *. destruct pre as [|c pre]; [by destruct Hne; [lia|]|].
  rewrite sapp_cons in *. simpl in Hd.
  apply andb_prop in Hd as [Hc _].
  apply bool_decide_eq_true in Hc as [d Hc].
  unfold extract_uint64. simpl skip_spaces.
  rewrite (digit_not_space c d Hc).
  change "-"%char with (ascii_of_nat 45). change "+"%char with (ascii_of_nat 43).
  rewrite (digit_other c d 45 Hc), (digit_other c d 43 Hc) by lia.
  unfold starts_with_digit. rewrite bool_decide_eq_true_2 by (by exists d).
  rewrite Hdigits; [|unfold UINT64_MOD in Hv; lia].
  destruct (Z.gtb_spec v (UINT64_MOD - 1)); [lia|done].
Qed.

End DecimalFacts.

(** ** The replay-detection counter *)

Section ReplayFacts.
Context {ext : Externals} {daemon : Daemon}.
Local Open Scope string_scope.
Local Open Scope Z_scope.

Local Arguments fgets : simpl never.
Local Arguments strstr : simpl never.
Local Arguments found : simpl never.
Local Arguments str_at : simpl never.
Local Arguments extract_uint64 : simpl never.
Local Arguments parseAddrClient : simpl never.

Lemma fgets_chunk_line (n : nat) (line rest : string) :
  no_newline line = true → (String.length line < n)%nat →
  fgets_chunk n (line +:+ endl +:+ rest) = (line +:+ endl, rest, false).
Proof.
  revert n. induction line as [|c line IH]; intros n Hline Hlen.
  - destruct n; [simpl in Hlen; lia|].
    rewrite !sapp_nil. unfold endl. rewrite sapp_cons, sapp_nil.
    cbn [fgets_chunk]. by rewrite Ascii.eqb_refl.
  - destruct n; [simpl in Hlen; lia|]. rewrite !sapp_cons.
    cbn [fgets_chunk no_newline String.length] in *.
    apply andb_prop in Hline as [Hc Hline]. apply negb_true_iff in Hc.
    rewrite Hc, IH; [done|done|lia].
Qed.

(** [fgets] on a file whose next line is short. *)
Lemma fgets_line (f : FILE) (line rest : string) :
  unread f = line +:+ endl +:+ rest →
  no_newline line = true → (String.length line < 254)%nat →
  fgets f = (Some (line +:+ endl), mkFILE rest (eof f)).
Proof.
  intros Hf Hline Hlen. unfold fgets.
  pose proof (fgets_chunk_line 254 line rest Hline Hlen) as Hchunk.
  rewrite <- Hf in Hchunk. rewrite Hchunk.
  destruct (unread f) eqn:Hu; [|by rewrite orb_false_r].
  by destruct line.
Qed.

Lemma prefix_refl_app (p s : string) : String.prefix p (p +:+ s) = true.
Proof.
  induction p as [|c p IH]; [by destruct s|]. rewrite sapp_cons. simpl.
  by destruct (ascii_dec c c).
Qed.

(** A needle that stands in the text is found. *)
Lemma find_occurs (a p s : string) : is_Some (find p (a +:+ p +:+ s)).
Proof.
  induction a as [|c a IH].
  - rewrite sapp_nil. destruct (p +:+ s) eqn:Heq.
    + rewrite find_nil. destruct p; [done|]. by rewrite sapp_cons in Heq.
    + rewrite find_cons, <- Heq, prefix_refl_app. done.
  - rewrite sapp_cons, find_cons. destruct (String.prefix _ _); [done|].
    destruct IH as [x ->]. done.
Qed.

(** A needle that starts with something else than a digit is not found
    earlier for digits put before the text. *)
Lemma find_digits_None (c : ascii) (p d s : string) :
  digit c = None → all_digits d = true →
  find (String c p) s = None → find (String c p) (d +:+ s) = None.
Proof.
  intros Hc Hd Hs. induction d as [|e d IH]; [done|].
  simpl in Hd. apply andb_prop in Hd as [He Hd].
  apply bool_decide_eq_true in He as [x He].
  rewrite sapp_cons, find_cons, (IH Hd). simpl.
  destruct (ascii_dec c e) as [->|]; [congruence|done].
Qed.

Lemma find_here (p s : string) : find p (p +:+ s) = Some O.
Proof.
  destruct (find_occurs EmptyString p s) as [x Hx]. rewrite sapp_nil in Hx.
  destruct (p +:+ s) eqn:Heq.
  - rewrite find_nil in *. by destruct (String.prefix p EmptyString).
  - rewrite find_cons, <- Heq, prefix_refl_app. reflexivity.
Qed.

(** *** One round of the reader on each of the lines the writer starts
    with *)

Lemma xmlLoadBuiltIn_loop_AddrMgr (now' : Z) (fuel : nat) (f f' : FILE)
    (buf : string) (m : TAddrMgr) (tag : bool) (clnt : option TAddrClient) :
  feof f = false → fgets f = (Some buf, f') →
  found (strstr buf "<AddrMgr>") = true →
  xmlLoadBuiltIn_loop now' (S fuel) f m tag clnt
  = xmlLoadBuiltIn_loop now' fuel f' m true clnt.
Proof.
  intros Hf Hg Hs. cbn [xmlLoadBuiltIn_loop]. rewrite Hf, Hg, Hs. reflexivity.
Qed.

Lemma xmlLoadBuiltIn_loop_timestamp (now' : Z) (fuel : nat) (f f' : FILE)
    (buf : string) (m : TAddrMgr) (clnt : option TAddrClient) :
  feof f = false → fgets f = (Some buf, f') →
  found (strstr buf "<timestamp>") = true →
  xmlLoadBuiltIn_loop now' (S fuel) f m true clnt
  = xmlLoadBuiltIn_loop now' fuel f' m true clnt.
Proof.
  intros Hf Hg Hs. cbn [xmlLoadBuiltIn_loop]. rewrite Hf, Hg, Hs.
  destruct (found (strstr buf "<AddrMgr>")); reflexivity.
Qed.

Lemma xmlLoadBuiltIn_loop_replayDetection (now' : Z) (fuel : nat)
    (f f' : FILE) (buf s : string) (x : nat) (m : TAddrMgr) (tag : bool)
    (clnt : option TAddrClient) :
  feof f = false → fgets f = (Some buf, f') →
  strstr buf "<AddrMgr>" = None → strstr buf "<timestamp>" = None →
  strstr buf "<replayDetection>" = Some x →
  cstr (sdrop (x + String.length "<replayDetection>") buf) = s →
  xmlLoadBuiltIn_loop now' (S fuel) f m tag clnt
  = xmlLoadBuiltIn_loop now' fuel f'
      (setReplayDetectionValue (extract_uint64 s) m) tag clnt.
Proof.
  intros Hf Hg H1 H2 H3 Hs. cbn [xmlLoadBuiltIn_loop].
  rewrite Hf, Hg, H1, H2, H3.
  change (found None) with false. cbv iota.
  change 17%nat with (String.length "<replayDetection>").
  rewrite (strstr_str_at _ _ _ H3), Hs. reflexivity.
Qed.

(** *** The three lines *)

Lemma timestamp_line (d : string) :
  all_digits d = true →
  found (strstr (("  <timestamp>" +:+ d +:+ "</timestamp>") +:+ endl)
           "<timestamp>") = true.
Proof.
  intros Hd. unfold strstr. rewrite cstr_no_NUL.
  - rewrite !sapp_assoc.
    change ("  <timestamp>" +:+ d +:+ "</timestamp>" +:+ endl)
      with (String " " (String " "
              ("<timestamp>" +:+ d +:+ "</timestamp>" +:+ endl))).
    rewrite (find_cons _ " "), (find_cons _ " " ("<timestamp>" +:+ _)).
    rewrite find_here. reflexivity.
  - rewrite !no_NUL_app, (all_digits_no_NUL _ Hd). reflexivity.
Qed.

Lemma replayDetection_line (d : string) (buf : string) :
  all_digits d = true →
  buf = ("  <replayDetection>" +:+ d +:+ "</replayDetection>") +:+ endl →
  strstr buf "<AddrMgr>" = None
  ∧ strstr buf "<timestamp>" = None
  ∧ strstr buf "<replayDetection>" = Some 2%nat
  ∧ cstr (sdrop (2 + String.length "<replayDetection>") buf)
    = d +:+ "</replayDetection>" +:+ endl.
Proof.
  intros Hd ->. rewrite !sapp_assoc.
  assert (no_NUL (d +:+ "</replayDetection>" +:+ endl) = true) as Hz.
  { rewrite !no_NUL_app, (all_digits_no_NUL _ Hd). reflexivity. }
  unfold strstr. rewrite (cstr_no_NUL ("  <replayDetection>" +:+ _)).
  2:{ rewrite no_NUL_app, Hz. reflexivity. }
  split_and!.
  - rewrite !sapp_cons, sapp_nil.
    repeat (rewrite find_cons; simpl (String.prefix _ _); cbv iota).
    rewrite find_digits_None; [reflexivity|reflexivity|exact Hd|reflexivity].
  - rewrite !sapp_cons, sapp_nil.
    repeat (rewrite find_cons; simpl (String.prefix _ _); cbv iota).
    rewrite find_digits_None; [reflexivity|reflexivity|exact Hd|reflexivity].
  - change ("  <replayDetection>" +:+ d +:+ "</replayDetection>" +:+ endl)
      with (String " " (String " "
              ("<replayDetection>" +:+ d +:+ "</replayDetection>" +:+ endl))).
    rewrite (find_cons _ " "),
      (find_cons _ " " ("<replayDetection>" +:+ _)).
    rewrite find_here. reflexivity.
  - rewrite !sapp_cons, sapp_nil.
    cbn [sdrop String.length Nat.add]. by apply cstr_no_NUL.
Qed.

(** The lines [operator<<] writes before the clients, and their being read:
    the reader then goes on with the rest of the file, inside the
    [<AddrMgr>] element, with the counter set to what [stream >>] takes from
    the digits written. *)
Lemma xmlLoadBuiltIn_loop_digits (now' : Z) (fuel : nat)
    (dt dv rest : string) (m0 : TAddrMgr) :
  all_digits dt = true → (String.length dt ≤ 20)%nat →
  all_digits dv = true → (String.length dv ≤ 20)%nat →
  xmlLoadBuiltIn_loop now' (S (S (S fuel)))
    (fopen ("<AddrMgr>" +:+ endl
            +:+ "  <timestamp>" +:+ dt +:+ "</timestamp>" +:+ endl
            +:+ "  <replayDetection>" +:+ dv +:+ "</replayDetection>"
            +:+ endl +:+ rest))
    m0 false None
  = xmlLoadBuiltIn_loop now' fuel (mkFILE rest false)
      (setReplayDetectionValue
         (extract_uint64 (dv +:+ "</replayDetection>" +:+ endl)) m0)
      true None.
Proof.
  intros Ht Hlt Hv Hlv.
  set (l2 := "  <timestamp>" +:+ dt +:+ "</timestamp>").
  set (l3 := "  <replayDetection>" +:+ dv +:+ "</replayDetection>").
  replace ("<AddrMgr>" +:+ endl
            +:+ "  <timestamp>" +:+ dt +:+ "</timestamp>" +:+ endl
            +:+ "  <replayDetection>" +:+ dv +:+ "</replayDetection>"
            +:+ endl +:+ rest)
    with ("<AddrMgr>" +:+ endl +:+ l2 +:+ endl +:+ l3 +:+ endl +:+ rest)
    by (unfold l2, l3; rewrite !sapp_assoc; reflexivity).
  rewrite (xmlLoadBuiltIn_loop_AddrMgr now' _ _
             (mkFILE (l2 +:+ endl +:+ l3 +:+ endl +:+ rest) false)
             ("<AddrMgr>" +:+ endl));
    [ |reflexivity
      |apply (fgets_line (fopen _) "<AddrMgr>");
         [reflexivity|reflexivity|cbn [String.length]; lia]
      |reflexivity].
  rewrite (xmlLoadBuiltIn_loop_timestamp now' _ _
             (mkFILE (l3 +:+ endl +:+ rest) false) (l2 +:+ endl));
    [ |reflexivity| |by apply timestamp_line].
  2:{ apply (fgets_line (mkFILE _ false) l2); [reflexivity| |].
      - unfold l2. rewrite !no_newline_app, (all_digits_no_newline _ Ht).
        reflexivity.
      - unfold l2. rewrite !slength_app. cbn [String.length]. lia. }
  destruct (replayDetection_line dv (l3 +:+ endl) Hv eq_refl)
    as (H1 & H2 & H3 & H4).
  rewrite (xmlLoadBuiltIn_loop_replayDetection now' _ _
             (mkFILE rest false) (l3 +:+ endl)
             (dv +:+ "</replayDetection>" +:+ endl) 2);
    [reflexivity|reflexivity| |exact H1|exact H2|exact H3|exact H4].
  apply (fgets_line (mkFILE _ false) l3); [reflexivity| |].
  - unfold l3. rewrite !no_newline_app, (all_digits_no_newline _ Hv).
    reflexivity.
  - unfold l3. rewrite !slength_app. cbn [String.length]. lia.
Qed.

Lemma setReplayDetectionValue_twice (v w : Z) (m : TAddrMgr) :
  setReplayDetectionValue v (setReplayDetectionValue w m)
  = setReplayDetectionValue v m.
Proof. reflexivity. Qed.

Lemma setReplayDetectionValue_same (m : TAddrMgr) :
  setReplayDetectionValue (ReplayDetectionValue_ m) m = m.
Proof. by destruct m. Qed.

(** [n] calls in a row count on from the counter, in [uint64_t]. *)
Lemma nextReplayDetectionValues_spec (n : nat) (m : TAddrMgr) :
  0 ≤ ReplayDetectionValue_ m < UINT64_MOD →
  (nextReplayDetectionValues n m).1
  = (λ k, (ReplayDetectionValue_ m + Z.of_nat k) `mod` UINT64_MOD)
      <$> seq 1 n
  ∧ (nextReplayDetectionValues n m).2
    = setReplayDetectionValue
        ((ReplayDetectionValue_ m + Z.of_nat n) `mod` UINT64_MOD) m.
Proof.
  revert m. induction n as [|n IH]; intros m Hm.
  - split; [reflexivity|]. cbn [nextReplayDetectionValues snd].
    rewrite Z.add_0_r, Z.mod_small by done.
    by rewrite setReplayDetectionValue_same.
  - cbn [nextReplayDetectionValues]. unfold getNextReplayDetectionValue.
    set (v := ReplayDetectionValue_ m) in *.
    set (m1 := setReplayDetectionValue ((v + 1) `mod` UINT64_MOD) m).
    assert (0 < UINT64_MOD) as Hpos by done.
    assert (ReplayDetectionValue_ m1 = (v + 1) `mod` UINT64_MOD) as Hv1
      by reflexivity.
    destruct (IH m1) as [Hvs Hm1].
    { rewrite Hv1. apply Z.mod_pos_bound, Hpos. }
    destruct (nextReplayDetectionValues n m1) as [vs m2].
    cbn [fst snd] in *. subst vs m2. rewrite Hv1. split.
    + cbn [seq fmap list_fmap]. f_equal.
      rewrite <- (seq_shift n 1), <- list_fmap_compose.
      apply list_fmap_ext. intros _ k _. cbn.
      rewrite Zplus_mod_idemp_l. f_equal. lia.
    + unfold m1. rewrite setReplayDetectionValue_twice.
      rewrite Zplus_mod_idemp_l. do 2 f_equal. lia.
Qed.

Lemma xmlLoadBuiltIn_Some (now' : Z) (content : string) (m : TAddrMgr) :
  xmlLoadBuiltIn now' (Some content) m
  = xmlLoadBuiltIn_loop now' (S (String.length content)) (fopen content) m
      false None.
Proof. reflexivity. Qed.

Lemma dump_after_counter (now' : Z) (x : TAddrMgr) :
  dump now' x
  = "<AddrMgr>" +:+ endl
    +:+ "  <timestamp>" +:+ dec (to_uint32 now') +:+ "</timestamp>" +:+ endl
    +:+ "  <replayDetection>" +:+ dec (ReplayDetectionValue_ x)
    +:+ "</replayDetection>" +:+ endl +:+ after_counter x.
Proof. reflexivity. Qed.

(** The reader on a file that starts with the lines of the writer. *)
Lemma xmlLoadBuiltIn_digits (now' : Z) (dt dv rest : string)
    (m0 : TAddrMgr) :
  all_digits dt = true → (String.length dt ≤ 20)%nat →
  all_digits dv = true → (String.length dv ≤ 20)%nat →
  ∃ fuel,
    xmlLoadBuiltIn now'
      (Some ("<AddrMgr>" +:+ endl
             +:+ "  <timestamp>" +:+ dt +:+ "</timestamp>" +:+ endl
             +:+ "  <replayDetection>" +:+ dv +:+ "</replayDetection>"
             +:+ endl +:+ rest))
      m0
    = xmlLoadBuiltIn_loop now' fuel (mkFILE rest false)
        (setReplayDetectionValue
           (extract_uint64 (dv +:+ "</replayDetection>" +:+ endl)) m0)
        true None.
Proof.
  intros Ht Hlt Hv Hlv. rewrite xmlLoadBuiltIn_Some.
  remember (String.length ("<AddrMgr>" +:+ _)) as k eqn:Hk.
  rewrite slength_app in Hk. cbn [String.length] in Hk.
  destruct k as [|[|fuel]]; [lia|lia|]. exists fuel.
  by apply xmlLoadBuiltIn_loop_digits.
Qed.

(** C3.  [n] calls of [getNextReplayDetectionValue] in a row return the
    counter plus 1, 2, ..., [n], each modulo 2^64 as the counter is a
    [uint64_t].  When the manager is then written to its file, and the file
    holds the text [<replayDetection>] only where the counter was written,
    a load of the file comes to an end, and where it runs to its return it
    leaves the counter at what it was when the file was written, so that
    the next call returns the counter plus [n + 1], modulo 2^64. *)
Theorem replayDetection_spec (now now' : Z) (n : nat) (m m0 : TAddrMgr) :
  0 ≤ ReplayDetectionValue_ m < UINT64_MOD →
  find "<replayDetection>"
    (after_counter (nextReplayDetectionValues n m).2) = None →
  (nextReplayDetectionValues n m).1
  = (λ k, (ReplayDetectionValue_ m + Z.of_nat k) `mod` UINT64_MOD)
      <$> seq 1 n
  ∧ xmlLoadBuiltIn now' (Some (dump now (nextReplayDetectionValues n m).2))
      m0 ≠ OutOfFuel
  ∧ ∀ (r : bool) (m' : TAddrMgr),
      xmlLoadBuiltIn now' (Some (dump now (nextReplayDetectionValues n m).2))
        m0 = Ret (r, m') →
      ReplayDetectionValue_ m'
      = ReplayDetectionValue_ (nextReplayDetectionValues n m).2
      ∧ (getNextReplayDetectionValue m').1
        = (ReplayDetectionValue_ m + Z.of_nat n + 1) `mod` UINT64_MOD.
Proof.
  intros Hm Hfind.
  destruct (nextReplayDetectionValues_spec n m Hm) as [Hvs Hm1].
  split; [exact Hvs|]. split; [exact (xmlLoadBuiltIn_total now' _ _)|].
  intros r m' Hload.
  assert (0 < UINT64_MOD) as Hpos by done.
  assert (ReplayDetectionValue_ (nextReplayDetectionValues n m).2
          = (ReplayDetectionValue_ m + Z.of_nat n) `mod` UINT64_MOD) as Hv1
    by (by rewrite Hm1).
  destruct (nextReplayDetectionValues n m) as [vs m1].
  cbn [fst snd] in *. clear Hvs Hm1.
  assert (0 ≤ ReplayDetectionValue_ m1 < UINT64_MOD) as Hrange
    by (rewrite Hv1; apply Z.mod_pos_bound, Hpos).
  assert (ReplayDetectionValue_ m' = ReplayDetectionValue_ m1) as Hsame.
  { destruct (dec_aux_digits 20 (to_uint32 now) EmptyString)
      as (dt & Hdt & Ht & Hlt & _).
    destruct (dec_aux_digits 20 (ReplayDetectionValue_ m1) EmptyString)
      as (dv & Hdv & Hd & Hlv & _).
    rewrite sapp_nil_r in Hdt, Hdv.
    rewrite dump_after_counter in Hload. unfold dec in Hload.
    rewrite Hdt, Hdv in Hload.
    destruct (xmlLoadBuiltIn_digits now' dt dv (after_counter m1) m0
                Ht Hlt Hd Hlv) as [fuel Heq].
    rewrite Heq in Hload.
    rewrite (xmlLoadBuiltIn_loop_counter now' _
               (mkFILE (after_counter m1) false) _ _ _ _ _ Hfind Hload).
    cbn [setReplayDetectionValue ReplayDetectionValue_].
    rewrite <- Hdv. apply (extract_dec _ _ Hrange). reflexivity. }
  split; [exact Hsame|].
  unfold getNextReplayDetectionValue. cbn [fst]. rewrite Hsame, Hv1.
  rewrite Zplus_mod_idemp_l. reflexivity.
Qed.

End ReplayFacts.


(** ** The counter, evaluated *)

Section ReplayEvaluated.
Local Open Scope string_scope.
Local Open Scope Z_scope.

(** The theorem on the counter at the manager of the example snapshot, for
    two calls, a dump when the clock shows 6000 and a load when it shows
    7000. *)
Lemma replayDetection_witness :
  0 ≤ ReplayDetectionValue_ example_loaded < UINT64_MOD
  ∧ find "<replayDetection>"
      (after_counter (ext := example_platform) (daemon := example_daemon)
         (nextReplayDetectionValues 2 example_loaded).2) = None
  ∧ xmlLoadBuiltIn (ext := example_platform) (daemon := example_daemon) 7000
      (Some (dump (ext := example_platform) (daemon := example_daemon) 6000
               (nextReplayDetectionValues 2 example_loaded).2))
      (new_TAddrMgr EmptyString)
    = Ret (true, example_reloaded)
  ∧ (nextReplayDetectionValues 2 example_loaded).1 = [78; 79]
  ∧ ReplayDetectionValue_ example_reloaded = 79
  ∧ (getNextReplayDetectionValue example_reloaded).1 = 80.
Proof.
  assert (0 ≤ ReplayDetectionValue_ example_loaded < UINT64_MOD) as Hm
    by (vm_compute; split; [discriminate|reflexivity]).
  assert (find "<replayDetection>"
            (after_counter (ext := example_platform)
               (daemon := example_daemon)
               (nextReplayDetectionValues 2 example_loaded).2) = None)
    as Hfind by (vm_compute; reflexivity).
  assert (xmlLoadBuiltIn (ext := example_platform) (daemon := example_daemon)
            7000
            (Some (dump (ext := example_platform) (daemon := example_daemon)
                     6000 (nextReplayDetectionValues 2 example_loaded).2))
            (new_TAddrMgr EmptyString)
          = Ret (true, example_reloaded)) as H by (vm_compute; reflexivity).
  destruct (replayDetection_spec (ext := example_platform)
              (daemon := example_daemon) 6000 7000 2 example_loaded
              (new_TAddrMgr EmptyString) Hm Hfind) as (Hvs & _ & Hload).
  destruct (Hload true example_reloaded H) as [Hsame Hnext].
  split; [exact Hm|]. split; [exact Hfind|]. split; [exact H|].
  split; [exact Hvs|]. split; [exact Hsame|exact Hnext].
Defined.

(** At the last value of [uint64_t] the call returns 0, which is not the
    counter plus one. *)
Lemma replayDetection_wraps :
  ReplayDetectionValue_ example_last_counter = 18446744073709551615
  ∧ (nextReplayDetectionValues 1 example_last_counter).1 = [0]
  ∧ (getNextReplayDetectionValue example_last_counter).1
    ≠ ReplayDetectionValue_ example_last_counter + 1.
Proof. split; [reflexivity|]. split; [reflexivity|]. by vm_compute. Qed.

End ReplayEvaluated.

(** ** More on the registry of clients *)

Section RegistryFacts.
Context {ext : Externals}.

Lemma list_find_insert_other {A : Type} (P : A → Prop)
    `{!∀ x, Decision (P x)} (l : list A) (i : nat) (x y : A) :
  l !! i = Some x → ¬ P x → ¬ P y →
  list_find P (<[i:=y]> l) = list_find P l.
Proof.
  revert i. induction l as [|z l IH]; intros [|i] Hl Hx Hy; simplify_eq/=.
  - by rewrite !decide_False.
  - destruct (decide (P z)); [done|]. by rewrite (IH i).
Qed.

Lemma list_find_snoc_other {A : Type} (P : A → Prop)
    `{!∀ x, Decision (P x)} (l : list A) (y : A) :
  ¬ P y → list_find P (l ++ [y]) = list_find P l.
Proof.
  intros Hy. induction l as [|z l IH]; simpl.
  - by rewrite decide_False.
  - destruct (decide (P z)); [done|]. by rewrite IH.
Qed.

Lemma list_find_split {A : Type} (P : A → Prop)
    `{!∀ x, Decision (P x)} (l : list A) (i : nat) (x : A) :
  list_find P l = Some (i, x) →
  l = take i l ++ x :: drop (S i) l
  ∧ P x
  ∧ (∀ y, y ∈ take i l → ¬ P y)
  ∧ delete i l = take i l ++ drop (S i) l.
Proof.
  intros (Hl & Hx & Hleast)%list_find_Some. split_and!.
  - by rewrite take_drop_middle.
  - done.
  - intros y (j & Hj)%list_elem_of_lookup.
    pose proof (lookup_lt_Some _ _ _ Hj) as Hlt.
    rewrite length_take in Hlt. rewrite lookup_take_lt in Hj by lia.
    eapply Hleast; [done|lia].
  - apply delete_take_drop.
Qed.


(** Looking up after [addClient]: a client that was there with the DUID
    is found as before, the new client only if there was none; nothing
    keeps [addClient] from adding a second client with a DUID. *)
Theorem addClient_getClient (x : TAddrClient) (m : TAddrMgr) (duid : TDUID) :
  getClient (addClient x m) duid
  = match getClient m duid with
    | Some c => Some c
    | None => if decide (clnt_DUID x = duid) then Some x else None
    end
  ∧ countClient (addClient x m) = S (countClient m).
Proof.
  unfold getClient, findClient, addClient, countClient. simpl. split.
  - destruct (list_find _ (ClntsLst m)) as [[i c]|] eqn:Hfind.
    + by erewrite list_find_app_l.
    + rewrite list_find_app_r by done. simpl. by case_decide.
  - rewrite length_app. simpl. lia.
Qed.

(** [delClient] undoes [addClient] of a client whose DUID is new. *)
Theorem delClient_addClient (x : TAddrClient) (m : TAddrMgr) :
  getClient m (clnt_DUID x) = None →
  delClient (clnt_DUID x) (addClient x m) = (true, m).
Proof.
  unfold getClient, delClient, findClient, addClient. simpl.
  intros Hnone. destruct (list_find _ (ClntsLst m)) eqn:Hfind; [done|].
  erewrite list_find_snoc; [|done|done]. simpl. unfold setClntsLst. simpl.
  rewrite delete_take_drop, take_app_length.
  rewrite drop_ge, app_nil_r by (rewrite length_app; simpl; lia).
  by destruct m.
Qed.

(** *** The three lookups *)

Lemma list_find_first {A : Type} (P : A → Prop) `{!∀ x, Decision (P x)}
    (l : list A) :
  match snd <$> list_find P l with
  | Some x =>
    ∃ before after,
      l = before ++ x :: after ∧ P x ∧ ∀ y, y ∈ before → ¬ P y
  | None => ∀ y, y ∈ l → ¬ P y
  end.
Proof.
  destruct (list_find P l) as [[i x]|] eqn:Hfind; simpl.
  - destruct (list_find_split _ _ _ _ Hfind) as (Hl & Hx & Hbefore & _).
    by exists (take i l), (drop (S i) l).
  - intros y Hy. by eapply list_find_None, Forall_forall in Hfind.
Qed.

Lemma leased_spec (leasedAddr : TIPv6Addr) (cli : TAddrClient) :
  leased leasedAddr cli = true
  ↔ ∃ ia a, ia ∈ IAsLst cli ∧ a ∈ AddrLst ia ∧ addr_Addr a = leasedAddr.
Proof.
  unfold leased, IA_getAddr. rewrite existsb_exists. split.
  - intros (ia & Hia%list_elem_of_In & [a Ha]%bool_decide_eq_true).
    destruct (list_find _ (AddrLst ia)) as [[i a']|] eqn:Hfind;
      simplify_eq/=.
    apply list_find_Some in Hfind as (Hi & Haddr & _).
    exists ia, a. split_and!; [done| |done].
    by eapply list_elem_of_lookup_2.
  - intros (ia & a & Hia & Ha & Haddr). exists ia.
    split; [by apply list_elem_of_In|]. apply bool_decide_eq_true.
    destruct (list_find (λ a, addr_Addr a = leasedAddr) (AddrLst ia))
      as [[i a']|] eqn:Hfind; [by eexists|].
    by eapply list_find_None, Forall_forall in Hfind.
Qed.

(** Each of the three overloads of [getClient] returns the first client,
    in the order of the list, that has the DUID, has the SPI, or has an IA
    with a lease of the address; it returns null exactly when no client
    has.  The lookup by address goes through the IAs only: an address held
    in a TA or a prefix held in a PD is not found. *)
Theorem getClient_first (m : TAddrMgr) (duid : TDUID) (spi : Z)
    (leasedAddr : TIPv6Addr) :
  let first (P : TAddrClient → Prop) (r : option TAddrClient) : Prop :=
    match r with
    | Some c =>
      ∃ before after,
        ClntsLst m = before ++ c :: after ∧ P c ∧ ∀ c', c' ∈ before → ¬ P c'
    | None => ∀ c', c' ∈ ClntsLst m → ¬ P c'
    end in
  first (λ c, clnt_DUID c = duid) (getClient m duid)
  ∧ first (λ c, SPI c = spi) (getClient_SPI m spi)
  ∧ first (λ c, ∃ ia a, ia ∈ IAsLst c ∧ a ∈ AddrLst ia
                        ∧ addr_Addr a = leasedAddr)
      (getClient_leasedAddr m leasedAddr).
Proof.
  intros first. subst first. cbv beta. split_and!.
  - apply (list_find_first (λ c, clnt_DUID c = duid)).
  - apply (list_find_first (λ c, SPI c = spi)).
  - pose proof (list_find_first (λ c, leased leasedAddr c = true)
                  (ClntsLst m)) as H.
    unfold getClient_leasedAddr.
    destruct (snd <$> list_find _ (ClntsLst m)) as [c|].
    + destruct H as (before & after & Hl & Hc & Hbefore).
      exists before, after. split_and!; [done|by apply leased_spec|].
      intros c' Hc' Hle%leased_spec. by eapply Hbefore.
    + intros c' Hc' Hle%leased_spec. by eapply H.
Qed.

(** *** The DUIDs of the clients *)

Lemma fmap_insert_same {A B : Type} (f : A → B) (l : list A) (i : nat)
    (x y : A) :
  l !! i = Some x → f y = f x → f <$> <[i:=y]> l = f <$> l.
Proof.
  intros Hl Hf. rewrite list_fmap_insert, Hf. apply list_insert_id.
  by rewrite list_lookup_fmap, Hl.
Qed.

Lemma bind_insert_same {A B : Type} (f : A → list B) (l : list A) (i : nat)
    (x y : A) :
  l !! i = Some x → f y = f x → <[i:=y]> l ≫= f = l ≫= f.
Proof.
  revert i. induction l as [|z l IH]; intros [|i] Hl Hf; simplify_eq/=.
  - by rewrite Hf.
  - by rewrite (IH i).
Qed.

Lemma findClient_lookup (m : TAddrMgr) (duid : TDUID) i c :
  findClient m duid = Some (i, c) → ClntsLst m !! i = Some c.
Proof. by intros (? & _)%list_find_Some. Qed.

Lemma findPD_lookup (c : TAddrClient) (iaid : Z) j pd :
  findPD c iaid = Some (j, pd) → PDLst c !! j = Some pd.
Proof. by intros (? & _)%list_find_Some. Qed.

Lemma findPrefix_lookup (pd : TAddrIA) (p : TIPv6Addr) k l :
  findPrefix pd p = Some (k, l) → PrefixLst pd !! k = Some l.
Proof. by intros (? & _)%list_find_Some. Qed.

(** The client object after [addPrefix]: there is one, with the DUID, the
    IAs and the TAs it had. *)
Lemma addPrefix_client_same (now : Z) (c : TAddrClient) (duid : TDUID)
    (addr : option TIPv6Addr) (ifname : string) (ifindex iaid t1 t2 : Z)
    (prefix : option TIPv6Addr) (pref valid len : Z) (quiet : bool) :
  ∃ r c',
    addPrefix_client now (Some c) duid addr ifname ifindex iaid t1 t2 prefix
      pref valid len quiet = (r, Some c')
    ∧ clnt_DUID c' = clnt_DUID c
    ∧ IAsLst c' = IAsLst c ∧ TALst c' = TALst c.
Proof.
  unfold addPrefix_client. destruct prefix as [p|]; [|by eexists _, _].
  destruct (findPD c iaid) as [[j pd]|]; simpl;
    [destruct (findPrefix _ p)|]; by eexists _, _.
Qed.

Lemma updatePrefix_client_same (now : Z) (c : TAddrClient) (duid : TDUID)
    (addr : option TIPv6Addr) (iface iaid t1 t2 : Z)
    (prefix : option TIPv6Addr) (pref valid len : Z) (quiet : bool) :
  ∃ r c',
    updatePrefix_client now (Some c) duid addr iface iaid t1 t2 prefix
      pref valid len quiet = (r, Some c')
    ∧ clnt_DUID c' = clnt_DUID c
    ∧ IAsLst c' = IAsLst c ∧ TALst c' = TALst c
    ∧ delegated c' = delegated c.
Proof.
  unfold updatePrefix_client. destruct prefix as [p|]; [|by eexists _, _].
  destruct (findPD c iaid) as [[j pd]|] eqn:Hpd; [|by eexists _, _].
  apply findPD_lookup in Hpd.
  destruct (findPrefix _ p) as [[k l]|] eqn:Hl;
    (eexists _, _; split_and!; [reflexivity..|]);
    unfold delegated, storePD; simpl;
    (eapply bind_insert_same; [done|]); simpl; [|done].
  apply findPrefix_lookup in Hl. simpl in Hl.
  by eapply fmap_insert_same.
Qed.

(** [addPrefix] adds the DUID to those of the manager if no client had it,
    and leaves them as they were otherwise. *)
Lemma addPrefix_DUIDs (now : Z) (m : TAddrMgr) (duid : TDUID)
    (addr : option TIPv6Addr) (ifname : string) (ifindex iaid t1 t2 : Z)
    (prefix : option TIPv6Addr) (pref valid len : Z) (quiet : bool) :
  clnt_DUID <$> ClntsLst (addPrefix now m duid addr ifname ifindex iaid t1 t2
                            prefix pref valid len quiet).2
  = (clnt_DUID <$> ClntsLst m)
    ++ match getClient m duid with Some _ => [] | None => [duid] end.
Proof.
  unfold addPrefix, getClient.
  destruct (findClient m duid) as [[i c]|] eqn:Hc; simpl.
  - destruct (addPrefix_client_same now c duid addr ifname ifindex iaid t1 t2
                prefix pref valid len quiet) as (r & c' & -> & Hd & _).
    simpl. rewrite app_nil_r. apply findClient_lookup in Hc.
    by eapply fmap_insert_same.
  - destruct (addPrefix_client_same now (new_TAddrClient duid) duid addr
                ifname ifindex iaid t1 t2 prefix pref valid len quiet)
      as (r & c' & -> & Hd & _).
    simpl. rewrite insert_app_r_alt, Nat.sub_diag by lia. simpl.
    rewrite fmap_app. simpl. by rewrite Hd.
Qed.

Lemma updatePrefix_same (now : Z) (m : TAddrMgr) (duid : TDUID)
    (addr : option TIPv6Addr) (ifname : string) (ifindex iaid t1 t2 : Z)
    (p : TIPv6Addr) (pref valid len : Z) (quiet : bool) :
  let r := updatePrefix now m duid addr ifname ifindex iaid t1 t2 p pref
             valid len quiet in
  clnt_DUID <$> ClntsLst r.2 = clnt_DUID <$> ClntsLst m
  ∧ used_prefixes r.2 = used_prefixes m.
Proof.
  intros r. subst r. unfold updatePrefix.
  destruct (findClient m duid) as [[i c]|] eqn:Hc; [|done].
  destruct (updatePrefix_client_same now c duid addr ifindex iaid t1 t2
              (Some p) pref valid len quiet)
    as (r & c' & -> & Hd & _ & _ & Hdel).
  apply findClient_lookup in Hc. simpl. split.
  - by eapply fmap_insert_same.
  - unfold used_prefixes. simpl. by eapply bind_insert_same.
Qed.

Lemma delPrefix_DUIDs (m : TAddrMgr) (duid : TDUID) (iaid : Z)
    (p : TIPv6Addr) (quiet : bool) :
  clnt_DUID <$> ClntsLst (delPrefix m duid iaid p quiet).2
  `sublist_of` clnt_DUID <$> ClntsLst m.
Proof.
  destruct (findClient m duid) as [[i c]|] eqn:Hc;
    [|by unfold delPrefix; rewrite Hc].
  destruct (findPD c iaid) as [[j pd]|] eqn:Hpd;
    [|by unfold delPrefix; rewrite Hc, Hpd].
  destruct (findPrefix pd p) as [[k l]|] eqn:Hl;
    [|by unfold delPrefix; rewrite Hc, Hpd, Hl].
  rewrite (delPrefix_found _ _ _ _ _ _ _ _ _ _ _ Hc Hpd Hl). simpl.
  destruct (_ && _ && _ && _).
  - apply fmap_sublist, sublist_delete.
  - apply findClient_lookup in Hc.
    erewrite fmap_insert_same; [done|done|]. by case_bool_decide.
Qed.

(** The operations that change the registry by DUID keep the DUIDs of the
    clients distinct: [addPrefix] makes a client only for a DUID no client
    has, and [updatePrefix], [delPrefix] and [delClient] make none. *)
Theorem unique_DUIDs_kept (now : Z) (m : TAddrMgr) (duid : TDUID)
    (addr : option TIPv6Addr) (ifname : string) (ifindex iaid t1 t2 : Z)
    (prefix : option TIPv6Addr) (p : TIPv6Addr) (pref valid len : Z)
    (quiet : bool) :
  unique_DUIDs m →
  unique_DUIDs (addPrefix now m duid addr ifname ifindex iaid t1 t2 prefix
                  pref valid len quiet).2
  ∧ unique_DUIDs (updatePrefix now m duid addr ifname ifindex iaid t1 t2 p
                    pref valid len quiet).2
  ∧ unique_DUIDs (delPrefix m duid iaid p quiet).2
  ∧ unique_DUIDs (delClient duid m).2.
Proof.
  unfold unique_DUIDs. intros Hm. split_and!.
  - rewrite addPrefix_DUIDs. unfold getClient.
    destruct (findClient m duid) as [[i c]|] eqn:Hc; simpl.
    + by rewrite app_nil_r.
    + apply NoDup_app. split_and!; [done| |apply NoDup_singleton].
      intros d (c & -> & Hin)%list_elem_of_fmap Heq%list_elem_of_singleton.
      by eapply list_find_None, Forall_forall in Hc.
  - by rewrite (proj1 (updatePrefix_same now m duid addr ifname ifindex iaid
                         t1 t2 p pref valid len quiet)).
  - eapply sublist_NoDup; [done|apply delPrefix_DUIDs].
  - unfold delClient. destruct (findClient m duid) as [[i c]|]; [|done].
    simpl. eapply sublist_NoDup; [done|]. apply fmap_sublist, sublist_delete.
Qed.

(** Among clients with distinct DUIDs, [delClient] leaves no client with
    the DUID. *)
Theorem delClient_getClient (duid : TDUID) (m : TAddrMgr) :
  unique_DUIDs m → getClient (delClient duid m).2 duid = None.
Proof.
  unfold unique_DUIDs, getClient, delClient, findClient. intros Hm.
  destruct (list_find _ (ClntsLst m)) as [[i c]|] eqn:Hfind; simpl;
    [|by rewrite Hfind].
  destruct (list_find_split _ _ _ _ Hfind) as (Hl & Hc & Hbefore & Hdel).
  rewrite Hdel. rewrite Hl, fmap_app, fmap_cons in Hm.
  apply NoDup_app in Hm as (_ & Hdisj & [Hnotin _]%NoDup_cons).
  destruct (list_find _ (take i _ ++ drop _ _)) as [[j c']|] eqn:Hfind';
    [|done].
  apply list_find_Some in Hfind' as (Hj%list_elem_of_lookup_2 & Hc' & _).
  apply elem_of_app in Hj as [Hj|Hj]; [by apply Hbefore in Hj|].
  destruct Hnotin. rewrite Hc, <- Hc'. by apply list_elem_of_fmap_2.
Qed.

(** *** Clients with another DUID *)

Lemma list_find_delete_other {A : Type} (P : A → Prop)
    `{!∀ x, Decision (P x)} (l : list A) (i : nat) (x : A) :
  l !! i = Some x → ¬ P x →
  snd <$> list_find P (delete i l) = snd <$> list_find P l.
Proof.
  revert i. induction l as [|z l IH]; intros [|i] Hl Hx; simplify_eq/=.
  - rewrite decide_False, <- option_fmap_compose by done.
    by destruct (list_find P l) as [[??]|].
  - destruct (decide (P z)); [done|].
    rewrite <- !option_fmap_compose. simpl.
    specialize (IH i Hl Hx).
    by destruct (list_find P (delete i l)) as [[??]|],
      (list_find P l) as [[??]|]; simplify_eq/=.
Qed.

(** [addPrefix], [updatePrefix], [delPrefix] and [delClient] for one DUID
    leave the client that [getClient] finds for any other DUID as it
    was. *)
Theorem other_clients_kept (now : Z) (m : TAddrMgr) (duid other : TDUID)
    (addr : option TIPv6Addr) (ifname : string) (ifindex iaid t1 t2 : Z)
    (prefix : option TIPv6Addr) (p : TIPv6Addr) (pref valid len : Z)
    (quiet : bool) :
  other ≠ duid →
  getClient (addPrefix now m duid addr ifname ifindex iaid t1 t2 prefix pref
               valid len quiet).2 other = getClient m other
  ∧ getClient (updatePrefix now m duid addr ifname ifindex iaid t1 t2 p pref
                 valid len quiet).2 other = getClient m other
  ∧ getClient (delPrefix m duid iaid p quiet).2 other = getClient m other
  ∧ getClient (delClient duid m).2 other = getClient m other.
Proof.
  intros Hne.
  assert (∀ i c c', ClntsLst m !! i = Some c → clnt_DUID c = duid →
            clnt_DUID c' = duid →
            getClient (storeClient i c' m) other = getClient m other)
    as Hstore.
  { intros i c c' Hc Hd Hd'. unfold getClient, findClient. simpl. f_equal.
    eapply list_find_insert_other; [done|congruence..]. }
  assert (∀ i c, ClntsLst m !! i = Some c → clnt_DUID c = duid →
            getClient (setClntsLst (delete i (ClntsLst m)) m) other
            = getClient m other) as Hdelete.
  { intros i c Hc Hd. unfold getClient, findClient. simpl.
    eapply list_find_delete_other; [done|congruence]. }
  split_and!.
  - unfold addPrefix. destruct (findClient m duid) as [[i c]|] eqn:Hc.
    + destruct (addPrefix_client_same now c duid addr ifname ifindex iaid t1
                  t2 prefix pref valid len quiet) as (r & c' & -> & Hd & _).
      pose proof (findClient_DUID _ _ _ _ Hc).
      apply (Hstore i c c'); [by eapply findClient_lookup|congruence..].
    + destruct (addPrefix_client_same now (new_TAddrClient duid) duid addr
                  ifname ifindex iaid t1 t2 prefix pref valid len quiet)
        as (r & c' & -> & Hd & _).
      unfold getClient, findClient. simpl.
      rewrite insert_app_r_alt, Nat.sub_diag by lia. simpl. f_equal.
      apply list_find_snoc_other. rewrite Hd. simpl. congruence.
  - unfold updatePrefix. destruct (findClient m duid) as [[i c]|] eqn:Hc;
      [|done].
    destruct (updatePrefix_client_same now c duid addr ifindex iaid t1 t2
                (Some p) pref valid len quiet) as (r & c' & -> & Hd & _).
    pose proof (findClient_DUID _ _ _ _ Hc).
    apply (Hstore i c c'); [by eapply findClient_lookup|congruence..].
  - destruct (findClient m duid) as [[i c]|] eqn:Hc;
      [|by unfold delPrefix; rewrite Hc].
    pose proof (findClient_DUID _ _ _ _ Hc) as Hd.
    pose proof (findClient_lookup _ _ _ _ Hc) as Hi.
    destruct (findPD c iaid) as [[j pd]|] eqn:Hpd;
      [|by unfold delPrefix; rewrite Hc, Hpd].
    destruct (findPrefix pd p) as [[k l]|] eqn:Hl;
      [|by unfold delPrefix; rewrite Hc, Hpd, Hl].
    rewrite (delPrefix_found _ _ _ _ _ _ _ _ _ _ _ Hc Hpd Hl). simpl.
    destruct (_ && _ && _ && _); [by apply (Hdelete i c)|].
    apply (Hstore i c); [done|done|]. by case_bool_decide.
  - unfold delClient. destruct (findClient m duid) as [[i c]|] eqn:Hc;
      [|done].
    apply (Hdelete i c); [by eapply findClient_lookup|].
    by eapply findClient_DUID.
Qed.

(** *** Prefixes in use *)

Lemma forallb_false {A : Type} (f : A → bool) (l : list A) :
  forallb f l = false ↔ ∃ x, x ∈ l ∧ f x = false.
Proof.
  induction l as [|y l IH]; simpl.
  - split; [done|]. by intros (x & ?%elem_of_nil & _).
  - rewrite andb_false_iff, IH. split.
    + intros [Hy|(x & Hx & Hf)]; [exists y|exists x]; split; try done;
        [left|by right].
    + intros (x & [->|Hx]%elem_of_cons & Hf); [by left|right; eauto].
Qed.

Lemma prefixIsFree_false (m : TAddrMgr) (x : TIPv6Addr) :
  prefixIsFree m x = false
  ↔ ∃ c pd p, c ∈ ClntsLst m ∧ pd ∈ PDLst c ∧ p ∈ PrefixLst pd
              ∧ prefix_Prefix p = x.
Proof.
  unfold prefixIsFree. rewrite forallb_false. split.
  - intros (c & Hc & (pd & Hpd & (p & Hp & Hx)%forallb_false)%forallb_false).
    apply negb_false_iff, bool_decide_eq_true in Hx. by exists c, pd, p.
  - intros (c & pd & p & Hc & Hpd & Hp & Hx). exists c. split; [done|].
    apply forallb_false. exists pd. split; [done|].
    apply forallb_false. exists p. split; [done|].
    by apply negb_false_iff, bool_decide_eq_true.
Qed.

Lemma prefixIsFree_used (m : TAddrMgr) (x : TIPv6Addr) :
  prefixIsFree m x = false ↔ x ∈ used_prefixes m.
Proof.
  rewrite prefixIsFree_false. unfold used_prefixes, delegated. split.
  - intros (c & pd & p & Hc & Hpd & Hp & <-).
    apply list_elem_of_bind. exists c. split; [|done].
    apply list_elem_of_bind. exists pd. split; [|done].
    by apply list_elem_of_fmap_2.
  - intros (c & Hx & Hc)%list_elem_of_bind.
    apply list_elem_of_bind in Hx as (pd & Hx & Hpd).
    apply list_elem_of_fmap in Hx as (p & -> & Hp).
    by exists c, pd, p.
Qed.

(** [prefixIsFree] returns false exactly when a lease of a PD of a client
    has the prefix, and true exactly when none has; the leases of IAs and
    TAs are not looked at. *)
Theorem prefixIsFree_spec (m : TAddrMgr) (x : TIPv6Addr) :
  (prefixIsFree m x = false
   ↔ ∃ c pd p, c ∈ ClntsLst m ∧ pd ∈ PDLst c ∧ p ∈ PrefixLst pd
               ∧ prefix_Prefix p = x)
  ∧ (prefixIsFree m x = true
     ↔ ∀ c pd p, c ∈ ClntsLst m → pd ∈ PDLst c → p ∈ PrefixLst pd →
                 prefix_Prefix p ≠ x).
Proof.
  split; [apply prefixIsFree_false|]. split.
  - intros Hfree c pd p Hc Hpd Hp Hx.
    assert (prefixIsFree m x = false) as Hused
      by (apply prefixIsFree_false; by exists c, pd, p).
    congruence.
  - intros Hnone. destruct (prefixIsFree m x) eqn:Hfree; [done|].
    apply prefixIsFree_false in Hfree as (c & pd & p & Hc & Hpd & Hp & Hx).
    by destruct (Hnone c pd p).
Qed.

(** After [addPrefix] with a prefix, whether it added the lease or found
    it there, the prefix is in use. *)
Theorem addPrefix_prefixIsFree (now : Z) (m : TAddrMgr) (duid : TDUID)
    (addr : option TIPv6Addr) (ifname : string) (ifindex iaid t1 t2 : Z)
    (p : TIPv6Addr) (pref valid len : Z) (quiet : bool) :
  prefixIsFree (addPrefix now m duid addr ifname ifindex iaid t1 t2 (Some p)
                  pref valid len quiet).2 p = false.
Proof.
  pose proof (addPrefix_cases now m duid addr ifname ifindex iaid t1 t2
                (Some p) pref valid len quiet) as (_ & c' & Hc' & _ & Hpd).
  destruct (Hpd p eq_refl) as (j & pd' & Hfind & _ & _ & Hcase).
  apply prefixIsFree_false.
  unfold getClient in Hc'.
  destruct (findClient _ duid) as [[i c'']|] eqn:Hi; simplify_eq/=.
  apply findClient_lookup, list_elem_of_lookup_2 in Hi.
  apply findPD_lookup, list_elem_of_lookup_2 in Hfind.
  exists c', pd'.
  destruct (getClient m duid ≫= _) as [pd|].
  - destruct (findPrefix pd p) as [[k l]|] eqn:Hl.
    + destruct Hcase as [_ Heq]. exists l. rewrite Heq.
      split_and!; [done|done| |by eapply findPrefix_Prefix].
      by eapply list_elem_of_lookup_2, findPrefix_lookup.
    + destruct Hcase as [_ Heq]. eexists. rewrite Heq.
      split_and!; [done|done| |]; [apply elem_of_app; right; by left|done].
  - destruct Hcase as (_ & _ & Heq). eexists. rewrite Heq.
    split_and!; [done|done|by left|done].
Qed.

(** [updatePrefix], whatever it returns, adds or removes no client and no
    lease: the DUIDs of the clients and the prefixes in use are as they
    were. *)
Theorem updatePrefix_keeps (now : Z) (m : TAddrMgr) (duid : TDUID)
    (addr : option TIPv6Addr) (ifname : string) (ifindex iaid t1 t2 : Z)
    (p : TIPv6Addr) (pref valid len : Z) (quiet : bool) :
  let r := updatePrefix now m duid addr ifname ifindex iaid t1 t2 p pref
             valid len quiet in
  clnt_DUID <$> ClntsLst r.2 = clnt_DUID <$> ClntsLst m
  ∧ used_prefixes r.2 = used_prefixes m
  ∧ ∀ x, prefixIsFree r.2 x = prefixIsFree m x.
Proof.
  intros r.
  destruct (updatePrefix_same now m duid addr ifname ifindex iaid t1 t2 p
              pref valid len quiet) as [Hd Hu].
  split; [done|]. split; [done|]. intros x.
  pose proof (prefixIsFree_used r.2 x) as H1.
  pose proof (prefixIsFree_used m x) as H2.
  fold r in Hu. rewrite Hu in H1.
  destruct (prefixIsFree r.2 x), (prefixIsFree m x); try done.
  - by apply H1, H2.
  - symmetry. by apply H2, H1.
Qed.

(** *** Edge cases and round trips of the prefix operations *)

(** [delPrefix] undoes [addPrefix] for a DUID that had no client, when
    empty clients are deleted: the client and the PD that [addPrefix] made
    are removed again. *)
Theorem delPrefix_addPrefix (now : Z) (m : TAddrMgr) (duid : TDUID)
    (addr : option TIPv6Addr) (ifname : string) (ifindex iaid t1 t2 : Z)
    (p : TIPv6Addr) (pref valid len : Z) (quiet quiet' : bool) :
  getClient m duid = None → DeleteEmptyClient m = true →
  addPrefix now m duid addr ifname ifindex iaid t1 t2 (Some p) pref valid
    len quiet
  = (true, (addPrefix now m duid addr ifname ifindex iaid t1 t2 (Some p)
              pref valid len quiet).2)
  ∧ delPrefix
      (addPrefix now m duid addr ifname ifindex iaid t1 t2 (Some p) pref
         valid len quiet).2 duid iaid p quiet'
    = (true, m).
Proof.
  intros Hnone Hflag. unfold getClient in Hnone.
  destruct (findClient m duid) as [|] eqn:Hc; [done|]. clear Hnone.
  unfold addPrefix. rewrite Hc. unfold addPrefix_client. simpl.
  split; [done|].
  set (lease := new_TAddrPrefix now p pref valid len).
  set (pd := setDUID duid _).
  set (c := storePD 0 pd _).
  set (m' := storeClient _ c _).
  assert (ClntsLst m' = ClntsLst m ++ [c]) as Hm'.
  { unfold m', storeClient, addClient. simpl.
    by rewrite insert_app_r_alt, Nat.sub_diag by lia. }
  assert (findClient m' duid = Some (length (ClntsLst m), c)) as Hc'.
  { unfold findClient. rewrite Hm'. by apply list_find_snoc. }
  assert (findPD c iaid = Some (0%nat, pd)) as Hpd.
  { unfold findPD, c. simpl. by rewrite decide_True. }
  assert (findPrefix pd p = Some (0%nat, lease)) as Hl.
  { unfold findPrefix, pd. simpl. by rewrite decide_True. }
  rewrite (delPrefix_found _ _ _ _ _ _ _ _ _ _ _ Hc' Hpd Hl). simpl.
  change (DeleteEmptyClient m') with (DeleteEmptyClient m).
  rewrite Hflag. simpl. f_equal.
  rewrite delete_store, delete_take_drop, take_app_length.
  rewrite drop_ge, app_nil_r by (rewrite length_app; simpl; lia).
  by destruct m.
Qed.



(** *** Counting the leases *)

Lemma bind_insert_perm {A B : Type} (f : A → list B) (l : list A) (i : nat)
    (x y : A) (z : list B) :
  l !! i = Some x → f y ≡ₚ z ++ f x →
  <[i:=y]> l ≫= f ≡ₚ z ++ (l ≫= f).
Proof.
  revert i. induction l as [|a l IH]; intros [|i] Hl Hf; simplify_eq/=.
  - by rewrite Hf, app_assoc.
  - rewrite (IH i Hl Hf). by rewrite !app_assoc, (Permutation_app_comm z).
Qed.

Lemma bind_delete_perm {A B : Type} (f : A → list B) (l : list A) (i : nat)
    (x : A) :
  l !! i = Some x → l ≫= f ≡ₚ f x ++ (delete i l ≫= f).
Proof.
  revert i. induction l as [|a l IH]; intros [|i] Hl; simplify_eq/=.
  - done.
  - rewrite (IH i Hl). by rewrite !app_assoc, (Permutation_app_comm (f x)).
Qed.

Lemma addPrefix_client_delegated (now : Z) (c : TAddrClient) (duid : TDUID)
    (addr : option TIPv6Addr) (ifname : string) (ifindex iaid t1 t2 : Z)
    (p : TIPv6Addr) (pref valid len : Z) (quiet : bool) :
  ∃ r c',
    addPrefix_client now (Some c) duid addr ifname ifindex iaid t1 t2
      (Some p) pref valid len quiet = (r, Some c')
    ∧ delegated c' ≡ₚ (if r then [p] else []) ++ delegated c.
Proof.
  unfold addPrefix_client.
  destruct (findPD c iaid) as [[j pd]|] eqn:Hpd; simpl.
  - apply findPD_lookup in Hpd.
    destruct (findPrefix _ p);
      (eexists _, _; split; [reflexivity|]); unfold delegated.
    + by apply (bind_insert_perm _ _ _ pd _ []).
    + apply (bind_insert_perm _ _ _ pd _ [p]); [done|]. simpl.
      rewrite fmap_app. simpl. by rewrite (Permutation_app_comm _ [p]).
  - eexists _, _. split; [reflexivity|]. unfold delegated. simpl.
    rewrite insert_app_r_alt, Nat.sub_diag by lia. simpl.
    rewrite bind_app. simpl.
    by rewrite (Permutation_app_comm _ [p]).
Qed.

(** The leases under [addPrefix] and [delPrefix]: a call of [addPrefix]
    with a prefix that returns true has added that prefix, once, to the
    prefixes the manager holds, and one that returns false has added none;
    a call of [delPrefix] that returns true has removed the prefix, once,
    and one that returns false has removed none. *)
Theorem used_prefixes_count (now : Z) (m : TAddrMgr) (duid : TDUID)
    (addr : option TIPv6Addr) (ifname : string) (ifindex iaid t1 t2 : Z)
    (p : TIPv6Addr) (pref valid len : Z) (quiet : bool) :
  let a := addPrefix now m duid addr ifname ifindex iaid t1 t2 (Some p) pref
             valid len quiet in
  let d := delPrefix m duid iaid p quiet in
  used_prefixes a.2 ≡ₚ (if a.1 then [p] else []) ++ used_prefixes m
  ∧ used_prefixes m ≡ₚ (if d.1 then [p] else []) ++ used_prefixes d.2.
Proof.
  intros a d. subst a d. split.
  - unfold addPrefix.
    destruct (findClient m duid) as [[i c]|] eqn:Hc.
    + destruct (addPrefix_client_delegated now c duid addr ifname ifindex
                  iaid t1 t2 p pref valid len quiet) as (r & c' & -> & Hd).
      apply (bind_insert_perm _ _ _ c); [by eapply findClient_lookup|done].
    + destruct (addPrefix_client_delegated now (new_TAddrClient duid) duid
                  addr ifname ifindex iaid t1 t2 p pref valid len quiet)
        as (r & c' & -> & Hd).
      unfold used_prefixes. simpl.
      rewrite insert_app_r_alt, Nat.sub_diag by lia. simpl.
      rewrite bind_app. simpl. rewrite app_nil_r, Hd.
      change (delegated (new_TAddrClient duid)) with (@nil TIPv6Addr).
      by rewrite app_nil_r, Permutation_app_comm.
  - destruct (findClient m duid) as [[i c]|] eqn:Hc;
      [|by unfold delPrefix; rewrite Hc].
    destruct (findPD c iaid) as [[j pd]|] eqn:Hpd;
      [|by unfold delPrefix; rewrite Hc, Hpd].
    destruct (findPrefix pd p) as [[k l]|] eqn:Hl;
      [|by unfold delPrefix; rewrite Hc, Hpd, Hl].
    rewrite (delPrefix_found _ _ _ _ _ _ _ _ _ _ _ Hc Hpd Hl).
    pose proof (findPrefix_Prefix _ _ _ _ Hl) as Hp.
    apply findClient_lookup in Hc. apply findPD_lookup in Hpd.
    apply findPrefix_lookup in Hl.
    assert (prefix_Prefix <$> PrefixLst pd
            ≡ₚ p :: (prefix_Prefix <$> delete k (PrefixLst pd))) as Hleases.
    { rewrite <- Hp, <- fmap_cons. apply fmap_Permutation.
      by apply delete_Permutation. }
    cbn [fst snd]. cbv zeta.
    set (pd' := setPrefixLst (delete k (PrefixLst pd)) pd).
    set (c' := if bool_decide (delete k (PrefixLst pd) = [])
               then setPDLst (delete j (PDLst c)) c else storePD j pd' c).
    assert (delegated c ≡ₚ [p] ++ delegated c') as Hd.
    { unfold c', delegated. case_bool_decide as Hempty; simpl.
      - by rewrite (bind_delete_perm _ _ _ _ Hpd), Hleases, Hempty.
      - rewrite (bind_delete_perm _ _ _ _ Hpd), Hleases.
        rewrite (bind_delete_perm _ (<[j:=pd']> (PDLst c)) j pd').
        + by rewrite delete_store.
        + apply list_lookup_insert_eq. by eapply lookup_lt_Some. }
    unfold used_prefixes.
    destruct (_ && _ && _ && _) eqn:Hdel; cbn [ClntsLst setClntsLst].
    + rewrite (bind_delete_perm _ _ _ _ Hc), Hd.
      apply andb_prop in Hdel as [[[_ _]%andb_prop Hpds]%andb_prop _].
      apply bool_decide_eq_true in Hpds.
      unfold delegated at 1. by rewrite Hpds.
    + rewrite (bind_delete_perm _ _ _ _ Hc), Hd.
      rewrite (bind_delete_perm _ (<[i:=c']> (ClntsLst m)) i c').
      * by rewrite delete_store.
      * apply list_lookup_insert_eq. by eapply lookup_lt_Some.
Qed.

End RegistryFacts.

(** ** More on the interface reconciliation *)

Section InterfacesMore.
Variable nameToIndex : gmap string Z.
Variable indexToName : gmap Z string.

Local Abbreviation fixIA := (updateInterfacesInfoIA nameToIndex indexToName).
Local Abbreviation fixList :=
  (updateInterfacesInfo_list nameToIndex indexToName).
Local Abbreviation fixClient :=
  (updateInterfacesInfo_client nameToIndex indexToName).
Local Abbreviation fixClients :=
  (updateInterfacesInfo_clients nameToIndex indexToName).

(** *** Only names and indices change *)

Lemma updateInterfacesInfoIA_forget (ia : TAddrIA) :
  forget_interface (fixIA ia).2 = forget_interface ia.
Proof.
  unfold updateInterfacesInfoIA.
  repeat (case_bool_decide || case_match); by simplify_eq/=.
Qed.

Lemma updateInterfacesInfo_list_forget (l : list TAddrIA) :
  forget_interface <$> (fixList l).2 = forget_interface <$> l.
Proof.
  induction l as [|ia l IH]; [done|]. simpl.
  pose proof (updateInterfacesInfoIA_forget ia) as Hia.
  destruct (fixIA ia) as [[] ia']; simpl in *.
  - destruct (fixList l) as [ok l']. simpl in *.
    f_equal; [exact Hia|exact IH].
  - by f_equal.
Qed.

Lemma updateInterfacesInfo_client_forget (c : TAddrClient) :
  forget_interfaces (fixClient c).2 = forget_interfaces c.
Proof.
  unfold updateInterfacesInfo_client, forget_interfaces.
  pose proof (updateInterfacesInfo_list_forget (IAsLst c)) as Ha.
  pose proof (updateInterfacesInfo_list_forget (TALst c)) as Hb.
  pose proof (updateInterfacesInfo_list_forget (PDLst c)) as Hc.
  destruct (fixList (IAsLst c)) as [[] ias]; simpl in *; [|by rewrite Ha].
  destruct (fixList (TALst c)) as [[] tas]; simpl in *;
    [|by rewrite Ha, Hb].
  destruct (fixList (PDLst c)) as [ok pds]; simpl in *.
  by rewrite Ha, Hb, Hc.
Qed.

Lemma updateInterfacesInfo_clients_forget (l : list TAddrClient) :
  forget_interfaces <$> (fixClients l).2 = forget_interfaces <$> l.
Proof.
  induction l as [|c l IH]; [done|]. simpl.
  pose proof (updateInterfacesInfo_client_forget c) as Hc.
  destruct (fixClient c) as [[] c']; simpl in *.
  - destruct (fixClients l) as [ok l']. simpl in *.
    f_equal; [exact Hc|exact IH].
  - by f_equal.
Qed.

(** Whether [updateInterfacesInfo] succeeds or stops at an assignment it
    cannot fix, it changes nothing but interface names and indices: no
    client or assignment is added, removed or reordered, and leases,
    timers and DUIDs stay. *)
Theorem updateInterfacesInfo_keeps (m : TAddrMgr) :
  let r := updateInterfacesInfo nameToIndex indexToName m in
  forget_interfaces <$> ClntsLst r.2 = forget_interfaces <$> ClntsLst m
  ∧ r.2 = setClntsLst (ClntsLst r.2) m.
Proof.
  intros r. subst r. unfold updateInterfacesInfo.
  pose proof (updateInterfacesInfo_clients_forget (ClntsLst m)) as H.
  by destruct (fixClients (ClntsLst m)) as [ok l].
Qed.

(** *** After a successful run *)

Lemma setIfacename_twice (a b : string) (ia : TAddrIA) :
  setIfacename a (setIfacename b ia) = setIfacename a ia.
Proof. done. Qed.

Lemma updateInterfacesInfoIA_reconciled (ia ia' : TAddrIA) :
  mappings_agree nameToIndex indexToName →
  fixIA ia = (true, ia') → reconciled nameToIndex indexToName ia'.
Proof.
  intros Hagree. unfold updateInterfacesInfoIA, reconciled.
  destruct (Ifacename ia) as [|a s] eqn:Hname; simpl.
  - destruct (indexToName !! Ifindex ia) as [name|] eqn:Hidx; [|done].
    intros [= <-]. simpl. case_bool_decide as Hn; [by rewrite <- Hn|].
    by apply Hagree.
  - destruct (nameToIndex !! String a s) as [n|] eqn:Hn; [|done].
    case_bool_decide; intros [= <-]; simpl; rewrite Hname; simpl;
      [done|]. rewrite Hn. f_equal. by destruct (decide (Ifindex ia = n)).
Qed.

Lemma reconciled_fixed (ia : TAddrIA) :
  reconciled nameToIndex indexToName ia → fixIA ia = (true, ia).
Proof.
  unfold updateInterfacesInfoIA, reconciled.
  destruct (Ifacename ia) as [|a s] eqn:Hname; simpl.
  - intros ->. f_equal. rewrite <- Hname. by destruct ia.
  - intros ->. by rewrite bool_decide_eq_false_2 by (by intros ?).
Qed.

Lemma updateInterfacesInfo_list_fixed (l : list TAddrIA) :
  Forall (reconciled nameToIndex indexToName) l → fixList l = (true, l).
Proof.
  induction 1 as [|ia l Hia _ IH]; [done|]. simpl.
  by rewrite (reconciled_fixed _ Hia), IH.
Qed.

Lemma updateInterfacesInfo_client_fixed (c : TAddrClient) :
  Forall (reconciled nameToIndex indexToName) (assignments c) →
  fixClient c = (true, c).
Proof.
  unfold assignments. rewrite !Forall_app. intros (Ha & Hb & Hc).
  unfold updateInterfacesInfo_client.
  rewrite (updateInterfacesInfo_list_fixed _ Ha). simpl.
  rewrite (updateInterfacesInfo_list_fixed _ Hb). simpl.
  rewrite (updateInterfacesInfo_list_fixed _ Hc). by destruct c.
Qed.

Lemma updateInterfacesInfo_clients_fixed (l : list TAddrClient) :
  Forall (λ c, Forall (reconciled nameToIndex indexToName) (assignments c))
    l →
  fixClients l = (true, l).
Proof.
  induction 1 as [|c l Hc _ IH]; [done|]. simpl.
  by rewrite (updateInterfacesInfo_client_fixed _ Hc), IH.
Qed.

Lemma updateInterfacesInfo_all_reconciled (m m' : TAddrMgr) :
  mappings_agree nameToIndex indexToName →
  updateInterfacesInfo nameToIndex indexToName m = (true, m') →
  ∀ c ia, c ∈ ClntsLst m' → ia ∈ assignments c →
          reconciled nameToIndex indexToName ia.
Proof.
  intros Hagree. unfold updateInterfacesInfo.
  destruct (updateInterfacesInfo_clients_spec nameToIndex indexToName
              (ClntsLst m)) as [Hok Hfix].
  destruct (fixClients (ClntsLst m)) as [ok l] eqn:Hl. simpl in *.
  intros [= -> <-] c ia Hc Hia. simpl in Hc.
  pose proof (Hfix eq_refl) as Heq. pose proof (proj1 Hok eq_refl) as Hall.
  clear Hok Hfix. rewrite Heq in Hc.
  apply list_elem_of_fmap in Hc as (c0 & -> & Hc0).
  eapply Forall_forall in Hall; [|exact Hc0].
  destruct (updateInterfacesInfo_client_spec nameToIndex indexToName c0)
    as [Hok' Hfix'].
  rewrite (Hfix' Hall) in Hia. apply Hok' in Hall. clear Hok' Hfix'.
  assert (∃ ia0, ia0 ∈ assignments c0 ∧ ia = (fixIA ia0).2)
    as (ia0 & Hia0 & ->).
  { unfold assignments in *. simpl in Hia.
    rewrite !elem_of_app in Hia. setoid_rewrite elem_of_app.
    setoid_rewrite elem_of_app.
    destruct Hia as [H|[H|H]];
      apply list_elem_of_fmap in H as (ia0 & -> & H); eauto 6. }
  eapply Forall_forall in Hall; [|exact Hia0].
  destruct (fixIA ia0) as [ok ia'] eqn:Hfixed. simpl in *. subst ok.
  by eapply updateInterfacesInfoIA_reconciled.
Qed.

(** With mappings that agree, a successful [updateInterfacesInfo] leaves
    every assignment of every client reconciled (one with a name has the
    index the system has for that name), and running it again succeeds and
    changes nothing. *)
Theorem updateInterfacesInfo_again (m m' : TAddrMgr) :
  mappings_agree nameToIndex indexToName →
  updateInterfacesInfo nameToIndex indexToName m = (true, m') →
  (∀ c ia, c ∈ ClntsLst m' → ia ∈ assignments c →
           reconciled nameToIndex indexToName ia)
  ∧ updateInterfacesInfo nameToIndex indexToName m' = (true, m').
Proof.
  intros Hagree Hfirst.
  pose proof (updateInterfacesInfo_all_reconciled m m' Hagree Hfirst)
    as Hrec.
  split; [done|]. unfold updateInterfacesInfo.
  rewrite updateInterfacesInfo_clients_fixed; [by destruct m'|].
  apply Forall_forall. intros c Hc. apply Forall_forall. intros ia Hia.
  by eapply Hrec.
Qed.

End InterfacesMore.

(** ** More on the timers and on the counter *)

Section TimersMore.
Context {ext : Externals}.

Lemma fold_lowest_snoc {A : Type} (t : A → Z) (l : list A) (x : A) :
  fold_left (λ ts y, if ts >? t y then t y else ts) (l ++ [x]) UINT_MAX
  = Z.min (fold_left (λ ts y, if ts >? t y then t y else ts) l UINT_MAX)
      (t x).
Proof.
  rewrite fold_left_app. simpl.
  destruct (Z.gtb_spec (fold_left (λ ts y, if ts >? t y then t y else ts)
                          l UINT_MAX) (t x)); lia.
Qed.

(** Each timeout of the manager after [addClient] is the lower of the
    timeout before and that of the new client: a client added can only
    bring the next event nearer.  No timeout exceeds [UINT_MAX]. *)
Theorem getTimeout_addClient (now : Z) (c : TAddrClient) (m : TAddrMgr) :
  getT1Timeout now (addClient c m)
  = Z.min (getT1Timeout now m) (clnt_getT1Timeout now c)
  ∧ getT2Timeout now (addClient c m)
    = Z.min (getT2Timeout now m) (clnt_getT2Timeout now c)
  ∧ getPrefTimeout now (addClient c m)
    = Z.min (getPrefTimeout now m) (clnt_getPrefTimeout now c)
  ∧ getValidTimeout now (addClient c m)
    = Z.min (getValidTimeout now m) (clnt_getValidTimeout now c)
  ∧ getT1Timeout now m ≤ UINT_MAX ∧ getT2Timeout now m ≤ UINT_MAX
  ∧ getPrefTimeout now m ≤ UINT_MAX ∧ getValidTimeout now m ≤ UINT_MAX.
Proof.
  unfold getT1Timeout, getT2Timeout, getPrefTimeout, getValidTimeout.
  simpl. rewrite !fold_lowest_snoc. split_and!; try done.
  - by destruct (fold_lowest (clnt_getT1Timeout now) (ClntsLst m) UINT_MAX)
      as (? & _).
  - by destruct (fold_lowest (clnt_getT2Timeout now) (ClntsLst m) UINT_MAX)
      as (? & _).
  - by destruct (fold_lowest (clnt_getPrefTimeout now) (ClntsLst m) UINT_MAX)
      as (? & _).
  - by destruct (fold_lowest (clnt_getValidTimeout now) (ClntsLst m)
                   UINT_MAX) as (? & _).
Qed.

End TimersMore.

Section CounterMore.
Context {ext : Externals}.

Lemma mod_add_inj (v a b : Z) :
  0 ≤ a < UINT64_MOD → 0 ≤ b < UINT64_MOD →
  (v + a) `mod` UINT64_MOD = (v + b) `mod` UINT64_MOD → a = b.
Proof.
  unfold UINT64_MOD. intros Ha Hb Heq.
  pose proof (Z.div_mod (v + a) (2 ^ 64) ltac:(lia)) as H1.
  pose proof (Z.div_mod (v + b) (2 ^ 64) ltac:(lia)) as H2.
  rewrite Heq in H1.
  assert (a - b = 2 ^ 64 * ((v + a) `div` 2 ^ 64 - (v + b) `div` 2 ^ 64))
    as Hdiff by lia.
  nia.
Qed.

(** Fewer than 2^64 calls of [getNextReplayDetectionValue] in a row return
    values that differ from each other and from the counter the manager
    started with. *)
Theorem nextReplayDetectionValues_distinct (n : nat) (m : TAddrMgr) :
  0 ≤ ReplayDetectionValue_ m < UINT64_MOD → Z.of_nat n < UINT64_MOD →
  NoDup (nextReplayDetectionValues n m).1
  ∧ ReplayDetectionValue_ m ∉ (nextReplayDetectionValues n m).1.
Proof.
  intros Hm Hn.
  destruct (nextReplayDetectionValues_spec n m Hm) as [-> _]. split.
  - apply NoDup_fmap_2_strong; [|apply NoDup_seq].
    intros a b Ha%elem_of_seq Hb%elem_of_seq Heq.
    apply mod_add_inj in Heq; lia.
  - intros (k & Heq & Hk%elem_of_seq)%list_elem_of_fmap.
    rewrite <- (Z.mod_small (ReplayDetectionValue_ m) UINT64_MOD) in Heq
      at 1 by done.
    rewrite <- (Z.add_0_r (ReplayDetectionValue_ m)) in Heq at 1.
    apply mod_add_inj in Heq; unfold UINT64_MOD in *; lia.
Qed.

End CounterMore.

(** ** The further properties at the examples *)

Section MoreEvaluated.
Local Open Scope string_scope.
Local Open Scope Z_scope.

(** A client with a new DUID, added to [example_after_addPrefix] and
    deleted again. *)
Lemma delClient_addClient_witness :
  getClient example_after_addPrefix
    (clnt_DUID (new_TAddrClient example_other_DUID)) = None
  ∧ delClient (clnt_DUID (new_TAddrClient example_other_DUID))
      (addClient (new_TAddrClient example_other_DUID)
         example_after_addPrefix)
    = (true, example_after_addPrefix).
Proof.
  assert (getClient example_after_addPrefix
            (clnt_DUID (new_TAddrClient example_other_DUID)) = None) as H
    by reflexivity.
  split; [exact H|].
  exact (delClient_addClient (new_TAddrClient example_other_DUID)
           example_after_addPrefix H).
Defined.

Lemma example_after_addPrefix_unique : unique_DUIDs example_after_addPrefix.
Proof. apply NoDup_singleton. Qed.

(** The operations at [example_after_addPrefix], for a second client. *)
Lemma unique_DUIDs_kept_witness :
  unique_DUIDs example_after_addPrefix
  ∧ unique_DUIDs
      (addPrefix (ext := example_platform) 6000 example_after_addPrefix
         example_other_DUID None "eth0" 3 6 10 20 (Some example_prefix)
         100 200 48 false).2
  ∧ unique_DUIDs
      (updatePrefix 6000 example_after_addPrefix example_other_DUID None
         "eth0" 3 6 10 20 example_prefix 100 200 48 false).2
  ∧ unique_DUIDs
      (delPrefix example_after_addPrefix example_other_DUID 6
         example_prefix false).2
  ∧ unique_DUIDs (delClient example_other_DUID example_after_addPrefix).2.
Proof.
  split; [exact example_after_addPrefix_unique|].
  exact (unique_DUIDs_kept (ext := example_platform) 6000
           example_after_addPrefix example_other_DUID None "eth0" 3 6 10 20
           (Some example_prefix) example_prefix 100 200 48 false
           example_after_addPrefix_unique).
Defined.

Lemma delClient_getClient_witness :
  unique_DUIDs example_after_addPrefix
  ∧ getClient (delClient example_DUID example_after_addPrefix).2 example_DUID
    = None.
Proof.
  split; [exact example_after_addPrefix_unique|].
  exact (delClient_getClient example_DUID example_after_addPrefix
           example_after_addPrefix_unique).
Defined.

Lemma example_DUIDs_differ : example_DUID ≠ example_other_DUID.
Proof. discriminate. Qed.

(** The client of [example_after_addPrefix] under operations for another
    DUID. *)
Lemma other_clients_kept_witness :
  example_DUID ≠ example_other_DUID
  ∧ getClient
      (addPrefix (ext := example_platform) 6000 example_after_addPrefix
         example_other_DUID None "eth0" 3 6 10 20 (Some example_prefix)
         100 200 48 false).2 example_DUID
    = getClient example_after_addPrefix example_DUID
  ∧ getClient
      (updatePrefix 6000 example_after_addPrefix example_other_DUID None
         "eth0" 3 6 10 20 example_prefix 100 200 48 false).2 example_DUID
    = getClient example_after_addPrefix example_DUID
  ∧ getClient
      (delPrefix example_after_addPrefix example_other_DUID 6
         example_prefix false).2 example_DUID
    = getClient example_after_addPrefix example_DUID
  ∧ getClient (delClient example_other_DUID example_after_addPrefix).2
      example_DUID
    = getClient example_after_addPrefix example_DUID.
Proof.
  split; [exact example_DUIDs_differ|].
  exact (other_clients_kept (ext := example_platform) 6000
           example_after_addPrefix example_other_DUID example_DUID None
           "eth0" 3 6 10 20 (Some example_prefix) example_prefix 100 200 48
           false example_DUIDs_differ).
Defined.

(** A prefix added for a new client of [example_after_addPrefix] and
    deleted again. *)
Lemma delPrefix_addPrefix_witness :
  getClient example_after_addPrefix example_other_DUID = None
  ∧ DeleteEmptyClient example_after_addPrefix = true
  ∧ delPrefix
      (addPrefix (ext := example_platform) 6000 example_after_addPrefix
         example_other_DUID None "eth0" 3 8 10 20
         (Some example_other_prefix) 100 200 48 false).2
      example_other_DUID 8 example_other_prefix false
    = (true, example_after_addPrefix).
Proof.
  assert (getClient example_after_addPrefix example_other_DUID = None) as H
    by reflexivity.
  assert (DeleteEmptyClient example_after_addPrefix = true) as H'
    by reflexivity.
  split; [exact H|]. split; [exact H'|].
  exact (proj2 (delPrefix_addPrefix (ext := example_platform) 6000
                  example_after_addPrefix example_other_DUID None "eth0" 3 8
                  10 20 example_other_prefix 100 200 48 false false H H')).
Defined.


(** The interface reconciliation at the record of old. *)
Lemma example_mappings_agree :
  mappings_agree example_nameToIndex example_indexToName.
Proof.
  intros i name Hi _. unfold example_indexToName in Hi.
  apply lookup_singleton_Some in Hi as [<- <-]. reflexivity.
Qed.

Lemma updateInterfacesInfo_again_witness :
  mappings_agree example_nameToIndex example_indexToName
  ∧ updateInterfacesInfo example_nameToIndex example_indexToName
      example_old_record = (true, example_named_record)
  ∧ (∀ c ia, c ∈ ClntsLst example_named_record → ia ∈ assignments c →
             reconciled example_nameToIndex example_indexToName ia)
  ∧ updateInterfacesInfo example_nameToIndex example_indexToName
      example_named_record = (true, example_named_record).
Proof.
  assert (updateInterfacesInfo example_nameToIndex example_indexToName
            example_old_record = (true, example_named_record)) as H
    by reflexivity.
  split; [exact example_mappings_agree|]. split; [exact H|].
  exact (updateInterfacesInfo_again example_nameToIndex example_indexToName
           example_old_record example_named_record example_mappings_agree H).
Defined.

(** Three calls from the counter of [example_loaded]. *)
Lemma nextReplayDetectionValues_distinct_witness :
  0 ≤ ReplayDetectionValue_ example_loaded < UINT64_MOD
  ∧ Z.of_nat 3 < UINT64_MOD
  ∧ NoDup (nextReplayDetectionValues 3 example_loaded).1
  ∧ ReplayDetectionValue_ example_loaded
    ∉ (nextReplayDetectionValues 3 example_loaded).1.
Proof.
  assert (0 ≤ ReplayDetectionValue_ example_loaded < UINT64_MOD) as H
    by (vm_compute; split; [discriminate|reflexivity]).
  assert (Z.of_nat 3 < UINT64_MOD) as H' by reflexivity.
  split; [exact H|]. split; [exact H'|].
  exact (nextReplayDetectionValues_distinct 3 example_loaded H H').
Defined.

(** The reader on a client block without [<AddrMgr>] line, and on a
    snapshot without [<duid] line. *)
Lemma xmlLoadBuiltIn_outside_AddrMgr_witness :
  find "<AddrMgr>" example_snapshot_no_tag = None
  ∧ ∃ m',
      xmlLoadBuiltIn (ext := example_platform) (daemon := example_daemon)
        5000 (Some example_snapshot_no_tag) (new_TAddrMgr EmptyString)
      = Ret (false, m')
      ∧ ClntsLst m' = ClntsLst (new_TAddrMgr EmptyString).
Proof.
  assert (find "<AddrMgr>" example_snapshot_no_tag = None) as H
    by (vm_compute; reflexivity).
  split; [exact H|].
  exact (xmlLoadBuiltIn_outside_AddrMgr (ext := example_platform)
           (daemon := example_daemon) 5000 example_snapshot_no_tag
           (new_TAddrMgr EmptyString) H).
Defined.

Lemma xmlLoadBuiltIn_no_duid_witness :
  find "<duid" example_snapshot_no_duid = None
  ∧ xmlLoadBuiltIn (ext := example_platform) (daemon := example_daemon) 5000
      (Some example_snapshot_no_duid) (new_TAddrMgr EmptyString)
    = Ret (false, setReplayDetectionValue 77 (new_TAddrMgr EmptyString))
  ∧ ClntsLst (setReplayDetectionValue 77 (new_TAddrMgr EmptyString))
    = ClntsLst (new_TAddrMgr EmptyString).
Proof.
  assert (find "<duid" example_snapshot_no_duid = None) as H
    by (vm_compute; reflexivity).
  assert (xmlLoadBuiltIn (ext := example_platform) (daemon := example_daemon)
            5000 (Some example_snapshot_no_duid) (new_TAddrMgr EmptyString)
          = Ret (false,
                 setReplayDetectionValue 77 (new_TAddrMgr EmptyString)))
    as Hload by (vm_compute; reflexivity).
  split; [exact H|]. split; [exact Hload|].
  exact (proj2 (proj2 (xmlLoadBuiltIn_no_duid (ext := example_platform)
                         (daemon := example_daemon) 5000
                         example_snapshot_no_duid (new_TAddrMgr EmptyString)
                         H) _ _ Hload)).
Defined.

(** The example snapshot read for a daemon that accepts nothing: the
    client is found, and dropped. *)
Lemma xmlLoadBuiltIn_all_rejected_witness :
  (∀ a, verifyAddr (Daemon := example_strict_daemon) a = false)
  ∧ (∀ p, verifyPrefix (Daemon := example_strict_daemon) p = false)
  ∧ xmlLoadBuiltIn (ext := example_platform)
      (daemon := example_strict_daemon) 5000 (Some example_snapshot)
      (new_TAddrMgr EmptyString)
    = Ret (true, setReplayDetectionValue 77 (new_TAddrMgr EmptyString))
  ∧ ClntsLst (setReplayDetectionValue 77 (new_TAddrMgr EmptyString))
    = ClntsLst (new_TAddrMgr EmptyString).
Proof.
  assert (∀ a, verifyAddr (Daemon := example_strict_daemon) a = false)
    as Haddr by reflexivity.
  assert (∀ p, verifyPrefix (Daemon := example_strict_daemon) p = false)
    as Hprefix by reflexivity.
  assert (xmlLoadBuiltIn (ext := example_platform)
            (daemon := example_strict_daemon) 5000 (Some example_snapshot)
            (new_TAddrMgr EmptyString)
          = Ret (true,
                 setReplayDetectionValue 77 (new_TAddrMgr EmptyString)))
    as Hload by (vm_compute; reflexivity).
  split; [exact Haddr|]. split; [exact Hprefix|]. split; [exact Hload|].
  exact (xmlLoadBuiltIn_all_rejected (ext := example_platform)
           (daemon := example_strict_daemon) 5000 _ _ _ _ Haddr Hprefix
           Hload).
Defined.

End MoreEvaluated.
